(** * backend_future_predict: a shallow embedding of the weather backend

    The Python sources under [backend/] are embedded module by module:
    [services/ml.py], [services/weather.py], [services/geocode.py],
    [services/reverse_geocode.py], [services/geocode_autocomplete.py],
    [schemas.py] and [main.py].  Python [float] is IEEE binary64 and is
    embedded as Rocq's primitive [float]; outbound HTTP calls and the
    regression library are oracles collected in records. *)

From Stdlib Require Import ZArith NArith QArith Qcanon Floats String Ascii.
From Stdlib Require Import DecimalString DecimalN Sorted Permutation.
From stdpp Require Import base option list sorting.

Set Warnings "-inexact-float".

Local Open Scope string_scope.
Local Open Scope Z_scope.

(** ** Exceptions and the error monad

    The sources raise [ValueError], FastAPI's [HTTPException] and, from
    library code, arbitrary other exceptions; [except Exception] catches all
    three, [except ValueError] only the first. *)

Inductive exn : Type :=
| ValueError (msg : string)
| HTTPException (status_code : Z) (detail : string)
| OtherError (msg : string).

Inductive result (A : Type) : Type :=
| Ok (a : A)
| Raise (e : exn).
Arguments Ok {A} a.
Arguments Raise {A} e.

#[global] Instance result_ret : MRet result := λ A a, Ok a.
#[global] Instance result_bind : MBind result := λ A B k m,
  match m with
  | Ok a => k a
  | Raise e => Raise e
  end.

(** [try: m except Exception: h] *)
Definition try_except {A} (m : result A) (h : exn → result A) : result A :=
  match m with
  | Ok a => Ok a
  | Raise e => h e
  end.

(** [str(e)] of an exception. *)
Definition exn_str (e : exn) : string :=
  match e with
  | ValueError m => m
  | HTTPException _ d => d
  | OtherError m => m
  end.

(** ** Python strings

    Strings are sequences of code points below 256.  [str.strip()] removes
    the characters for which [str.isspace()] holds: in this range the code
    points 9-13, 28-32, 133 and 160. *)

Definition isspace (c : ascii) : bool :=
  let n := N_of_ascii c in
  ((9 <=? n) && (n <=? 13) || (28 <=? n) && (n <=? 32) || (n =? 133) || (n =? 160))%N.

Fixpoint lstrip (s : string) : string :=
  match s with
  | String c s' => if isspace c then lstrip s' else s
  | EmptyString => EmptyString
  end.

Fixpoint rstrip (s : string) : string :=
  match s with
  | String c s' =>
      match rstrip s' with
      | EmptyString => if isspace c then EmptyString else String c EmptyString
      | r => String c r
      end
  | EmptyString => EmptyString
  end.

Definition strip (s : string) : string := rstrip (lstrip s).

(** Truth value of a [str] and of an [Optional[str]]. *)
Definition str_truthy (s : string) : bool :=
  match s with EmptyString => false | _ => true end.

Definition opt_str_truthy (o : option string) : bool :=
  match o with Some s => str_truthy s | None => false end.

(** ["," in s] *)
Fixpoint contains_comma (s : string) : bool :=
  match s with
  | String c s' => Ascii.eqb c "," || contains_comma s'
  | EmptyString => false
  end.

(** [xs[:k]] for a Python [int] k. *)
Definition py_slice_to {A} (k : Z) (xs : list A) : list A :=
  if 0 <=? k then take (Z.to_nat k) xs
  else take (length xs - Z.to_nat (- k)) xs.

(** ** Floats

    [exact_scaled x k] is the exact value of [|x| * 10^k] rounded to the
    nearest integer, ties to even, together with the sign bit of [x]: the
    correctly rounded decimal conversion that CPython uses both for
    [format(x, ".kf")] and for [round(x, k)].  It is [None] for infinities
    and NaN. *)

Definition round_half_even (n d : Z) : Z :=
  let q := n `div` d in
  let r := n `mod` d in
  if 2 * r <? d then q
  else if d <? 2 * r then q + 1
  else if Z.even q then q else q + 1.

Definition exact_scaled (x : float) (k : Z) : option (bool * Z) :=
  match Prim2SF x with
  | S754_zero s => Some (s, 0)
  | S754_finite s m e =>
      let num := Z.pos m * 10 ^ k in
      if 0 <=? e then Some (s, num * 2 ^ e)
      else Some (s, round_half_even num (2 ^ (- e)))
  | S754_infinity _ => None
  | S754_nan => None
  end.

Definition digit (n : Z) : ascii := ascii_of_N (48 + Z.to_N (n `mod` 10)).

Definition decimal_of_Z (n : Z) : string :=
  NilZero.string_of_uint (N.to_uint (Z.to_N n)).

(** [f"{x:.4f}"] *)
Definition format_4f (x : float) : string :=
  match Prim2SF x with
  | S754_nan => "nan"
  | S754_infinity s => if s then "-inf" else "inf"
  | _ =>
      match exact_scaled x 4 with
      | Some (s, n) =>
          (if s then "-" else "") ++ decimal_of_Z (n `div` 10000) ++ "."
          ++ String (digit (n `div` 1000))
              (String (digit (n `div` 100))
                (String (digit (n `div` 10)) (String (digit n) EmptyString)))
      | None => "nan"
      end
  end.

(** [pd.notna] on a float cell: missing values are NaN. *)
Definition notna (x : float) : bool := negb (PrimFloat.is_nan x).

(** ** Timestamps

    A pandas [Timestamp] is an instant in nanoseconds; it is tz-aware (UTC)
    when it comes from [pd.to_datetime(..., utc=True)] and naive after
    [Series.values], which drops the zone.  A naive and an aware timestamp
    never compare equal. *)

Record Timestamp : Type := { ns : Z; utc : bool }.

#[global] Instance Timestamp_eq_dec : EqDecision Timestamp.
Proof. solve_decision. Defined.

Definition time_le (a b : Timestamp) : Prop := ns a ≤ ns b.

#[global] Instance time_le_dec : RelDecision time_le.
Proof. intros a b. unfold time_le. apply _. Defined.

(** [Series.values] of a datetime column. *)
Definition naive (t : Timestamp) : Timestamp := {| ns := ns t; utc := false |}.

(** ** services/ml.py *)

Module Ml.

(** The arithmetic the module is written against.  The program runs it at
    [binary64]; [exact] reads the same expressions over the rationals. *)
Class PyFloat (F : Type) : Type := {
  add : F → F → F;
  sub : F → F → F;
  mul : F → F → F;
  div : F → F → F;
  gtb : F → F → bool;
  lit_0_0 : F;
  lit_0_5 : F;
  lit_0_6 : F;
  lit_1_0 : F;
}.

#[global] Instance binary64 : PyFloat float := {
  add := PrimFloat.add;
  sub := PrimFloat.sub;
  mul := PrimFloat.mul;
  div := PrimFloat.div;
  gtb x y := PrimFloat.ltb y x;
  lit_0_0 := 0%float;
  lit_0_5 := 0.5%float;
  lit_0_6 := 0.6%float;
  lit_1_0 := 1%float;
}.

#[global] Instance exact : PyFloat Qc := {
  add := Qcplus;
  sub := Qcminus;
  mul := Qcmult;
  div := Qcdiv;
  gtb x y := bool_decide (y < x)%Qc;
  lit_0_0 := Q2Qc 0;
  lit_0_5 := Q2Qc (1 # 2);
  lit_0_6 := Q2Qc (6 # 10);
  lit_1_0 := Q2Qc 1;
}.

(** [alpha * ml + (1 - alpha) * api], line 319. *)
Definition blend_value {F} `{PyFloat F} (alpha ml api : F) : F :=
  add (mul alpha ml) (mul (sub lit_1_0 alpha) api).

(** Lines 156-165: the weights from the two training scores. *)
Definition ensemble_weights {F} `{PyFloat F} (rf_score gb_score : F) : F * F :=
  let total_score := add rf_score gb_score in
  if gtb total_score lit_0_0
  then (div rf_score total_score, div gb_score total_score)
  else (lit_0_5, lit_0_5).

(** The weighting rule as the specification words it: the normalized
    training score, and equal weights when both scores are non-positive. *)
Definition spec_weights (rf_score gb_score : float) : float * float :=
  if PrimFloat.leb rf_score 0 && PrimFloat.leb gb_score 0
  then (0.5%float, 0.5%float)
  else ((rf_score / (rf_score + gb_score))%float,
        (gb_score / (rf_score + gb_score))%float).

(** A [pd.Series] with a [DatetimeIndex]. *)
Definition Series : Type := list (Timestamp * float).

Definition index (s : Series) : list Timestamp := s.*1.
Definition values (s : Series) : list float := s.*2.

Definition dropna (s : Series) : Series := filter (λ p, notna p.2 = true) s.

(** A feature matrix: [X.shape[1]] columns, one list per row. *)
Record Features : Type := { ncols : nat; rows : list (list float) }.

(** The regression library: [fit] may raise, [score] is the training R². *)
Record Sklearn : Type := {
  Regressor : Type;
  rf_fit : Features → list float → result Regressor;
  gb_fit : Features → list float → result Regressor;
  rf_fallback_fit : Features → list float → result Regressor;
  score : Regressor → Features → list float → float;
  (** [create_advanced_features], lines 15-85: rolling statistics and
      trigonometric encodings, kept abstract *)
  create_advanced_features : Series → nat → result (Features * list float);
}.

(** [create_simple_features], lines 88-105. *)
Definition simple_lags (n lags : nat) : nat :=
  if (n <? lags + 1)%nat then Nat.max 1 (n / 2) else lags.

Definition create_simple_features (series : Series) (lags : nat)
  : Features * list float :=
  let clean_series := values (dropna series) in
  let lags := simple_lags (length clean_series) lags in
  let range := seq lags (length clean_series - lags) in
  ({| ncols := lags;
      rows := (λ i, take lags (drop (i - lags) clean_series)) <$> range |},
   omap (λ i, clean_series !! i) range).

Record Models (sk : Sklearn) : Type := {
  rf : Regressor sk;
  gb : option (Regressor sk);
  weights : float * float;
}.
Arguments rf {sk} _.
Arguments gb {sk} _.
Arguments weights {sk} _.

Section train.
Context (sk : Sklearn).

(** Lines 128-171: from the feature matrix to the weighted pair. *)
Definition fit_ensemble (X : Features) (y : list float) : result (Models sk) :=
  if (length (rows X) <? 10)%nat
  then Raise (ValueError "Not enough data for training")
  else
    rf_model ← rf_fit sk X y;
    gb_model ← gb_fit sk X y;
    let rf_score := score sk rf_model X y in
    let gb_score := score sk gb_model X y in
    Ok {| rf := rf_model; gb := Some gb_model;
          weights := ensemble_weights rf_score gb_score |}.

(** The [try] block, lines 120-175, with the value the local variable
    [lags] has when the block ends or raises. *)
Definition train_ensemble_try (series : Series) (lags : nat)
  : nat * result (Models sk) :=
  if (100 <? length (dropna series))%nat
  then
    match create_advanced_features sk series lags with
    | Ok (X, y) => (lags, fit_ensemble X y)
    | Raise e => (lags, Raise e)
    end
  else
    let '(X, y) := create_simple_features series lags in
    (ncols X, fit_ensemble X y).

(** [train_ensemble_model], lines 108-190. *)
Definition train_ensemble_model (series : Series) (lags : nat)
  : result (Models sk * nat) :=
  match train_ensemble_try series lags with
  | (lags, Ok models) => Ok (models, lags)
  | (lags, Raise _) =>
      let '(X, y) := create_simple_features series lags in
      let lags := ncols X in
      model ← rf_fallback_fit sk X y;
      Ok ({| rf := model; gb := None;
             weights := (lit_1_0, lit_0_0) |}, lags)
  end.

(** [train_local_model], lines 335-337. *)
Definition train_local_model (series : Series) (lags : nat)
  : result (Models sk * nat) :=
  train_ensemble_model series lags.
End train.

(** [Index.intersection] followed by [sort_values]. *)
Definition common_times (ml_time api_time : list Timestamp) : list Timestamp :=
  merge_sort time_le (remove_dups (list_intersection ml_time api_time)).

(** [Series.reindex] on a target drawn from the index: pandas refuses an
    index with duplicate labels; an absent label gives NaN. *)
Definition at_label (s : Series) (t : Timestamp) : float :=
  match list_find (λ p, p.1 = t) s with
  | Some (_, p) => p.2
  | None => nan
  end.

Definition reindex (s : Series) (target : list Timestamp) : result Series :=
  if decide (NoDup (index s))
  then Ok ((λ t, (t, at_label s t)) <$> target)
  else Raise (ValueError "cannot reindex on an axis with duplicate labels").

(** [len(ml_time) != len(api_time) or not (ml_time == api_time).all()] *)
Definition index_mismatch (ml_time api_time : list Timestamp) : bool :=
  negb (length ml_time =? length api_time)%nat
  || negb (forallb (λ p, bool_decide (p.1 = p.2)) (zip ml_time api_time)).

(** [blend_ml_and_api], lines 276-325, for time-indexed series. *)
Definition blend_ml_and_api (ml_series api_series : Series) (alpha : float)
  : result Series :=
  let ml_time := index ml_series in
  let api_time := index api_series in
  '(common_time, ml_aligned, api_aligned) ←
    (if index_mismatch ml_time api_time
     then
       let common_time := common_times ml_time api_time in
       ml_aligned ← reindex ml_series common_time;
       api_aligned ← reindex api_series common_time;
       Ok (common_time, ml_aligned, api_aligned)
     else Ok (ml_time, ml_series, api_series));
  let blended :=
    zip_with (blend_value alpha) (values ml_aligned) (values api_aligned) in
  Ok (zip common_time blended).

End Ml.

(** ** DataFrames of hourly weather

    The seven hourly variables are the columns beside ["time"]; a frame is
    the list of its rows.  A missing value is NaN. *)

Inductive Var : Type :=
| temperature_2m
| relativehumidity_2m
| shortwave_radiation
| cloudcover
| precipitation
| pressure_msl
| wind_speed_10m.

#[global] Instance Var_eq_dec : EqDecision Var.
Proof. solve_decision. Defined.

Definition all_columns : list Var :=
  [temperature_2m; relativehumidity_2m; shortwave_radiation; cloudcover;
   precipitation; pressure_msl; wind_speed_10m].

Record Row : Type := {
  time : Timestamp;
  r_temperature_2m : float;
  r_relativehumidity_2m : float;
  r_shortwave_radiation : float;
  r_cloudcover : float;
  r_precipitation : float;
  r_pressure_msl : float;
  r_wind_speed_10m : float;
}.

Definition DataFrame : Type := list Row.

Definition cell (v : Var) (r : Row) : float :=
  match v with
  | temperature_2m => r_temperature_2m r
  | relativehumidity_2m => r_relativehumidity_2m r
  | shortwave_radiation => r_shortwave_radiation r
  | cloudcover => r_cloudcover r
  | precipitation => r_precipitation r
  | pressure_msl => r_pressure_msl r
  | wind_speed_10m => r_wind_speed_10m r
  end.

Definition set_cell (v : Var) (x : float) (r : Row) : Row :=
  {| time := time r;
     r_temperature_2m := if decide (v = temperature_2m) then x else r_temperature_2m r;
     r_relativehumidity_2m :=
       if decide (v = relativehumidity_2m) then x else r_relativehumidity_2m r;
     r_shortwave_radiation :=
       if decide (v = shortwave_radiation) then x else r_shortwave_radiation r;
     r_cloudcover := if decide (v = cloudcover) then x else r_cloudcover r;
     r_precipitation := if decide (v = precipitation) then x else r_precipitation r;
     r_pressure_msl := if decide (v = pressure_msl) then x else r_pressure_msl r;
     r_wind_speed_10m := if decide (v = wind_speed_10m) then x else r_wind_speed_10m r |}.

(** [df["time"]] and [df[v]]. *)
Definition times (df : DataFrame) : list Timestamp := time <$> df.
Definition column (v : Var) (df : DataFrame) : list float := cell v <$> df.

(** [df[["time", v]]] *)
Definition select (v : Var) (df : DataFrame) : Ml.Series :=
  (λ r, (time r, cell v r)) <$> df.

(** [df[v] = vals]: pandas raises [ValueError] unless the lengths agree. *)
Definition assign_column (v : Var) (vals : list float) (df : DataFrame)
  : result DataFrame :=
  if decide (length vals = length df)
  then Ok (zip_with (set_cell v) vals df)
  else Raise (ValueError "Length of values does not match length of index").

(** ** services/weather.py *)

Module Weather.

(** One entry of the upstream ["time"] array: an ISO string, [null], or
    something [pd.to_datetime] rejects. *)
Inductive TimeCell : Type :=
| TimeStr (instant : Z)
| TimeNull
| TimeBad.

(** The ["hourly"] object: the time array (absent and empty are both
    falsy for [hourly.get("time")]) and the variables it carries. *)
Record Hourly : Type := {
  h_time : list TimeCell;
  h_column : Var → option (list float);
}.

(** A decoded JSON body. *)
Record Body : Type := {
  has_error : bool;
  has_reason : bool;
  hourly : option Hourly;
}.

(** What [requests.get] followed by [response.json()] can give. *)
Inductive Response : Type :=
| RequestFailed (e : exn)
| Http (status_code : Z) (body : option Body).

(** The query parameters of the two endpoints; dates are days since the
    epoch. *)
Record ArchiveParams : Type := {
  latitude : float;
  longitude : float;
  start_date : Z;
  end_date : Z;
  hourly_variables : string;
}.

Record ForecastParams : Type := {
  f_latitude : float;
  f_longitude : float;
  f_hourly_variables : string;
  forecast_days : Z;
}.

(** The upstream service and the clock. *)
Record Api : Type := {
  today : Z;
  archive_get : ArchiveParams → Response;
  forecast_get : ForecastParams → Response;
}.

Definition variable_sets : list string :=
  ["temperature_2m,relativehumidity_2m,shortwave_radiation,cloudcover,precipitation,pressure_msl,wind_speed_10m";
   "temperature_2m,relativehumidity_2m,shortwave_radiation,cloudcover,precipitation,pressure_msl";
   "temperature_2m,relativehumidity_2m,shortwave_radiation,cloudcover";
   "temperature_2m,relativehumidity_2m"].

(** [pd.to_datetime(hourly["time"], utc=True)]: [None] is NaT. *)
Definition to_datetime (cells : list TimeCell) : result (list (option Timestamp)) :=
  mapM (λ c, match c with
             | TimeStr i => Ok (Some {| ns := i; utc := true |})
             | TimeNull => Ok None
             | TimeBad => Raise (ValueError "Unknown datetime string format")
             end) cells.

(** The column of [v] in [df_dict]: the upstream list, or all-missing. *)
Definition df_column (h : Hourly) (v : Var) : list float :=
  match h_column h v with
  | Some xs => xs
  | None => replicate (length (h_time h)) nan
  end.

Definition make_row (h : Hourly) (i : nat) (t : Timestamp) : Row :=
  let at_i v := default nan (df_column h v !! i) in
  {| time := t;
     r_temperature_2m := at_i temperature_2m;
     r_relativehumidity_2m := at_i relativehumidity_2m;
     r_shortwave_radiation := at_i shortwave_radiation;
     r_cloudcover := at_i cloudcover;
     r_precipitation := at_i precipitation;
     r_pressure_msl := at_i pressure_msl;
     r_wind_speed_10m := at_i wind_speed_10m |}.

(** [pd.DataFrame(df_dict)] followed by [dropna(subset=["time"])]: rows of
    a NaT time are dropped; arrays of unequal length raise. *)
Definition build_frame (h : Hourly) : result DataFrame :=
  stamps ← to_datetime (h_time h);
  if forallb (λ v, bool_decide (length (df_column h v) = length stamps)) all_columns
  then Ok (omap (λ p, make_row h p.1 <$> p.2) (zip (seq 0 (length stamps)) stamps))
  else Raise (ValueError "All arrays must be of the same length").

(** [df.sort_values("time")]: ascending by time.  Rows of equal time keep
    the order they have in the frame, as pandas leaves them on short
    frames; its default sort promises no order between such rows, and
    no statement below relies on one. *)
Definition row_le (a b : Row) : Prop := time_le (time a) (time b).

#[global] Instance row_le_dec : RelDecision row_le.
Proof. intros a b. unfold row_le. apply _. Defined.

Fixpoint insert_row (r : Row) (sorted : DataFrame) : DataFrame :=
  match sorted with
  | [] => [r]
  | x :: rest =>
      if decide (row_le r x) then r :: x :: rest else x :: insert_row r rest
  end.

Definition sort_values (df : DataFrame) : DataFrame := foldr insert_row [] df.

(** The part of the loop body after the status check, shared by both
    fetchers: [None] is [continue]. *)
Definition process_body (body : option Body) : option DataFrame :=
  match body with
  | None => None
  | Some data =>
      if has_error data || has_reason data then None
      else
        match hourly data with
        | None => None
        | Some h =>
            match h_time h with
            | [] => None
            | _ =>
                match build_frame h with
                | Raise _ => None
                | Ok [] => None
                | Ok df => Some (sort_values df)
                end
            end
        end
  end.

(** The empty frame with the eight columns. *)
Definition empty_frame : DataFrame := [].

(** [date(2020, 1, 1)] *)
Definition min_date : Z := 18262.

(** [date.min] and [date.max], the first day of year 1 and the last of
    year 9999. *)
Definition date_min : Z := -719162.
Definition date_max : Z := 2932896.

(** [d - timedelta(days=n)]: [timedelta] takes at most 999999999 days in
    either direction, and the difference has to be a date; both failures
    are [OverflowError]. *)
Definition date_sub (d n : Z) : result Z :=
  if Z.abs n <=? 999999999
  then
    if (date_min <=? d - n) && (d - n <=? date_max)
    then Ok (d - n)
    else Raise (OtherError "date value out of range")
  else Raise (OtherError "days out of range for timedelta").

Section fetch.
Context (api : Api).

(** [fetch_historical], lines 14-144: the two date computations are
    outside the [try] of the loop, so their [OverflowError] leaves the
    function. *)
Definition fetch_historical (lat lon : float) (days : Z) : result DataFrame :=
  end_date ← date_sub (today api) 3;
  start_date ← date_sub end_date days;
  let start_date := if start_date <? min_date then min_date else start_date in
  let attempt variables :=
    match archive_get api {| latitude := lat; longitude := lon;
                             start_date := start_date; end_date := end_date;
                             hourly_variables := variables |} with
    | Http 200 body => process_body body
    | Http _ _ => None
    | RequestFailed _ => None
    end in
  Ok (default empty_frame (list_find is_Some (attempt <$> variable_sets) ≫= snd)).

(** [fetch_forecast], lines 147-238: [raise_for_status] raises for the
    status codes 400 to 599 and for no other. *)
Definition fetch_forecast (lat lon : float) (days : Z) : DataFrame :=
  let attempt variables :=
    match forecast_get api {| f_latitude := lat; f_longitude := lon;
                              f_hourly_variables := variables;
                              forecast_days := Z.min days 14 |} with
    | Http status body =>
        if (400 <=? status) && (status <? 600) then None else process_body body
    | RequestFailed _ => None
    end in
  default empty_frame (list_find is_Some (attempt <$> variable_sets) ≫= snd).
End fetch.

(** [extract_current_from_forecast], lines 241-271, at the instant [now]:
    the row nearest to [now] (the first such row), without its missing
    fields. *)
Definition time_diff (now : Z) (r : Row) : Z := Z.abs (ns (time r) - now).

Definition closest_row (now : Z) (df : DataFrame) : option Row :=
  foldl (λ best r,
           match best with
           | None => Some r
           | Some b => if time_diff now r <? time_diff now b then Some r else Some b
           end) None df.

Definition extract_current_from_forecast (now : Z) (forecast_df : DataFrame)
  : list (Var * float) :=
  match closest_row now forecast_df with
  | None => []
  | Some r => filter (λ kv, notna kv.2 = true) ((λ v, (v, cell v r)) <$> all_columns)
  end.

End Weather.

(** ** services/geocode.py *)

Module Geocode.

Record Location : Type := {
  name : string;
  country : option string;
  latitude : float;
  longitude : float;
  elevation : option float;
}.

(** The four provider wrappers, lines 15-199: each performs one HTTP
    request and returns a result dict or [None]. *)
Record Providers : Type := {
  _geocode_openmeteo : string → result (option Location);
  _geocode_nominatim : string → result (option Location);
  _geocode_geocodexyz : string → result (option Location);
  _geocode_google_maps : string → string → result (option Location);
}.

(** [_try_with_variations], lines 202-223. *)
Definition country_suffixes : list string :=
  [", India"; ", USA"; ", United States"; ", UK"; ", United Kingdom";
   ", Canada"; ", Australia"; ", Germany"; ", France"].

Definition _try_with_variations (location_name : string) : list string :=
  let location_clean := strip location_name in
  [strip location_name]
  ++ (if contains_comma location_clean
      then []
      else (λ suffix, location_clean ++ suffix)%string <$> country_suffixes).

Definition Geocoder : Type := string * (string → result (option Location)).

Definition newline : string := String (ascii_of_N 10) EmptyString.

Definition guidance : string :=
  ("Please try:" ++ newline
   ++ "- A more specific address (e.g., 'Pune, India' or 'Baner, Pune')" ++ newline
   ++ "- Including country name (e.g., 'Pune, India')" ++ newline
   ++ "- Checking spelling" ++ newline
   ++ "- Trying a nearby landmark or city")%string.

Definition error_msg (location_clean : string) : string :=
  ("Could not find location '" ++ location_clean
   ++ "' using any geocoding service." ++ newline ++ newline ++ guidance)%string.

(** The inner loop, lines 274-288: a provider that raises or returns
    [None] is passed over. *)
Fixpoint try_geocoders (geocoders : list Geocoder) (variation : string)
  : option Location :=
  match geocoders with
  | [] => None
  | (_, geocoder_func) :: rest =>
      match geocoder_func variation with
      | Ok (Some result) => Some result
      | _ => try_geocoders rest variation
      end
  end.

(** The outer loop, lines 271-288. *)
Fixpoint try_variations (geocoders : list Geocoder) (variations : list string)
  : option Location :=
  match variations with
  | [] => None
  | variation :: rest =>
      match try_geocoders geocoders variation with
      | Some result => Some result
      | None => try_variations geocoders rest
      end
  end.

Section geocode.
Context (P : Providers).

Definition geocoders (google_api_key : option string) : list Geocoder :=
  (match google_api_key with
   | Some key =>
       if str_truthy key
       then [("Google Maps", λ loc, _geocode_google_maps P loc key)]
       else []
   | None => []
   end)
  ++ [("Open-Meteo", _geocode_openmeteo P);
      ("Nominatim", _geocode_nominatim P);
      ("GeoCode.xyz", _geocode_geocodexyz P)].

(** [geocode_location], lines 226-300. *)
Definition geocode_location (location_name : string)
    (google_api_key : option string) : result Location :=
  let location_clean := strip location_name in
  if negb (str_truthy location_clean)
  then Raise (ValueError "Location name cannot be empty")
  else
    let variations := _try_with_variations location_clean in
    match try_variations (geocoders google_api_key) variations with
    | Some result => Ok result
    | None => Raise (ValueError (error_msg location_clean))
    end.
End geocode.

(** The attempts in the order the loops make them: all providers on the
    first text, then all providers on the second, and so on. *)
Definition attempts (geocoders : list Geocoder) (variations : list string)
  : list (Geocoder * string) :=
  variation ← variations; (λ g, (g, variation)) <$> geocoders.

(** The order the specification describes: for each provider in priority
    order, the original text and then its variants. *)
Definition spec_attempts (geocoders : list Geocoder) (variations : list string)
  : list (Geocoder * string) :=
  g ← geocoders; (λ variation, (g, variation)) <$> variations.

(** The first attempt of a list that yields a result. *)
Fixpoint first_result (l : list (Geocoder * string)) : option Location :=
  match l with
  | [] => None
  | ((_, geocoder_func), text) :: rest =>
      match geocoder_func text with
      | Ok (Some result) => Some result
      | _ => first_result rest
      end
  end.

End Geocode.

(** ** services/reverse_geocode.py *)

Module ReverseGeocode.

Record Place : Type := {
  name : string;
  display_name : string;
  country : option string;
  city : option string;
  latitude : float;
  longitude : float;
}.

(** The provider wrappers, lines 13-156. *)
Record Providers : Type := {
  reverse_geocode_nominatim : float → float → result (option Place);
  reverse_geocode_openmeteo : float → float → result (option Place);
  reverse_geocode_google_maps : float → float → string → result (option Place);
}.

Definition Geocoder : Type := string * (unit → result (option Place)).

(** The loop, lines 183-191. *)
Fixpoint try_geocoders (geocoders : list Geocoder) : option Place :=
  match geocoders with
  | [] => None
  | (_, geocoder_func) :: rest =>
      match geocoder_func () with
      | Ok (Some result) => Some result
      | _ => try_geocoders rest
      end
  end.

Definition coordinates_name (lat lon : float) : string :=
  (format_4f lat ++ ", " ++ format_4f lon)%string.

Section reverse.
Context (P : Providers).

Definition geocoders (lat lon : float) (google_api_key : option string)
  : list Geocoder :=
  (match google_api_key with
   | Some key =>
       if str_truthy key
       then [("Google Maps", λ _, reverse_geocode_google_maps P lat lon key)]
       else []
   | None => []
   end)
  ++ [("Nominatim", λ _, reverse_geocode_nominatim P lat lon)]
  ++ [("Open-Meteo", λ _, reverse_geocode_openmeteo P lat lon)].

(** [reverse_geocode], lines 159-201. *)
Definition reverse_geocode (lat lon : float) (google_api_key : option string)
  : result Place :=
  match try_geocoders (geocoders lat lon google_api_key) with
  | Some result => Ok result
  | None =>
      Ok {| name := coordinates_name lat lon;
            display_name := coordinates_name lat lon;
            country := None;
            city := None;
            latitude := lat;
            longitude := lon |}
  end.
End reverse.

End ReverseGeocode.

(** ** services/geocode_autocomplete.py *)

Module Autocomplete.

(** A suggestion dict.  [display_name] and [name] are [None] when the
    wrapper put a value there that is not a [str], a null of the upstream
    body for one: Nominatim's ["display_name"] and Google's
    ["description"] are copied from the upstream body as they are. *)
Record Suggestion : Type := {
  display_name : option string;
  name : option string;
  country : option string;
  latitude : option float;
  longitude : option float;
  source : option string;
}.

(** One upstream candidate as a provider wrapper treats it: skipped for
    want of coordinates, turned into a suggestion, or making the
    conversion raise. *)
Inductive Candidate : Type :=
| NoCoordinates
| Converts (s : Suggestion)
| Malformed.

(** The upstream searches; [None] is a failed request or a body the
    wrapper rejects. *)
Record Providers : Type := {
  openmeteo_search : string → Z → option (list Candidate);
  nominatim_search : string → Z → option (list Candidate);
  google_places : string → string → Z → option (list Candidate);
}.

(** The body shared by the three wrappers, lines 31-64, 88-112 and
    140-176: the candidates of [results[:limit]] in order; any exception
    gives the empty list. *)
Fixpoint convert (candidates : list Candidate) : option (list Suggestion) :=
  match candidates with
  | [] => Some []
  | NoCoordinates :: rest => convert rest
  | Converts s :: rest => cons s <$> convert rest
  | Malformed :: _ => None
  end.

Definition wrapper (limit : Z) (response : option (list Candidate))
  : list Suggestion :=
  match response with
  | None => []
  | Some results => default [] (convert (py_slice_to limit results))
  end.

(** [round(float(x), 3)] up to [==]: the number of thousandths for a
    finite float (both zeros are 0), the infinities, and NaN. *)
Inductive Rounded : Type :=
| Thousandths (n : Z)
| Infinite (negative : bool)
| NotANumber.

Definition round3 (x : float) : Rounded :=
  match Prim2SF x with
  | S754_nan => NotANumber
  | S754_infinity s => Infinite s
  | _ =>
      match exact_scaled x 3 with
      | Some (s, n) => Thousandths (if s then - n else n)
      | None => NotANumber
      end
  end.

(** Equality of two rounded floats as the set sees it: the NaN that
    [round] returns is a fresh object, equal to nothing. *)
Definition rounded_eqb (a b : Rounded) : bool :=
  match a, b with
  | Thousandths n, Thousandths m => n =? m
  | Infinite s, Infinite s' => Bool.eqb s s'
  | _, _ => false
  end.

Definition CoordKey : Type := Rounded * Rounded.

Definition key_eqb (a b : CoordKey) : bool :=
  rounded_eqb a.1 b.1 && rounded_eqb a.2 b.2.

(** [coord_key in seen_coords] *)
Definition key_in (k : CoordKey) (seen_coords : list CoordKey) : bool :=
  existsb (key_eqb k) seen_coords.

Definition coord_key (lat lon : float) : CoordKey := (round3 lat, round3 lon).

(** The deduplication loop, lines 215-233. *)
Fixpoint dedup_loop (limit : Z) (all_suggestions : list Suggestion)
    (unique_suggestions : list Suggestion) (seen_coords : list CoordKey)
  : list Suggestion :=
  match all_suggestions with
  | [] => unique_suggestions
  | suggestion :: rest =>
      match latitude suggestion, longitude suggestion with
      | Some lat, Some lon =>
          if key_in (coord_key lat lon) seen_coords
          then dedup_loop limit rest unique_suggestions seen_coords
          else
            let unique_suggestions := (unique_suggestions ++ [suggestion])%list in
            if limit <=? Z.of_nat (length unique_suggestions)
            then unique_suggestions
            else dedup_loop limit rest unique_suggestions
                   (coord_key lat lon :: seen_coords)
      | _, _ => dedup_loop limit rest unique_suggestions seen_coords
      end
  end.

Section autocomplete.
Context (P : Providers).

Definition autocomplete_openmeteo (query : string) (limit : Z) : list Suggestion :=
  wrapper limit (openmeteo_search P query limit).

Definition autocomplete_nominatim (query : string) (limit : Z) : list Suggestion :=
  wrapper limit (nominatim_search P query limit).

Definition autocomplete_google_maps (query : string) (api_key : option string)
    (limit : Z) : list Suggestion :=
  match api_key with
  | Some key =>
      if str_truthy key then wrapper limit (google_places P query key limit) else []
  | None => []
  end.

(** Lines 197-212: the candidates of all providers that are asked. *)
Definition collect (query_clean : string) (limit : Z)
    (google_api_key : option string) : list Suggestion :=
  let all_suggestions := autocomplete_openmeteo query_clean limit in
  let all_suggestions :=
    if Z.of_nat (length all_suggestions) <? limit
    then (all_suggestions ++ autocomplete_nominatim query_clean limit)%list
    else all_suggestions in
  if opt_str_truthy google_api_key && (Z.of_nat (length all_suggestions) <? limit)
  then (all_suggestions
        ++ autocomplete_google_maps query_clean google_api_key limit)%list
  else all_suggestions.

(** [get_autocomplete_suggestions], lines 179-235. *)
Definition get_autocomplete_suggestions (query : string) (limit : Z)
    (google_api_key : option string) : list Suggestion :=
  if negb (str_truthy query) || (String.length (strip query) <? 2)%nat
  then []
  else dedup_loop limit (collect (strip query) limit google_api_key) [] [].
End autocomplete.

End Autocomplete.

(** ** schemas.py *)

Module Schemas.

Record LocationRequest : Type := {
  location : option string;
  latitude : option float;
  longitude : option float;
  historical_days : Z;
  forecast_days : Z;
}.

Definition missing_msg : string :=
  "Either 'location' or 'latitude' and 'longitude' must be provided".

(** [LocationRequest.__init__], lines 15-19. *)
Definition validate (self : LocationRequest) : result LocationRequest :=
  if negb (opt_str_truthy (location self))
     && (negb (bool_decide (is_Some (latitude self)))
         || negb (bool_decide (is_Some (longitude self))))
  then Raise (ValueError missing_msg)
  else Ok self.

(** The rule as the specification words it: exactly one of the location
    text and the coordinate pair is present. *)
Definition spec_exactly_one (r : LocationRequest) : bool :=
  xorb (opt_str_truthy (location r))
       (bool_decide (is_Some (latitude r)) && bool_decide (is_Some (longitude r))).

(** [time] is the instant whose ISO rendering the point carries. *)
Record TimeSeriesPoint : Type := {
  time : Timestamp;
  temperature_2m : option float;
  shortwave_radiation : option float;
  wind_speed_10m : option float;
  relativehumidity_2m : option float;
  cloudcover : option float;
  precipitation : option float;
  pressure_msl : option float;
}.

Record LocationMetadata : Type := {
  resolved_name : string;
  country : option string;
  lm_latitude : float;
  lm_longitude : float;
  elevation : option float;
}.

Record DataResponse : Type := {
  response_location : LocationMetadata;
  current : list (Var * float);
  historical : list TimeSeriesPoint;
  api_forecast : list TimeSeriesPoint;
  ml_forecast : list TimeSeriesPoint;
  blended_forecast : list TimeSeriesPoint;
}.

End Schemas.

(** ** main.py *)

Module Main.

(** What [main.py] imports from [services] and reads from the process
    environment; any of the calls may raise. *)
Record Services : Type := {
  GOOGLE_MAPS_API_KEY : option string;
  geocode_location : string → option string → result Geocode.Location;
  reverse_geocode : float → float → option string → result ReverseGeocode.Place;
  fetch_historical : float → float → Z → result DataFrame;
  fetch_forecast : float → float → Z → result DataFrame;
  extract_current_from_forecast : DataFrame → result (list (Var * float));
  Model : Type;
  train_local_model : Ml.Series → nat → result (Model * nat);
  forecast_with_model : Model → Ml.Series → nat → nat → result (list float);
  blend_ml_and_api : Ml.Series → Ml.Series → float → result Ml.Series;
}.

Definition not_na (x : float) : option float := if notna x then Some x else None.

(** [dataframe_to_timeseries], lines 96-117. *)
Definition dataframe_to_timeseries (df : DataFrame) : list Schemas.TimeSeriesPoint :=
  (λ row,
     {| Schemas.time := time row;
        Schemas.temperature_2m := not_na (cell temperature_2m row);
        Schemas.relativehumidity_2m := not_na (cell relativehumidity_2m row);
        Schemas.shortwave_radiation := not_na (cell shortwave_radiation row);
        Schemas.cloudcover := not_na (cell cloudcover row);
        Schemas.precipitation := not_na (cell precipitation row);
        Schemas.pressure_msl := not_na (cell pressure_msl row);
        Schemas.wind_speed_10m := not_na (cell wind_speed_10m row) |}) <$> df.

(** [pd.DataFrame({"time": ..., target_column: predictions})] *)
Definition two_columns (stamps : list Timestamp) (predictions : list float)
  : result Ml.Series :=
  if decide (length stamps = length predictions)
  then Ok (zip stamps predictions)
  else Raise (ValueError "All arrays must be of the same length").

Definition target_variables : list Var :=
  [temperature_2m; shortwave_radiation; wind_speed_10m].

Definition alpha : float := 0.6%float.

Record GeoData : Type := {
  name : string;
  country : option string;
  latitude : float;
  longitude : float;
  elevation : option float;
}.

Section handler.
Context (S : Services).

(** [create_ml_forecast_df], lines 120-155. *)
Definition create_ml_forecast_df (historical_df forecast_df : DataFrame)
    (target_column : Var) : Ml.Series :=
  match historical_df, forecast_df with
  | [], _ | _, [] => []
  | _, _ =>
      let historical_series := Ml.dropna (select target_column historical_df) in
      if (length historical_series <? 48)%nat
      then select target_column forecast_df
      else
        let attempt :=
          '(model, lags) ← train_local_model S historical_series 24%nat;
          let steps := length forecast_df in
          predictions ← forecast_with_model S model historical_series steps lags;
          two_columns (naive <$> times forecast_df) predictions in
        match attempt with
        | Ok ml_forecast => ml_forecast
        | Raise _ => select target_column forecast_df
        end
  end.

(** Step 1, lines 165-203. *)
Definition resolve (request : Schemas.LocationRequest) : result GeoData :=
  match Schemas.latitude request, Schemas.longitude request with
  | Some lat, Some lon =>
      try_except
        (reverse_geo ← reverse_geocode S lat lon (GOOGLE_MAPS_API_KEY S);
         Ok {| name :=
                 if str_truthy (ReverseGeocode.display_name reverse_geo)
                 then ReverseGeocode.display_name reverse_geo
                 else ReverseGeocode.name reverse_geo;
               country := ReverseGeocode.country reverse_geo;
               latitude := lat;
               longitude := lon;
               elevation := None |})
        (λ _, Ok {| name := ReverseGeocode.coordinates_name lat lon;
                    country := None;
                    latitude := lat;
                    longitude := lon;
                    elevation := None |})
  | _, _ =>
      match Schemas.location request with
      | Some text =>
          if str_truthy text
          then
            geo_data ← geocode_location S text (GOOGLE_MAPS_API_KEY S);
            Ok {| name := Geocode.name geo_data;
                  country := Geocode.country geo_data;
                  latitude := Geocode.latitude geo_data;
                  longitude := Geocode.longitude geo_data;
                  elevation := Geocode.elevation geo_data |}
          else Raise (ValueError Schemas.missing_msg)
      | None => Raise (ValueError Schemas.missing_msg)
      end
  end.

(** Step 6, lines 241-257, for one variable. *)
Definition blend_step (forecast_df : DataFrame) (ml_forecasts : Var → Ml.Series)
    (blended_df : DataFrame) (var : Var) : DataFrame :=
  match ml_forecasts var with
  | [] => blended_df
  | ml_series =>
      let api_series := select var forecast_df in
      let attempt :=
        blended_series ← blend_ml_and_api S ml_series api_series alpha;
        assign_column var (Ml.values blended_series) blended_df in
      match attempt with
      | Ok df => df
      | Raise _ => blended_df
      end
  end.

(** Step 7, lines 260-263, for one variable. *)
Definition combine_step (ml_forecasts : Var → Ml.Series)
    (ml_forecast_combined : result DataFrame) (var : Var) : result DataFrame :=
  df ← ml_forecast_combined;
  match ml_forecasts var with
  | [] => Ok df
  | ml_forecast => assign_column var (Ml.values ml_forecast) df
  end.

(** The [try] block of [get_weather_data], lines 163-281. *)
Definition handler_body (request : Schemas.LocationRequest)
  : result Schemas.DataResponse :=
  geo_data ← resolve request;
  let lat := latitude geo_data in
  let lon := longitude geo_data in
  let historical_df :=
    match fetch_historical S lat lon (Schemas.historical_days request) with
    | Ok df => df
    | Raise _ => Weather.empty_frame
    end in
  forecast_df ← fetch_forecast S lat lon (Schemas.forecast_days request);
  match forecast_df with
  | [] => Raise (ValueError "Failed to fetch forecast data. Please try again later.")
  | _ =>
      current ← extract_current_from_forecast S forecast_df;
      let ml_forecasts := create_ml_forecast_df historical_df forecast_df in
      let blended_df :=
        foldl (blend_step forecast_df ml_forecasts) forecast_df target_variables in
      ml_forecast_combined ←
        foldl (combine_step ml_forecasts) (Ok forecast_df) target_variables;
      Ok {| Schemas.response_location :=
              {| Schemas.resolved_name := name geo_data;
                 Schemas.country := country geo_data;
                 Schemas.lm_latitude := lat;
                 Schemas.lm_longitude := lon;
                 Schemas.elevation := elevation geo_data |};
            Schemas.current := current;
            Schemas.historical := dataframe_to_timeseries historical_df;
            Schemas.api_forecast := dataframe_to_timeseries forecast_df;
            Schemas.ml_forecast := dataframe_to_timeseries ml_forecast_combined;
            Schemas.blended_forecast := dataframe_to_timeseries blended_df |}
  end.

(** [get_weather_data], lines 158-293: the handlers of the [try]. *)
Definition get_weather_data (request : Schemas.LocationRequest)
  : result Schemas.DataResponse :=
  match handler_body request with
  | Ok response => Ok response
  | Raise (ValueError error_msg) => Raise (HTTPException 400 error_msg)
  | Raise (HTTPException status_code detail) =>
      Raise (HTTPException status_code detail)
  | Raise (OtherError e) =>
      Raise (HTTPException 500 ("Internal server error: " ++ e))
  end.
End handler.

(** The endpoint as the framework runs it: the request object is
    constructed first, then handed to the handler.  The status the
    framework gives a failed construction is outside these sources. *)
Definition endpoint (S : Services) (payload : Schemas.LocationRequest)
  : result Schemas.DataResponse :=
  request ← Schemas.validate payload;
  get_weather_data S request.

(** The services as this repository implements them, over the outbound
    calls and the regression library. *)
Record Environment : Type := {
  api_key : option string;
  geocoders : Geocode.Providers;
  reverse_geocoders : ReverseGeocode.Providers;
  weather_api : Weather.Api;
  now : Z;
  sklearn : Ml.Sklearn;
  (** [forecast_with_ensemble], ml.py lines 193-273: the recursive
      multi-step forecast, kept abstract *)
  forecast_with_ensemble :
    Ml.Models sklearn → Ml.Series → nat → nat → result (list float);
}.

Definition implementation (E : Environment) : Services :=
  {| GOOGLE_MAPS_API_KEY := api_key E;
     geocode_location := Geocode.geocode_location (geocoders E);
     reverse_geocode := ReverseGeocode.reverse_geocode (reverse_geocoders E);
     fetch_historical := Weather.fetch_historical (weather_api E);
     fetch_forecast lat lon days :=
       Ok (Weather.fetch_forecast (weather_api E) lat lon days);
     extract_current_from_forecast df :=
       Ok (Weather.extract_current_from_forecast (now E) df);
     Model := Ml.Models (sklearn E);
     train_local_model := Ml.train_local_model (sklearn E);
     forecast_with_model := forecast_with_ensemble E;
     blend_ml_and_api := Ml.blend_ml_and_api |}.

End Main.

(** ** services/ml.py, continued: forecasting *)

Module Forecasting.
Import Ml.

(** [pd.Timedelta(hours=1)] in nanoseconds. *)
Definition hour_ns : Z := 3600000000000.

(** [t + pd.Timedelta(hours=1)] *)
Definition next_hour (t : Timestamp) : Timestamp :=
  {| ns := ns t + hour_ns; utc := utc t |}.

(** [xs.iloc[-k:]]: the last [k] entries; all of them when [k] is 0. *)
Definition iloc_tail {A} (k : nat) (xs : list A) : list A :=
  match k with
  | O => xs
  | _ => drop (length xs - k) xs
  end.

(** [window.loc[t] = v]: overwrites the entries labelled [t], or appends a
    new entry when the label is absent. *)
Definition set_loc (window : Series) (t : Timestamp) (v : float) : Series :=
  if bool_decide (t ∈ index window)
  then (λ p, if decide (p.1 = t) then (t, v) else p) <$> window
  else (window ++ [(t, v)])%list.

(** [model.predict(X_pred)[0]] on a one-row frame; it may raise. *)
Record Predictor (sk : Sklearn) : Type := {
  predict : Regressor sk → Features → result float;
}.
Arguments predict {sk} _ _ _.

(** The variables of the loop of [forecast_with_ensemble]. *)
Record LoopState : Type := {
  window : Series;
  predictions_rf : list float;
  predictions_gb : list float;
}.

Definition index_error : exn := OtherError "IndexError: index out of bounds".

(** [build_supervised_frame], lines 329-332. *)
Definition build_supervised_frame (series : Series) (lags : nat)
  : Features * list float :=
  create_simple_features series lags.

(** [pd.DataFrame([window[-lags:]], columns=[lag_1 .. lag_lags])] over the
    values of the window: pandas raises unless the row has [lags] entries. *)
Definition lag_row (lags : nat) (window_values : list float) : result Features :=
  let row := iloc_tail lags window_values in
  if decide (length row = lags)
  then Ok {| ncols := lags; rows := [row] |}
  else Raise (ValueError "columns passed do not match the data").

Section forecast.
Context {sk : Sklearn} (predictor : Predictor sk) (models : Models sk) (lags : nat).

(** Lines 225-240: the features of one step. *)
Definition step_features (w : Series) : result Features :=
  if (48 <? length w)%nat
  then
    '(X, _) ← create_advanced_features sk w (Nat.min lags (length w));
    match last (rows X) with
    | Some row => Ok {| ncols := ncols X; rows := [row] |}
    | None => lag_row lags (values w)
    end
  else lag_row lags (values w).

(** The [except] block, lines 257-264; [window.iloc[-1]] raises on an empty
    window. *)
Definition step_fallback (st : LoopState) : result LoopState :=
  match last (values (window st)), last (index (window st)) with
  | Some last_val, Some t =>
      Ok {| window := set_loc (window st) (next_hour t) last_val;
            predictions_rf := (predictions_rf st ++ [last_val])%list;
            predictions_gb := (predictions_gb st ++ [last_val])%list |}
  | _, _ => Raise index_error
  end.

(** One iteration, lines 222-264.  An exception leaves the lists as they
    are at the moment it is raised. *)
Definition forecast_step (st : LoopState) : result LoopState :=
  match step_features (window st) with
  | Raise _ => step_fallback st
  | Ok X_pred =>
      match predict predictor (rf models) X_pred with
      | Raise _ => step_fallback st
      | Ok pred_rf =>
          let st1 :=
            {| window := window st;
               predictions_rf := (predictions_rf st ++ [pred_rf])%list;
               predictions_gb := predictions_gb st |} in
          match (match gb models with
                 | Some gb_model => predict predictor gb_model X_pred
                 | None => Ok pred_rf
                 end) with
          | Raise _ => step_fallback st1
          | Ok pred_gb =>
              let st2 :=
                {| window := window st;
                   predictions_rf := predictions_rf st1;
                   predictions_gb := (predictions_gb st ++ [pred_gb])%list |} in
              match last (index (window st)) with
              | None => step_fallback st2
              | Some t =>
                  Ok {| window :=
                          set_loc (window st) (next_hour t)
                            (pred_rf * (weights models).1
                             + pred_gb * (weights models).2)%float;
                        predictions_rf := predictions_rf st2;
                        predictions_gb := predictions_gb st2 |}
              end
          end
      end
  end.

(** [for step in range(steps)] *)
Fixpoint forecast_loop (steps : nat) (st : LoopState) : result LoopState :=
  match steps with
  | O => Ok st
  | S n => st' ← forecast_step st; forecast_loop n st'
  end.

(** Lines 267-271: the weighted combination, entry by entry. *)
Definition final_predictions (steps : nat) (st : LoopState) : result (list float) :=
  mapM (λ i,
          match predictions_rf st !! i, predictions_gb st !! i with
          | Some r, Some g =>
              Ok (r * (weights models).1 + g * (weights models).2)%float
          | _, _ => Raise index_error
          end) (seq 0 steps).

(** [forecast_with_ensemble], lines 193-273. *)
Definition forecast_with_ensemble (series : Series) (steps : nat)
  : result (list float) :=
  let clean_series := dropna series in
  if (length clean_series <? lags)%nat
  then
    let last_value := default 0%float (last (values clean_series)) in
    Ok (replicate steps last_value)
  else
    st ← forecast_loop steps
           {| window := iloc_tail lags clean_series;
              predictions_rf := [];
              predictions_gb := [] |};
    final_predictions steps st.

End forecast.

(** The old model format of [forecast_with_model], lines 345-360: one
    regressor, no fallback. *)
Fixpoint legacy_loop (predict_one : Features → result float) (lags steps : nat)
    (window : list float) : result (list float) :=
  match steps with
  | O => Ok []
  | S n =>
      X ← lag_row lags window;
      pred ← predict_one X;
      rest ← legacy_loop predict_one lags n (window ++ [pred]);
      Ok (pred :: rest)
  end.

(** [forecast_with_model], lines 340-360: a dict goes to the ensemble, any
    other model through the old loop. *)
Definition forecast_with_model {sk : Sklearn} (predictor : Predictor sk)
    (model : Models sk + (Features → result float)) (series : Series)
    (steps lags : nat) : result (list float) :=
  match model with
  | inl models => forecast_with_ensemble predictor models lags series steps
  | inr predict_one =>
      let clean_series := dropna series in
      if (length clean_series <? lags)%nat
      then Ok (replicate steps (default 0%float (last (values clean_series))))
      else legacy_loop predict_one lags steps (iloc_tail lags (values clean_series))
  end.

End Forecasting.

(** ** main.py, continued: the autocomplete endpoint *)

Module Endpoints.

(** [AutocompleteSuggestion], schemas.py lines 22-28. *)
Record AutocompleteSuggestion : Type := {
  display_name : string;
  name : string;
  country : option string;
  latitude : float;
  longitude : float;
  source : option string;
}.

(** The construction of one response entry, main.py lines 79-86: the
    schema requires [display_name] and [name] to be of type [str] and both
    coordinates to be present. *)
Definition to_schema (s : Autocomplete.Suggestion) : result AutocompleteSuggestion :=
  match Autocomplete.display_name s, Autocomplete.name s,
        Autocomplete.latitude s, Autocomplete.longitude s with
  | Some display, Some short, Some lat, Some lon =>
      Ok {| display_name := display;
            name := short;
            country := Autocomplete.country s;
            latitude := lat;
            longitude := lon;
            source := Autocomplete.source s |}
  | _, _, _, _ => Raise (ValueError "validation error for AutocompleteSuggestion")
  end.

(** [autocomplete_location], main.py lines 62-93, over the suggestion
    service it calls. *)
Definition autocomplete_location
    (get_autocomplete_suggestions :
       string → Z → option string → result (list Autocomplete.Suggestion))
    (GOOGLE_MAPS_API_KEY : option string) (q : string)
  : list AutocompleteSuggestion :=
  if negb (str_truthy q) || (String.length (strip q) <? 2)%nat
  then []
  else
    match (suggestions_data ← get_autocomplete_suggestions (strip q) 8 GOOGLE_MAPS_API_KEY;
           mapM to_schema suggestions_data) with
    | Ok suggestions => suggestions
    | Raise _ => []
    end.

(** The services of [main.py] with [forecast_with_model] of
    [services/ml.py] in the place of the forecasting oracle; the model that
    [train_local_model] returns is always a dict. *)
Definition environment_with (E : Main.Environment)
    (predictor : Forecasting.Predictor (Main.sklearn E)) : Main.Environment :=
  {| Main.api_key := Main.api_key E;
     Main.geocoders := Main.geocoders E;
     Main.reverse_geocoders := Main.reverse_geocoders E;
     Main.weather_api := Main.weather_api E;
     Main.now := Main.now E;
     Main.sklearn := Main.sklearn E;
     Main.forecast_with_ensemble models series steps lags :=
       Forecasting.forecast_with_model predictor (inl models) series steps lags |}.

End Endpoints.

(** * Concrete inputs

    Canned oracles and sample data on which the definitions are run. *)

Module Sample.

Definition hour : Z := 3600000000000.

Definition stamp (i : nat) : Timestamp :=
  {| ns := 1700000000000000000 + Z.of_nat i * hour; utc := true |}.

(** [n] hourly readings of 20.0 *)
Definition constant_series (n : nat) : Ml.Series :=
  (λ i, (stamp i, 20%float)) <$> seq 0 n.

(** A regression library whose two training scores are given. *)
Definition sklearn_scoring (rf_score gb_score : float) : Ml.Sklearn :=
  {| Ml.Regressor := bool;
     Ml.rf_fit _ _ := Ok true;
     Ml.gb_fit _ _ := Ok false;
     Ml.rf_fallback_fit _ _ := Ok true;
     Ml.score m _ _ := if m then rf_score else gb_score;
     Ml.create_advanced_features _ _ := Raise (OtherError "not reached") |}.

End Sample.

Module GeocodeSample.

Definition springfield_usa : Geocode.Location :=
  {| Geocode.name := "Springfield, Illinois";
     Geocode.country := Some "United States";
     Geocode.latitude := 39.7817%float;
     Geocode.longitude := (-89.6501)%float;
     Geocode.elevation := None |}.

Definition springfield_first : Geocode.Location :=
  {| Geocode.name := "Springfield";
     Geocode.country := Some "Australia";
     Geocode.latitude := (-27.6536)%float;
     Geocode.longitude := 152.9178%float;
     Geocode.elevation := None |}.

(** Open-Meteo knows only "Springfield, USA", Nominatim only the bare
    "Springfield"; the other two providers find nothing. *)
Definition providers : Geocode.Providers :=
  {| Geocode._geocode_openmeteo text :=
       Ok (if String.eqb text "Springfield, USA" then Some springfield_usa else None);
     Geocode._geocode_nominatim text :=
       Ok (if String.eqb text "Springfield" then Some springfield_first else None);
     Geocode._geocode_geocodexyz _ := Ok None;
     Geocode._geocode_google_maps _ _ := Ok None |}.

(** An upstream body whose first result has latitude [1e999], which the
    JSON decoder reads as infinity. *)
Definition overflowing : Geocode.Providers :=
  {| Geocode._geocode_openmeteo text :=
       Ok (Some {| Geocode.name := text;
                   Geocode.country := None;
                   Geocode.latitude := infinity;
                   Geocode.longitude := 0%float;
                   Geocode.elevation := None |});
     Geocode._geocode_nominatim _ := Ok None;
     Geocode._geocode_geocodexyz _ := Ok None;
     Geocode._geocode_google_maps _ _ := Ok None |}.

(** No provider answers. *)
Definition offline : Geocode.Providers :=
  {| Geocode._geocode_openmeteo _ := Raise (OtherError "connection refused");
     Geocode._geocode_nominatim _ := Ok None;
     Geocode._geocode_geocodexyz _ := Ok None;
     Geocode._geocode_google_maps _ _ := Raise (OtherError "connection refused") |}.

End GeocodeSample.

Module ReverseSample.

(** The open ocean: Nominatim has no address, Open-Meteo is unreachable. *)
Definition nowhere : ReverseGeocode.Providers :=
  {| ReverseGeocode.reverse_geocode_nominatim _ _ := Ok None;
     ReverseGeocode.reverse_geocode_openmeteo _ _ :=
       Raise (OtherError "connection refused");
     ReverseGeocode.reverse_geocode_google_maps _ _ _ := Ok None |}.

Definition pune_place : ReverseGeocode.Place :=
  {| ReverseGeocode.name := "Pune, Maharashtra, India";
     ReverseGeocode.display_name := "Pune, Pune District, Maharashtra, India";
     ReverseGeocode.country := Some "India";
     ReverseGeocode.city := Some "Pune";
     ReverseGeocode.latitude := 18.5204%float;
     ReverseGeocode.longitude := 73.8567%float |}.

Definition nominatim_only : ReverseGeocode.Providers :=
  {| ReverseGeocode.reverse_geocode_nominatim _ _ := Ok (Some pune_place);
     ReverseGeocode.reverse_geocode_openmeteo _ _ := Ok None;
     ReverseGeocode.reverse_geocode_google_maps _ _ _ := Ok None |}.

End ReverseSample.

Module AutocompleteSample.

Definition suggestion (label source : string) (lat lon : float)
  : Autocomplete.Suggestion :=
  {| Autocomplete.display_name := Some label;
     Autocomplete.name := Some label;
     Autocomplete.country := Some "India";
     Autocomplete.latitude := Some lat;
     Autocomplete.longitude := Some lon;
     Autocomplete.source := Some source |}.

Definition pune := suggestion "Pune" "Open-Meteo" 18.5204 73.8567.
Definition pune_again := suggestion "Pune City" "Open-Meteo" 18.52041 73.85672.
Definition baner := suggestion "Baner" "Open-Meteo" 18.559 73.7868.
Definition pune_osm := suggestion "Pune, Maharashtra" "Nominatim" 18.5203 73.8567.
Definition punesar := suggestion "Punesar" "Nominatim" 26.1 72.9.

(** Open-Meteo answers with four candidates, one of them without
    coordinates; Nominatim with two. *)
Definition providers : Autocomplete.Providers :=
  {| Autocomplete.openmeteo_search _ _ :=
       Some [Autocomplete.Converts pune; Autocomplete.Converts pune_again;
             Autocomplete.NoCoordinates; Autocomplete.Converts baner];
     Autocomplete.nominatim_search _ _ :=
       Some [Autocomplete.Converts pune_osm; Autocomplete.Converts punesar];
     Autocomplete.google_places _ _ _ := None |}.

End AutocompleteSample.

Module MainSample.

(** A row that carries only a temperature. *)
Definition row (i : nat) (temperature : float) : Row :=
  {| time := Sample.stamp i;
     r_temperature_2m := temperature;
     r_relativehumidity_2m := nan;
     r_shortwave_radiation := nan;
     r_cloudcover := nan;
     r_precipitation := nan;
     r_pressure_msl := nan;
     r_wind_speed_10m := nan |}.

Definition hourly_of (hours : list nat) (temperatures : list float) : Weather.Hourly :=
  {| Weather.h_time := (λ i, Weather.TimeStr (ns (Sample.stamp i))) <$> hours;
     Weather.h_column v :=
       if decide (v = temperature_2m) then Some temperatures else None |}.

Definition body_of (h : Weather.Hourly) : option Weather.Body :=
  Some {| Weather.has_error := false;
          Weather.has_reason := false;
          Weather.hourly := Some h |}.

(** Three forecast hours in order, and a time array that repeats hour 1. *)
Definition regular : Weather.Hourly := hourly_of [0; 1; 2]%nat [20.5; 21.5; 22.5]%float.
Definition repeated_hour : Weather.Hourly :=
  hourly_of [1; 0; 1]%nat [21.5; 20.5; 22.5]%float.

(** The archive is unreachable; the forecast endpoint answers [forecast]. *)
Definition api (forecast : Weather.Response) : Weather.Api :=
  {| Weather.today := 20000;
     Weather.archive_get _ := Weather.RequestFailed (OtherError "timed out");
     Weather.forecast_get _ := forecast |}.

Definition environment (forecast : Weather.Response) : Main.Environment :=
  {| Main.api_key := None;
     Main.geocoders := GeocodeSample.providers;
     Main.reverse_geocoders := ReverseSample.nowhere;
     Main.weather_api := api forecast;
     Main.now := ns (Sample.stamp 1);
     Main.sklearn := Sample.sklearn_scoring 0.9 0.8;
     Main.forecast_with_ensemble _ _ steps _ := Ok (replicate steps 21%float) |}.

Definition answering (h : Weather.Hourly) : Main.Services :=
  Main.implementation (environment (Weather.Http 200 (body_of h))).

Definition forecast_down : Main.Services :=
  Main.implementation (environment (Weather.Http 503 None)).

Definition by_coordinates : Schemas.LocationRequest :=
  {| Schemas.location := None;
     Schemas.latitude := Some 18.5204%float;
     Schemas.longitude := Some 73.8567%float;
     Schemas.historical_days := 60;
     Schemas.forecast_days := 7 |}.

Definition both : Schemas.LocationRequest :=
  {| Schemas.location := Some "Springfield";
     Schemas.latitude := Some 18.5204%float;
     Schemas.longitude := Some 73.8567%float;
     Schemas.historical_days := 60;
     Schemas.forecast_days := 7 |}.

Definition neither : Schemas.LocationRequest :=
  {| Schemas.location := None;
     Schemas.latitude := Some 18.5204%float;
     Schemas.longitude := None;
     Schemas.historical_days := 60;
     Schemas.forecast_days := 7 |}.

End MainSample.

Module ForecastSample.

Definition sklearn : Ml.Sklearn := Sample.sklearn_scoring 0.5 0.5.

(** The two regressors of [Sample.sklearn_scoring] are [true] (random
    forest) and [false] (gradient boosting). *)
Definition models : Ml.Models sklearn :=
  Ml.Build_Models sklearn true (Some false) (0.5%float, 0.5%float).

(** Every prediction raises. *)
Definition failing : Forecasting.Predictor sklearn :=
  Forecasting.Build_Predictor sklearn
    (λ _ _, Raise (OtherError "feature names mismatch")).

(** The random forest predicts 30.0; the gradient boosting raises. *)
Definition half_failing : Forecasting.Predictor sklearn :=
  Forecasting.Build_Predictor sklearn
    (λ (m : bool) _,
       if m then Ok 30%float else Raise (OtherError "feature names mismatch")).

(** The random forest predicts [p], the gradient boosting [q]. *)
Definition steady (p q : float) : Forecasting.Predictor sklearn :=
  Forecasting.Build_Predictor sklearn (λ (m : bool) _, Ok (if m then p else q)).

(** A regressor of the old format: the most recent lag plus one. *)
Definition last_plus_one (X : Ml.Features) : result float :=
  Ok (default 0 (head (Ml.rows X) ≫= last) + 1)%float.

(** Two readings under one label. *)
Definition repeated_label : Ml.Series :=
  [(Sample.stamp 0, 1%float); (Sample.stamp 0, 2%float)].

End ForecastSample.

Module WeatherSample.

(** The forecast endpoint refuses every variable list but the shortest. *)
Definition degraded : Weather.Api :=
  {| Weather.today := 20000;
     Weather.archive_get _ := Weather.RequestFailed (OtherError "timed out");
     Weather.forecast_get params :=
       if String.eqb (Weather.f_hourly_variables params)
            "temperature_2m,relativehumidity_2m"
       then Weather.Http 200 (MainSample.body_of MainSample.regular)
       else Weather.Http 400 None |}.

(** The forecast endpoint is out of service. *)
Definition refused : Weather.Api :=
  {| Weather.today := 20000;
     Weather.archive_get _ := Weather.RequestFailed (OtherError "timed out");
     Weather.forecast_get _ := Weather.Http 503 None |}.

(** The archive answers a list of four variables, and answers the longer
    lists with a status that is not 200. *)
Definition archived : Weather.Api :=
  {| Weather.today := 20000;
     Weather.archive_get params :=
       if String.eqb (Weather.hourly_variables params)
            "temperature_2m,relativehumidity_2m,shortwave_radiation,cloudcover"
       then Weather.Http 200 (MainSample.body_of MainSample.regular)
       else Weather.Http 204 (MainSample.body_of MainSample.regular);
     Weather.forecast_get _ := Weather.Http 503 None |}.

End WeatherSample.

Module EndpointSample.

(** A suggestion service that hands back one entry without a latitude. *)
Definition half_located (_ : string) (_ : Z) (_ : option string)
  : result (list Autocomplete.Suggestion) :=
  Ok [AutocompleteSample.pune;
      {| Autocomplete.display_name := Some "Baner";
         Autocomplete.name := Some "Baner";
         Autocomplete.country := None;
         Autocomplete.latitude := None;
         Autocomplete.longitude := Some 73.7868%float;
         Autocomplete.source := None |}].

(** Nominatim hands back a candidate whose display name is null in the
    upstream body and whose address names a city. *)
Definition unnamed : Autocomplete.Providers :=
  {| Autocomplete.openmeteo_search _ _ := Some [Autocomplete.Converts AutocompleteSample.pune];
     Autocomplete.nominatim_search _ _ :=
       Some [Autocomplete.Converts
               {| Autocomplete.display_name := None;
                  Autocomplete.name := Some "Punesar";
                  Autocomplete.country := Some "India";
                  Autocomplete.latitude := Some 26.1%float;
                  Autocomplete.longitude := Some 72.9%float;
                  Autocomplete.source := Some "Nominatim" |}];
     Autocomplete.google_places _ _ _ := None |}.

(** Google answers; Nominatim would answer too. *)
Definition google_first : ReverseGeocode.Providers :=
  {| ReverseGeocode.reverse_geocode_nominatim _ _ := Ok None;
     ReverseGeocode.reverse_geocode_openmeteo _ _ := Ok (Some ReverseSample.pune_place);
     ReverseGeocode.reverse_geocode_google_maps _ _ _ :=
       Ok (Some ReverseSample.pune_place) |}.

(** The same free providers behind an unreachable Google Maps. *)
Definition google_down : ReverseGeocode.Providers :=
  {| ReverseGeocode.reverse_geocode_nominatim _ _ := Ok None;
     ReverseGeocode.reverse_geocode_openmeteo _ _ := Ok (Some ReverseSample.pune_place);
     ReverseGeocode.reverse_geocode_google_maps _ _ _ :=
       Raise (OtherError "connection refused") |}.

(** Forty-eight hours of history at 20.0 degrees. *)
Definition two_days : DataFrame := (λ i, MainSample.row i 20%float) <$> seq 0 48.

Definition three_hours : DataFrame :=
  [MainSample.row 48 20.5; MainSample.row 49 21.5; MainSample.row 50 22.5].

(** Regressors that predict [p] whatever the features. *)
Definition constant_predictor (sk : Ml.Sklearn) (p : float) : Forecasting.Predictor sk :=
  Forecasting.Build_Predictor sk (λ _ _, Ok p).

Definition regular_environment : Main.Environment :=
  MainSample.environment (Weather.Http 200 (MainSample.body_of MainSample.regular)).

End EndpointSample.

(** * Vocabulary of the statements

    Predicates and projections in which the facts below are stated. *)

(** ** Floats and strings *)

(** A value that is not above zero: a zero, a negative number, minus
    infinity or NaN. *)
Definition not_positive (x : spec_float) : Prop :=
  match x with
  | S754_zero _ | S754_nan => True
  | S754_finite s _ _ | S754_infinity s => s = true
  end.

(** Neither an infinity nor NaN. *)
Definition finite (x : float) : Prop :=
  match Prim2SF x with
  | S754_zero _ | S754_finite _ _ _ => True
  | S754_infinity _ | S754_nan => False
  end.

Definition is_digit (c : ascii) : Prop :=
  ∃ d, 0 ≤ d < 10 ∧ c = ascii_of_N (48 + Z.to_N d).

(** A decimal rendering with exactly four digits after the point. *)
Definition four_decimals (s : string) : Prop :=
  ∃ whole d1 d2 d3 d4,
    s = (whole ++ "." ++ String d1 (String d2 (String d3 (String d4 ""))))%string
    ∧ is_digit d1 ∧ is_digit d2 ∧ is_digit d3 ∧ is_digit d4.

(** [n] is, of the integers, a nearest to [|x| * 10^k], the even one when
    two are equally near, and [s] is the sign bit of [x]; [x] is
    [±m * 2^e]. *)
Definition rounds_to (x : float) (k : Z) (s : bool) (n : Z) : Prop :=
  match Prim2SF x with
  | S754_zero s' => s = s' ∧ n = 0
  | S754_finite s' m e =>
      s = s'
      ∧ if 0 <=? e
        then n = Z.pos m * 10 ^ k * 2 ^ e
        else Z.abs (2 * (Z.pos m * 10 ^ k) - 2 * n * 2 ^ (- e)) ≤ 2 ^ (- e)
             ∧ (Z.abs (2 * (Z.pos m * 10 ^ k) - 2 * n * 2 ^ (- e)) = 2 ^ (- e) →
                Z.even n = true)
  | S754_infinity _ | S754_nan => False
  end.

(** The digit a character denotes. *)
Definition digit_value (c : ascii) : option Z :=
  let n := Z.of_N (N_of_ascii c) in
  if (48 <=? n) && (n <=? 57) then Some (n - 48) else None.

(** The number a string of digits denotes, after the digits [acc]. *)
Fixpoint read_digits (acc : Z) (s : string) : option Z :=
  match s with
  | EmptyString => Some acc
  | String c rest =>
      match digit_value c with
      | Some d => read_digits (10 * acc + d) rest
      | None => None
      end
  end.

(** The text before and after the first point. *)
Fixpoint split_point (s : string) : option (string * string) :=
  match s with
  | EmptyString => None
  | String c rest =>
      if Ascii.eqb c "."
      then Some (EmptyString, rest)
      else
        match split_point rest with
        | Some (whole, fraction) => Some (String c whole, fraction)
        | None => None
        end
  end.

(** A leading minus sign, and the text after it. *)
Definition split_sign (s : string) : bool * string :=
  match s with
  | String "-" rest => (true, rest)
  | _ => (false, s)
  end.

(** The number a fixed-point rendering with four decimals denotes, in
    ten-thousandths and with its sign: ["-12.3456"] reads
    [(true, 123456)]. *)
Definition read_fixed4 (s : string) : option (bool * Z) :=
  let '(negative, body) := split_sign s in
  match split_point body with
  | Some (whole, fraction) =>
      if (String.length fraction =? 4)%nat
      then
        match read_digits 0 whole, read_digits 0 fraction with
        | Some w, Some f => Some (negative, w * 10000 + f)
        | _, _ => None
        end
      else None
  | None => None
  end.

(** Empty, or beginning with a character that is not white space. *)
Definition starts_clean (s : string) : Prop :=
  match s with
  | EmptyString => True
  | String c _ => isspace c = false
  end.

(** ** Geocoding *)

Section vocabulary_geocode.
Import Geocode.

(** An attempt that gives no result: the provider raised or returned
    [None]. *)
Definition failed (a : Geocoder * string) : Prop :=
  ∀ r, a.1.2 a.2 ≠ Ok (Some r).

(** A message carries the guidance when it ends with the "Please try:"
    block. *)
Definition has_guidance (msg : string) : Prop :=
  ∃ prefix, msg = (prefix ++ guidance)%string.

(** The first place found in a run of provider answers: an answer that
    is an exception or [None] is passed over. *)
Fixpoint first_found (answers : list (result (option Location))) : option Location :=
  match answers with
  | [] => None
  | Ok (Some place) :: _ => Some place
  | _ :: rest => first_found rest
  end.

End vocabulary_geocode.

(** ** Autocomplete *)

Section vocabulary_autocomplete.
Import Autocomplete.

(** The grid cell of a candidate that carries both coordinates. *)
Definition keyed (s : Suggestion) : option CoordKey :=
  match latitude s, longitude s with
  | Some lat, Some lon => Some (coord_key lat lon)
  | _, _ => None
  end.

(** [s] carries the key [k], as the set compares keys. *)
Definition in_cell (k : CoordKey) (s : Suggestion) : bool :=
  match keyed s with
  | Some k' => key_eqb k k'
  | None => false
  end.

(** Two candidates whose coordinates round to the same cell. *)
Definition same_cell (a b : Suggestion) : bool :=
  match keyed a with
  | Some k => in_cell k b
  | None => false
  end.

(** No element shares its cell with an earlier one. *)
Definition distinct_cells (l : list Suggestion) : Prop :=
  ∀ pre s post, l = (pre ++ s :: post)%list → Forall (λ a, same_cell s a = false) pre.

(** [seen] holds the keys of the suggestions kept so far. *)
Definition seen_of (unique : list Suggestion) (seen : list CoordKey) : Prop :=
  ∀ k, key_in k seen = existsb (in_cell k) unique.


End vocabulary_autocomplete.

(** ** Weather payloads *)

Section vocabulary_weather.
Import Weather.

Definition time_instant (c : TimeCell) : option Z :=
  match c with
  | TimeStr i => Some i
  | TimeNull | TimeBad => None
  end.

(** The instants of the upstream time array, nulls left out. *)
Definition instants (h : Hourly) : list Z := omap time_instant (h_time h).

(** The timestamp [pd.to_datetime(..., utc=True)] makes of an instant. *)
Definition aware (i : Z) : Timestamp := {| ns := i; utc := true |}.

(** No body the endpoint delivers repeats an instant in its time array. *)
Definition unique_payloads {Params} (get : Params → Response) : Prop :=
  ∀ params status_code data h,
    get params = Http status_code (Some data) → hourly data = Some h →
    NoDup (instants h).

End vocabulary_weather.

(** ** Requests and responses *)

(** The field of a response point that holds the variable [v]. *)
Definition point_field (v : Var) (p : Schemas.TimeSeriesPoint) : option float :=
  match v with
  | temperature_2m => Schemas.temperature_2m p
  | relativehumidity_2m => Schemas.relativehumidity_2m p
  | shortwave_radiation => Schemas.shortwave_radiation p
  | cloudcover => Schemas.cloudcover p
  | precipitation => Schemas.precipitation p
  | pressure_msl => Schemas.pressure_msl p
  | wind_speed_10m => Schemas.wind_speed_10m p
  end.

(** The timestamps of a response series, in order. *)
Definition stamps (series : list Schemas.TimeSeriesPoint) : list Timestamp :=
  Schemas.time <$> series.

(** The request has no usable location text and lacks a coordinate. *)
Definition neither (request : Schemas.LocationRequest) : Prop :=
  opt_str_truthy (Schemas.location request) = false
  ∧ (Schemas.latitude request = None ∨ Schemas.longitude request = None).

(** ** Weather payloads, continued *)

Section more_vocabulary_weather.
Import Weather.

(** What one response contributes to a fetcher: the frame of its body,
    when the status is one the fetcher accepts and the body passes the
    checks. *)
Definition answer (accepts : Z → bool) (r : Response) : option DataFrame :=
  match r with
  | Http status_code body => if accepts status_code then process_body body else None
  | RequestFailed _ => None
  end.

(** The value a payload holds for the variable [v] at position [i]: NaN
    when the payload lacks the variable. *)
Definition payload_value (h : Hourly) (v : Var) (i : nat) : float :=
  match h_column h v with
  | Some xs => default nan (xs !! i)
  | None => nan
  end.

(** [r] is a row of [df] nearest to [now], and the first such row. *)
Definition first_nearest (now : Z) (df : DataFrame) (r : Row) : Prop :=
  ∃ pre post,
    df = (pre ++ r :: post)%list
    ∧ Forall (λ x, time_diff now r < time_diff now x) pre
    ∧ Forall (λ x, time_diff now r ≤ time_diff now x) post.

End more_vocabulary_weather.

(** * Facts about services/ml.py *)

Section ml_facts.
Import Ml.

Section blend_facts.
Implicit Types (ml api res : Series) (t : Timestamp).

Lemma index_mismatch_false (a b : list Timestamp) :
  index_mismatch a b = false ↔ a = b.
Proof.
  unfold index_mismatch. revert b.
  induction a as [|x a IH]; intros [|y b]; simpl; try (split; [done|done]).
  rewrite orb_false_iff, !negb_false_iff in *.
  specialize (IH b). rewrite orb_false_iff, !negb_false_iff in IH.
  rewrite andb_true_iff, bool_decide_eq_true. simpl.
  rewrite Nat.eqb_eq in *. split.
  - intros (Hl & -> & Hf). f_equal. apply IH. split; [lia|done].
  - intros [= -> ->]. split; [done|]. split; [done|]. by apply IH.
Qed.

Lemma at_label_elem ml t : t ∈ index ml → (t, at_label ml t) ∈ ml.
Proof.
  unfold index, at_label. intros Hin.
  apply list_elem_of_fmap in Hin as ([t' m] & -> & Hin). simpl.
  destruct (list_find (λ p, p.1 = t') ml) as [[i p]|] eqn:Hf.
  - apply list_find_Some in Hf as (Hi & Hp & _). simpl in *.
    destruct p as [t'' m']. simpl in *. subst.
    by eapply list_elem_of_lookup_2.
  - apply list_find_None in Hf. rewrite Forall_forall in Hf.
    by destruct (Hf _ Hin).
Qed.

Lemma common_times_elem (a b : list Timestamp) t :
  t ∈ common_times a b ↔ t ∈ a ∧ t ∈ b.
Proof.
  unfold common_times. rewrite merge_sort_Permutation, elem_of_remove_dups.
  apply list_elem_of_intersection.
Qed.

Lemma reindex_values ml (target : list Timestamp) r :
  reindex ml target = Ok r → r = (λ t, (t, at_label ml t)) <$> target.
Proof. unfold reindex. case_decide; congruence. Qed.

Lemma zip_blend {A} (f : float → float → float) (g h : A → float)
    (k : A → Timestamp) (l : list A) :
  zip (k <$> l) (zip_with f (g <$> l) (h <$> l)) = (λ x, (k x, f (g x) (h x))) <$> l.
Proof. induction l as [|x l IH]; csimpl; [done|]. by rewrite IH. Qed.

(** The branch taken when the two indexes agree label by label. *)
Lemma blend_matched ml api alpha :
  index ml = index api →
  blend_ml_and_api ml api alpha
  = Ok (zip (index ml) (zip_with (blend_value alpha) (values ml) (values api))).
Proof.
  intros Heq. unfold blend_ml_and_api.
  apply index_mismatch_false in Heq. by rewrite Heq.
Qed.

(** The branch taken otherwise, on indexes without duplicate labels. *)
Lemma blend_aligned ml api alpha :
  index ml ≠ index api → NoDup (index ml) → NoDup (index api) →
  blend_ml_and_api ml api alpha
  = Ok ((λ t, (t, blend_value alpha (at_label ml t) (at_label api t)))
          <$> common_times (index ml) (index api)).
Proof.
  intros Hne Hml Hapi. unfold blend_ml_and_api.
  destruct (index_mismatch (index ml) (index api)) eqn:Hm.
  2: { by apply index_mismatch_false in Hm. }
  unfold reindex. rewrite !decide_True by done. simpl.
  f_equal. unfold values. rewrite <- !list_fmap_compose.
  rewrite <- (list_fmap_id (common_times _ _)) at 1.
  by rewrite zip_blend.
Qed.

Lemma blend_raises ml api alpha e :
  blend_ml_and_api ml api alpha = Raise e →
  index ml ≠ index api ∧ ¬ (NoDup (index ml) ∧ NoDup (index api)).
Proof.
  intros H. split.
  - intros Heq. by rewrite blend_matched in H.
  - intros [Hml Hapi]. destruct (decide (index ml = index api)) as [Heq|Hne].
    + by rewrite blend_matched in H.
    + by rewrite blend_aligned in H.
Qed.

Lemma elem_zip_matched ml api (f : float → float → float) t v :
  index ml = index api →
  (t, v) ∈ zip (index ml) (zip_with f (values ml) (values api)) →
  ∃ m a, (t, m) ∈ ml ∧ (t, a) ∈ api ∧ v = f m a.
Proof.
  unfold index, values. revert api.
  induction ml as [|[t1 m1] ml IH]; intros [|[t2 a2] api]; simpl; try done.
  - intros _ H. by apply elem_of_nil in H.
  - intros [= -> Heq] Hin. apply elem_of_cons in Hin as [[= -> ->]|Hin].
    + exists m1, a2. repeat split; apply elem_of_cons; by left.
    + destruct (IH api Heq Hin) as (m & a & ? & ? & ?).
      exists m, a. repeat split; [apply elem_of_cons; by right ..|done].
Qed.

Lemma index_zip_matched ml api (f : float → float → float) :
  index ml = index api →
  (zip (index ml) (zip_with f (values ml) (values api))).*1 = index ml.
Proof.
  intros Heq. apply fst_zip.
  rewrite length_zip_with. unfold index, values in *.
  apply (f_equal length) in Heq. rewrite !length_fmap in *. lia.
Qed.

Lemma blend_sound ml api alpha res t v :
  blend_ml_and_api ml api alpha = Ok res → (t, v) ∈ res →
  ∃ m a, (t, m) ∈ ml ∧ (t, a) ∈ api ∧ v = blend_value alpha m a.
Proof.
  intros Hres Hin. destruct (decide (index ml = index api)) as [Heq|Hne].
  - rewrite blend_matched in Hres by done. injection Hres as <-.
    by eapply elem_zip_matched.
  - unfold blend_ml_and_api in Hres.
    destruct (index_mismatch (index ml) (index api)) eqn:Hm.
    2: { by apply index_mismatch_false in Hm. }
    destruct (reindex ml _) as [r1|] eqn:H1; [|done].
    destruct (reindex api _) as [r2|] eqn:H2; [|done].
    apply reindex_values in H1, H2. simpl in Hres. injection Hres as <-.
    subst r1 r2. unfold values in Hin. rewrite <- !list_fmap_compose in Hin.
    rewrite <- (list_fmap_id (common_times _ _)) in Hin at 1.
    rewrite zip_blend in Hin.
    apply list_elem_of_fmap in Hin as (t' & [= -> ->] & Hin).
    apply common_times_elem in Hin as [Ha Hb].
    exists (at_label ml t'), (at_label api t').
    split; [by apply at_label_elem|]. split; [by apply at_label_elem|done].
Qed.

Lemma blend_complete ml api alpha res t :
  blend_ml_and_api ml api alpha = Ok res →
  t ∈ index ml → t ∈ index api → t ∈ index res.
Proof.
  intros Hres Ha Hb. destruct (decide (index ml = index api)) as [Heq|Hne].
  - rewrite blend_matched in Hres by done. injection Hres as <-.
    unfold index at 1. by rewrite index_zip_matched.
  - unfold blend_ml_and_api in Hres.
    destruct (index_mismatch (index ml) (index api)) eqn:Hm.
    2: { by apply index_mismatch_false in Hm. }
    destruct (reindex ml _) as [r1|] eqn:H1; [|done].
    destruct (reindex api _) as [r2|] eqn:H2; [|done].
    apply reindex_values in H1, H2. simpl in Hres. injection Hres as <-.
    subst r1 r2. unfold values. rewrite <- !list_fmap_compose.
    rewrite <- (list_fmap_id (common_times _ _)) at 1.
    rewrite zip_blend. unfold index at 1. rewrite <- list_fmap_compose.
    simpl. apply list_elem_of_fmap. exists t. split; [done|].
    by apply common_times_elem.
Qed.

Lemma label_unique ml t m m' :
  NoDup (index ml) → (t, m) ∈ ml → (t, m') ∈ ml → m = m'.
Proof.
  unfold index. induction ml as [|[t1 m1] ml IH]; simpl.
  - intros _ H. by apply elem_of_nil in H.
  - intros Hnd H1 H2. apply NoDup_cons in Hnd as [Hnot Hnd].
    assert (∀ x, (t, x) ∈ ml → t ∈ ml.*1) as Hidx.
    { intros x Hx. apply list_elem_of_fmap. by exists (t, x). }
    apply elem_of_cons in H1 as [H1|H1]; apply elem_of_cons in H2 as [H2|H2].
    + congruence.
    + injection H1 as -> ->. destruct Hnot. eauto.
    + injection H2 as -> ->. destruct Hnot. eauto.
    + eauto.
Qed.

Lemma blend_same (s : Series) alpha :
  blend_ml_and_api s s alpha = Ok ((λ p, (p.1, blend_value alpha p.2 p.2)) <$> s).
Proof.
  rewrite blend_matched by done. f_equal. unfold index, values.
  apply zip_blend.
Qed.
End blend_facts.

Section float_facts.
Lemma not_positive_ltb x : not_positive x → SFltb (S754_zero false) x = false.
Proof. destruct x as [s|s| |s m e]; simpl; intros H; subst; done. Qed.

Lemma leb_zero_not_positive x : SFleb x (S754_zero false) = true → not_positive x.
Proof. destruct x as [s|[]| |[] m e]; simpl; done. Qed.

Lemma binary_round_aux_sign sx mx ex lx :
  match binary_round_aux prec emax sx mx ex lx with
  | S754_zero s | S754_finite s _ _ | S754_infinity s => s = sx
  | S754_nan => True
  end.
Proof.
  unfold binary_round_aux.
  destruct (shr_fexp _ _ _ _ _) as [mrs' e'].
  destruct (shr_fexp _ _ _ _ _) as [mrs'' e''].
  destruct (shr_m mrs''); [done| |done].
  by destruct (Z.leb _ _).
Qed.

Lemma binary_round_sign sx mx ex :
  match binary_round prec emax sx mx ex with
  | S754_zero s | S754_finite s _ _ | S754_infinity s => s = sx
  | S754_nan => True
  end.
Proof.
  unfold binary_round. destruct (shl_align _ _ _) as [mz ez].
  apply binary_round_aux_sign.
Qed.

Lemma SFadd_not_positive x y :
  not_positive x → not_positive y → x ≠ S754_nan → y ≠ S754_nan →
  not_positive (SFadd prec emax x y).
Proof.
  destruct x as [sx|sx| |sx mx ex], y as [sy|sy| |sy my ey]; simpl;
    try done; intros Hx Hy _ _; subst; try done.
  - by destruct sx, sy.
  - simpl. set (a := (shl_align mx ex _).1). set (b := (shl_align my ey _).1).
    simpl. pose proof (binary_round_sign true (a + b) (Z.min ex ey)) as H.
    destruct (binary_round _ _ _ _ _); simpl; done.
Qed.

(** Two scores that are both at most zero never have a positive sum. *)
Lemma nonpositive_sum (rf_score gb_score : float) :
  PrimFloat.leb rf_score 0 = true → PrimFloat.leb gb_score 0 = true →
  PrimFloat.ltb 0 (rf_score + gb_score) = false.
Proof.
  rewrite !leb_spec, ltb_spec, add_spec.
  change (Prim2SF 0) with (S754_zero false).
  intros Hrf Hgb. apply not_positive_ltb. apply SFadd_not_positive.
  - by apply leb_zero_not_positive.
  - by apply leb_zero_not_positive.
  - intros E. by rewrite E in Hrf.
  - intros E. by rewrite E in Hgb.
Qed.
End float_facts.

Lemma weights_sum_positive (rf_score gb_score : float) :
  PrimFloat.ltb 0 (rf_score + gb_score) = true →
  ensemble_weights rf_score gb_score
  = ((rf_score / (rf_score + gb_score))%float, (gb_score / (rf_score + gb_score))%float).
Proof. unfold ensemble_weights. simpl. by intros ->. Qed.

Lemma weights_sum_not_positive (rf_score gb_score : float) :
  PrimFloat.ltb 0 (rf_score + gb_score) = false →
  ensemble_weights rf_score gb_score = (0.5%float, 0.5%float).
Proof. unfold ensemble_weights. simpl. by intros ->. Qed.

Lemma exact_blend_same (x : Qc) : blend_value (F:=Qc) lit_0_6 x x = x.
Proof. unfold blend_value. simpl. ring. Qed.


Section train_facts.
Context (sk : Sklearn).

Lemma fit_ensemble_weights X y (models : Models sk) :
  fit_ensemble sk X y = Ok models →
  ∃ gb_model,
    gb models = Some gb_model
    ∧ rf_fit sk X y = Ok (rf models)
    ∧ gb_fit sk X y = Ok gb_model
    ∧ weights models
      = ensemble_weights (score sk (rf models) X y) (score sk gb_model X y).
Proof.
  unfold fit_ensemble. destruct (_ <? _)%nat; [done|].
  destruct (rf_fit sk X y) as [r|] eqn:Hrf; [|done].
  destruct (gb_fit sk X y) as [g|] eqn:Hgb; [|done].
  simpl. intros [= <-]. by exists g.
Qed.

(** The shape of whatever [train_ensemble_model] returns. *)
Lemma train_ensemble_cases series lags (models : Models sk) lags' :
  train_ensemble_model sk series lags = Ok (models, lags') →
  (gb models = None ∧ weights models = (1%float, 0%float))
  ∨ (∃ X y gb_model,
       gb models = Some gb_model
       ∧ rf_fit sk X y = Ok (rf models)
       ∧ gb_fit sk X y = Ok gb_model
       ∧ weights models
         = ensemble_weights (score sk (rf models) X y) (score sk gb_model X y)).
Proof.
  unfold train_ensemble_model.
  destruct (train_ensemble_try sk series lags) as [l [m|e]] eqn:Htry.
  - intros [= <- <-]. right. unfold train_ensemble_try in Htry.
    destruct (_ <? _)%nat.
    + destruct (create_advanced_features sk series lags) as [[X y]|]; [|done].
      injection Htry as <- Hfit. exists X, y. by apply fit_ensemble_weights.
    + destruct (create_simple_features series lags) as [X y].
      injection Htry as <- Hfit. exists X, y. by apply fit_ensemble_weights.
  - destruct (create_simple_features series l) as [X y].
    destruct (rf_fallback_fit sk X y) as [model|]; [|done].
    simpl. intros [= <- <-]. by left.
Qed.

End train_facts.

(** ** The simple lag features *)

Lemma omap_lookup_seq {A} (l : list A) a m :
  (a + m ≤ length l)%nat → omap (λ i, l !! i) (seq a m) = take m (drop a l).
Proof.
  revert a. induction m as [|m IH]; intros a Hle; [by rewrite take_0|].
  destruct (lookup_lt_is_Some_2 l a) as [x Hx]; [lia|].
  cbn. rewrite Hx. cbn. rewrite IH by lia.
  by rewrite (drop_S _ _ _ Hx).
Qed.

Lemma simple_lags_idemp n lags : simple_lags n (simple_lags n lags) = simple_lags n lags.
Proof.
  unfold simple_lags. destruct (n <? lags + 1)%nat eqn:H1; [|by rewrite H1].
  by destruct (n <? Nat.max 1 (n / 2) + 1)%nat.
Qed.

Lemma simple_lags_enough n lags : (lags + 1 ≤ n)%nat → simple_lags n lags = lags.
Proof.
  intros H. unfold simple_lags.
  destruct (Nat.ltb_spec n (lags + 1)); [lia|done].
Qed.

Lemma simple_lags_below n lags : (2 ≤ n)%nat → (simple_lags n lags < n)%nat.
Proof.
  intros H. unfold simple_lags.
  destruct (Nat.ltb_spec n (lags + 1)); [|lia].
  pose proof (Nat.div_lt n 2). lia.
Qed.

Lemma create_simple_features_eq series lags :
  let clean := values (dropna series) in
  let k := simple_lags (length clean) lags in
  create_simple_features series lags
  = ({| ncols := k;
        rows := (λ i, take k (drop i clean)) <$> seq 0 (length clean - k) |},
     drop k clean).
Proof.
  intros clean k. unfold create_simple_features. fold clean. fold k. f_equal.
  - f_equal.
    replace (seq k (length clean - k))
      with (Nat.add k <$> seq 0 (length clean - k))
      by (rewrite fmap_add_seq; f_equal; lia).
    rewrite <- list_fmap_compose. apply list_fmap_ext. intros _ i _. simpl.
    by replace (k + i - k)%nat with i by lia.
  - destruct (le_lt_dec k (length clean)).
    + rewrite omap_lookup_seq by lia. apply take_ge. rewrite length_drop. lia.
    + replace (length clean - k)%nat with 0%nat by lia. simpl.
      symmetry. apply drop_ge. lia.
Qed.

Lemma dropna_clean series : Forall (λ x, notna x = true) (values (dropna series)).
Proof.
  unfold values, dropna. apply Forall_fmap, Forall_forall. intros p Hp.
  by apply list_elem_of_filter in Hp as [? _].
Qed.

(** The [except] branch of [train_ensemble_model] builds the features the
    [try] block would have built from the requested lag count. *)
Lemma fallback_features sk series lags :
  create_simple_features series (train_ensemble_try sk series lags).1
  = create_simple_features series lags.
Proof.
  unfold train_ensemble_try. destruct (100 <? length (dropna series))%nat.
  - by destruct (create_advanced_features sk series lags) as [[X y]|e].
  - rewrite (create_simple_features_eq series lags). cbn [fst snd ncols].
    rewrite !create_simple_features_eq. by rewrite simple_lags_idemp.
Qed.

Lemma train_ensemble_fallback sk series lags :
  (∃ models, train_ensemble_model sk series lags
             = Ok (models, (train_ensemble_try sk series lags).1))
  ∨ train_ensemble_model sk series lags
    = (model ← rf_fallback_fit sk (create_simple_features series lags).1
                 (create_simple_features series lags).2;
       Ok ({| rf := model; gb := None; weights := (1%float, 0%float) |},
           ncols (create_simple_features series lags).1)).
Proof.
  unfold train_ensemble_model. rewrite <- (fallback_features sk series lags).
  destruct (train_ensemble_try sk series lags) as [l [m|e]]; [left; by eexists|].
  right. cbn [fst]. by destruct (create_simple_features series l) as [X y].
Qed.

(** ** Blending (C1) *)

(** The second blending coefficient, [1 - 0.6], is the float 0.4. *)
Lemma one_minus_alpha : (1 - Main.alpha)%float = 0.4%float.
Proof. reflexivity. Qed.

Lemma blend_value_alpha (m a : float) :
  blend_value Main.alpha m a = (0.6 * m + 0.4 * a)%float.
Proof. reflexivity. Qed.

(** C1, as stated, fails: blending the one-point series 0.9 with itself
    gives 0.9000000000000001, since each product and the sum are rounded. *)
Lemma blend_identical_not_same :
  let s := [(Sample.stamp 0, 0.9%float)] in
  blend_ml_and_api s s Main.alpha ≠ Ok s.
Proof.
  intros s H.
  apply (f_equal (λ r, match r with
                       | Ok [(_, x)] => PrimFloat.eqb x 0.9
                       | _ => true
                       end)) in H.
  vm_compute in H. done.
Qed.

(** C1 (amended): [blend_ml_and_api] with alpha = 0.6 returns whenever the
    two indexes agree label by label or neither has duplicate labels; every
    value it returns is 0.6 times a model value plus 0.4 times an API value
    of the same timestamp; every common timestamp is in the result; on
    indexes without duplicates the value at each common timestamp is
    0.6·model + 0.4·api.  On identical series the result has the same
    timestamps and the value 0.6·x + 0.4·x for each x, which is x in exact
    arithmetic (in binary64 it is x only up to rounding). *)
Theorem blend_identity (ml api : Series) :
  ((index ml = index api ∨ NoDup (index ml) ∧ NoDup (index api)) →
   ∃ res, blend_ml_and_api ml api Main.alpha = Ok res)
  ∧ (∀ res, blend_ml_and_api ml api Main.alpha = Ok res →
       (∀ t v, (t, v) ∈ res →
          ∃ m a, (t, m) ∈ ml ∧ (t, a) ∈ api ∧ v = (0.6 * m + 0.4 * a)%float)
       ∧ (∀ t, t ∈ index ml → t ∈ index api → t ∈ index res)
       ∧ (NoDup (index ml) → NoDup (index api) →
          ∀ t m a, (t, m) ∈ ml → (t, a) ∈ api →
                   (t, (0.6 * m + 0.4 * a)%float) ∈ res))
  ∧ blend_ml_and_api ml ml Main.alpha
    = Ok ((λ p, (p.1, (0.6 * p.2 + 0.4 * p.2)%float)) <$> ml)
  ∧ (∀ x : Qc, blend_value lit_0_6 x x = x).
Proof.
  split; [|split; [|split]].
  - intros [Heq|[Hml Hapi]].
    + rewrite blend_matched by done. by eexists.
    + destruct (decide (index ml = index api)) as [Heq|Hne].
      * rewrite blend_matched by done. by eexists.
      * rewrite blend_aligned by done. by eexists.
  - intros res Hres.
    assert (∀ t v, (t, v) ∈ res →
              ∃ m a, (t, m) ∈ ml ∧ (t, a) ∈ api ∧ v = (0.6 * m + 0.4 * a)%float)
      as Hsound.
    { intros t v Hin. destruct (blend_sound _ _ _ _ _ _ Hres Hin) as (m & a & ? & ? & ->).
      by exists m, a. }
    split; [done|]. split; [exact (λ t, blend_complete _ _ _ _ t Hres)|].
    intros Hml Hapi t m a Hm Ha.
    assert (t ∈ index res) as Hin.
    { eapply blend_complete; [done| |]; apply list_elem_of_fmap.
      - by exists (t, m).
      - by exists (t, a). }
    apply list_elem_of_fmap in Hin as ([t' v] & -> & Hin). simpl in *.
    destruct (Hsound _ _ Hin) as (m' & a' & Hm' & Ha' & ->).
    by rewrite (label_unique _ _ _ _ Hml Hm Hm'), (label_unique _ _ _ _ Hapi Ha Ha').
  - apply blend_same.
  - apply exact_blend_same.
Qed.

Lemma blend_identity_witness :
  let ml := [(Sample.stamp 1, 1%float); (Sample.stamp 0, 2%float)] in
  let api := [(Sample.stamp 0, 4%float); (Sample.stamp 2, 3%float);
              (Sample.stamp 1, 10%float)] in
  ∃ res, blend_ml_and_api ml api Main.alpha = Ok res
         ∧ (Sample.stamp 0, (0.6 * 2 + 0.4 * 4)%float) ∈ res.
Proof.
  intros ml api.
  destruct (blend_identity ml api) as (Hret & Hval & _).
  assert (NoDup (index ml)) as Hml by (apply (bool_decide_unpack _); vm_compute; exact I).
  assert (NoDup (index api)) as Hapi by (apply (bool_decide_unpack _); vm_compute; exact I).
  destruct (Hret (or_intror (conj Hml Hapi))) as [res Hres].
  exists res. split; [exact Hres|].
  destruct (Hval res Hres) as (_ & _ & Hat).
  apply (Hat Hml Hapi).
  - apply list_elem_of_further, list_elem_of_here.
  - apply list_elem_of_here.
Defined.

(** ** Ensemble weights (C3, C10) *)

(** C3, as stated, fails: with training scores 0.2 and -0.5 the run
    succeeds and weights the models equally, though not both scores are
    non-positive and the normalized scores are -2/3 and 5/3. *)
Lemma weights_not_normalized :
  let sk := Sample.sklearn_scoring 0.2 (-0.5) in
  ∃ models,
    train_ensemble_model sk (Sample.constant_series 48) 24 = Ok (models, 24%nat)
    ∧ gb models = Some false
    ∧ weights models = (0.5%float, 0.5%float)
    ∧ weights models ≠ spec_weights 0.2 (-0.5).
Proof.
  intros sk. eexists. split; [vm_compute; reflexivity|].
  split; [reflexivity|]. split; [reflexivity|].
  simpl. intros H. apply (f_equal (λ w, PrimFloat.eqb w.1 0.5)) in H.
  vm_compute in H. done.
Qed.

(** C3 (amended): after a successful ensemble run each model's weight is
    its training score divided by the sum of the two scores whenever that
    sum is positive; otherwise, and in particular whenever both scores are
    non-positive, the two models are weighted 0.5 each. *)
Theorem ensemble_weighting (sk : Sklearn) (series : Series) (lags lags' : nat)
    (models : Models sk) (gb_model : Regressor sk) :
  train_ensemble_model sk series lags = Ok (models, lags') →
  gb models = Some gb_model →
  ∃ X y,
    rf_fit sk X y = Ok (rf models) ∧ gb_fit sk X y = Ok gb_model
    ∧ let rf_score := score sk (rf models) X y in
      let gb_score := score sk gb_model X y in
      let total_score := (rf_score + gb_score)%float in
      (PrimFloat.ltb 0 total_score = true →
       weights models = ((rf_score / total_score)%float, (gb_score / total_score)%float))
      ∧ (PrimFloat.ltb 0 total_score = false →
         weights models = (0.5%float, 0.5%float))
      ∧ (PrimFloat.leb rf_score 0 = true → PrimFloat.leb gb_score 0 = true →
         weights models = (0.5%float, 0.5%float)).
Proof.
  intros Htrain Hgb.
  destruct (train_ensemble_cases _ _ _ _ _ Htrain) as [[Hnone _]|(X & y & g & Hg & Hrf & Hgbf & Hw)].
  { congruence. }
  assert (g = gb_model) as -> by congruence.
  exists X, y. split; [done|]. split; [done|]. simpl. rewrite Hw.
  split; [apply weights_sum_positive|]. split; [apply weights_sum_not_positive|].
  intros Hr Hg'. apply weights_sum_not_positive. by apply nonpositive_sum.
Qed.

Lemma ensemble_weighting_witness :
  let sk := Sample.sklearn_scoring 0.9 0.8 in
  let models : Models sk :=
    Build_Models sk true (Some false)
      ((0.9 / (0.9 + 0.8))%float, (0.8 / (0.9 + 0.8))%float) in
  ∃ X y,
    rf_fit sk X y = Ok (rf models) ∧ gb_fit sk X y = Ok false
    ∧ let rf_score := score sk (rf models) X y in
      let gb_score := score sk false X y in
      let total_score := (rf_score + gb_score)%float in
      (PrimFloat.ltb 0 total_score = true →
       weights models = ((rf_score / total_score)%float, (gb_score / total_score)%float))
      ∧ (PrimFloat.ltb 0 total_score = false →
         weights models = (0.5%float, 0.5%float))
      ∧ (PrimFloat.leb rf_score 0 = true → PrimFloat.leb gb_score 0 = true →
         weights models = (0.5%float, 0.5%float)).
Proof.
  intros sk models.
  apply (ensemble_weighting sk (Sample.constant_series 48) 24 24 models false).
  - vm_compute. reflexivity.
  - reflexivity.
Defined.





End ml_facts.

(** * Facts about services/geocode.py *)

Section strip_facts.

Lemma lstrip_starts_clean s : starts_clean (lstrip s).
Proof.
  induction s as [|c s IH]; simpl; [done|].
  destruct (isspace c) eqn:Hc; [done|]. simpl. done.
Qed.

Lemma lstrip_clean s : starts_clean s → lstrip s = s.
Proof. destruct s as [|c s]; simpl; [done|]. by intros ->. Qed.

Lemma rstrip_starts_clean s : starts_clean s → starts_clean (rstrip s).
Proof.
  destruct s as [|c s]; simpl; [done|]. intros Hc.
  destruct (rstrip s); simpl; by rewrite ?Hc.
Qed.

Lemma rstrip_idemp s : rstrip (rstrip s) = rstrip s.
Proof.
  induction s as [|c s IH]; simpl; [done|].
  destruct (rstrip s) as [|c' r] eqn:Hr.
  - destruct (isspace c) eqn:Hc; simpl; [done|]. by rewrite Hc.
  - simpl in *. by rewrite IH.
Qed.

Lemma strip_idemp s : strip (strip s) = strip s.
Proof.
  unfold strip. rewrite (lstrip_clean (rstrip (lstrip s))).
  - apply rstrip_idemp.
  - apply rstrip_starts_clean, lstrip_starts_clean.
Qed.

Lemma str_truthy_false s : str_truthy s = false ↔ s = "".
Proof. by destruct s. Qed.

End strip_facts.

Section geocode_facts.
Import Geocode.

Lemma first_result_app l1 l2 :
  first_result (l1 ++ l2)%list
  = match first_result l1 with
    | Some r => Some r
    | None => first_result l2
    end.
Proof.
  induction l1 as [|[[n f] text] l1 IH]; simpl; [done|].
  destruct (f text) as [[r|]|]; done.
Qed.

Lemma first_result_geocoders gs variation :
  first_result ((λ g, (g, variation)) <$> gs) = try_geocoders gs variation.
Proof.
  induction gs as [|[n f] gs IH]; csimpl; [done|].
  destruct (f variation) as [[r|]|]; done.
Qed.

(** The nested loops return the first result in the order of [attempts]. *)
Lemma try_variations_first gs vs :
  try_variations gs vs = first_result (attempts gs vs).
Proof.
  unfold attempts. induction vs as [|v vs IH]; csimpl; [done|].
  rewrite first_result_app, first_result_geocoders, IH. done.
Qed.

Lemma first_result_Some l r :
  first_result l = Some r →
  ∃ pre g text post,
    l = (pre ++ (g, text) :: post)%list ∧ g.2 text = Ok (Some r)
    ∧ Forall failed pre.
Proof.
  induction l as [|[[n f] text] l IH]; simpl; [done|].
  destruct (f text) as [[r'|]|] eqn:Hf.
  - intros [= ->]. exists [], (n, f), text, l. done.
  - intros H. destruct (IH H) as (pre & g & t & post & -> & Hg & Hpre).
    exists (((n, f), text) :: pre), g, t, post. split; [done|]. split; [done|].
    constructor; [|done]. intros r'. simpl. congruence.
  - intros H. destruct (IH H) as (pre & g & t & post & -> & Hg & Hpre).
    exists (((n, f), text) :: pre), g, t, post. split; [done|]. split; [done|].
    constructor; [|done]. intros r'. simpl. congruence.
Qed.

Lemma first_result_None l : first_result l = None → Forall failed l.
Proof.
  induction l as [|[[n f] text] l IH]; simpl; [by constructor|].
  destruct (f text) as [[r'|]|] eqn:Hf; [done| |];
    intros H; constructor; auto; intros r'; simpl; congruence.
Qed.

(** [geocode_location] on a text that is not blank. *)
Lemma geocode_location_first P location_name google_api_key :
  strip location_name ≠ "" →
  geocode_location P location_name google_api_key
  = match first_result (attempts (geocoders P google_api_key)
                          (_try_with_variations (strip location_name))) with
    | Some result => Ok result
    | None => Raise (ValueError (error_msg (strip location_name)))
    end.
Proof.
  intros Hne. unfold geocode_location.
  destruct (str_truthy (strip location_name)) eqn:Ht.
  - cbn [negb]. by rewrite try_variations_first.
  - by apply str_truthy_false in Ht.
Qed.

Lemma geocode_location_blank P location_name google_api_key :
  strip location_name = "" →
  geocode_location P location_name google_api_key
  = Raise (ValueError "Location name cannot be empty").
Proof. intros Hb. unfold geocode_location. by rewrite Hb. Qed.

Lemma append_assoc (a b c : string) : ((a ++ b) ++ c = a ++ (b ++ c))%string.
Proof. induction a as [|x a IH]; simpl; [done|]. by rewrite IH. Qed.

Lemma error_msg_guidance location_clean : has_guidance (error_msg location_clean).
Proof.
  exists ("Could not find location '" ++ location_clean
          ++ "' using any geocoding service." ++ newline ++ newline)%string.
  unfold error_msg. by rewrite !append_assoc.
Qed.

Lemma length_append (a b : string) :
  String.length (a ++ b) = (String.length a + String.length b)%nat.
Proof. induction a as [|x a IH]; simpl; [done|]. by rewrite IH. Qed.

Lemma try_with_variations_eq location_name :
  _try_with_variations (strip location_name)
  = if contains_comma (strip location_name)
    then [strip location_name]
    else strip location_name
         :: ((λ suffix, strip location_name ++ suffix)%string <$> country_suffixes).
Proof.
  unfold _try_with_variations. rewrite strip_idemp.
  by destruct (contains_comma _).
Qed.

End geocode_facts.

(** ** Free-text resolution (C6, C7) *)

Section geocode_claims.
Import Geocode.

(** C6, as stated, fails: the query of three spaces is not empty, yet it is
    answered with "Location name cannot be empty", a message without the
    guidance block. *)
Lemma blank_query_no_guidance :
  let query := "   " in
  query ≠ ""
  ∧ ∃ msg, geocode_location GeocodeSample.offline query None = Raise (ValueError msg)
           ∧ ¬ has_guidance msg.
Proof.
  split; [done|]. eexists. split; [vm_compute; reflexivity|].
  intros [prefix H]. apply (f_equal String.length) in H.
  rewrite length_append in H.
  change (String.length guidance) with 178%nat in H. simpl in H. lia.
Qed.

(** The coordinates are passed on as the provider gave them: a latitude
    that the JSON decoder read as infinity reaches the caller. *)
Lemma geocode_passes_infinity :
  ∃ loc, geocode_location GeocodeSample.overflowing "Pune" None = Ok loc
         ∧ PrimFloat.is_infinity (latitude loc) = true.
Proof. eexists. split; vm_compute; reflexivity. Qed.

(** C6 (amended): for every query that is not blank after trimming,
    [geocode_location] either returns the result of the first attempt that
    gives one, with the coordinates that provider reported, or raises a
    [ValueError] whose message ends with the guidance block, every attempt
    having failed; it has no third outcome.  A query that is blank after
    trimming raises [ValueError("Location name cannot be empty")]. *)
Theorem geocode_dichotomy (P : Providers) (location_name : string)
    (google_api_key : option string) :
  (strip location_name ≠ "" →
   let tried :=
     attempts (geocoders P google_api_key)
       (_try_with_variations (strip location_name)) in
   (∃ loc pre g text post,
      geocode_location P location_name google_api_key = Ok loc
      ∧ tried = (pre ++ (g, text) :: post)%list
      ∧ g.2 text = Ok (Some loc)
      ∧ Forall failed pre)
   ∨ (∃ msg,
        geocode_location P location_name google_api_key = Raise (ValueError msg)
        ∧ has_guidance msg
        ∧ Forall failed tried))
  ∧ (strip location_name = "" →
     geocode_location P location_name google_api_key
     = Raise (ValueError "Location name cannot be empty")).
Proof.
  split; [|apply geocode_location_blank].
  intros Hne tried. rewrite geocode_location_first by done. fold tried.
  destruct (first_result tried) as [loc|] eqn:Hfirst.
  - left. destruct (first_result_Some _ _ Hfirst) as (pre & g & text & post & ? & ? & ?).
    by exists loc, pre, g, text, post.
  - right. eexists. split; [done|]. split; [apply error_msg_guidance|].
    by apply first_result_None.
Qed.

Lemma geocode_dichotomy_witness :
  let P := GeocodeSample.providers in
  let tried := attempts (geocoders P None) (_try_with_variations (strip "Springfield")) in
  (∃ loc pre g text post,
     geocode_location P "Springfield" None = Ok loc
     ∧ tried = (pre ++ (g, text) :: post)%list
     ∧ g.2 text = Ok (Some loc)
     ∧ Forall failed pre)
  ∨ (∃ msg,
       geocode_location P "Springfield" None = Raise (ValueError msg)
       ∧ has_guidance msg
       ∧ Forall failed tried).
Proof.
  intros P tried.
  apply (proj1 (geocode_dichotomy P "Springfield" None)).
  vm_compute. discriminate.
Defined.

(** C7, as stated, fails: trying each provider on the original text and
    its variants before turning to the next provider would resolve
    "Springfield" through Open-Meteo's "Springfield, USA"; the code returns
    Nominatim's result for the bare text. *)
Lemma provider_major_order_differs :
  let P := GeocodeSample.providers in
  geocode_location P "Springfield" None = Ok GeocodeSample.springfield_first
  ∧ first_result (spec_attempts (geocoders P None) (_try_with_variations "Springfield"))
    = Some GeocodeSample.springfield_usa
  ∧ name GeocodeSample.springfield_usa ≠ name GeocodeSample.springfield_first.
Proof. split; [|split]; vm_compute; [reflexivity|reflexivity|discriminate]. Qed.

Lemma first_result_found (l : list (Geocoder * string)) :
  first_result l = first_found ((λ a, a.1.2 a.2) <$> l).
Proof.
  induction l as [|[[label f] text] l IH]; [done|]. csimpl.
  by destruct (f text) as [[place|]|e].
Qed.

Lemma attempts_answers (gs : list Geocoder) (texts : list string) :
  (λ a : Geocoder * string, a.1.2 a.2) <$> attempts gs texts
  = text ← texts; (λ g : Geocoder, g.2 text) <$> gs.
Proof.
  unfold attempts. induction texts as [|text texts IH]; [done|]. csimpl.
  rewrite fmap_app, IH. f_equal. by rewrite <- list_fmap_compose.
Qed.

(** C7 (amended): the providers are in a fixed priority order, the paid
    geocoder first when a key is configured, then Open-Meteo, Nominatim and
    GeoCode.xyz; the texts are the trimmed original followed, only when it
    contains no comma, by its nine country-suffixed variants (India, USA,
    United States, UK, United Kingdom, Canada, Australia, Germany, France);
    the attempts run text by text, each text going through all providers in
    priority order before the next text is tried, and the first result in
    this order is returned. *)
Theorem geocode_attempt_order (P : Providers) (location_name : string)
    (google_api_key : option string) :
  let location_clean := strip location_name in
  let gs := geocoders P google_api_key in
  let texts := _try_with_variations location_clean in
  let answers text :=
    ((if opt_str_truthy google_api_key
      then [_geocode_google_maps P text (default "" google_api_key)]
      else [])
     ++ [_geocode_openmeteo P text; _geocode_nominatim P text;
         _geocode_geocodexyz P text])%list in
  let variants :=
    if contains_comma location_clean
    then [location_clean]
    else [location_clean;
          location_clean ++ ", India";
          location_clean ++ ", USA";
          location_clean ++ ", United States";
          location_clean ++ ", UK";
          location_clean ++ ", United Kingdom";
          location_clean ++ ", Canada";
          location_clean ++ ", Australia";
          location_clean ++ ", Germany";
          location_clean ++ ", France"]%string in
  gs.*1 = ((if opt_str_truthy google_api_key then ["Google Maps"] else [])
           ++ ["Open-Meteo"; "Nominatim"; "GeoCode.xyz"])%list
  ∧ (∀ text, (λ g : Geocoder, g.2 text) <$> gs = answers text)
  ∧ texts = (if contains_comma location_clean
             then [location_clean]
             else location_clean
                  :: ((λ suffix, location_clean ++ suffix)%string <$> country_suffixes))
  ∧ texts = variants
  ∧ (∀ text rest,
       attempts gs (text :: rest) = (((λ g, (g, text)) <$> gs) ++ attempts gs rest)%list)
  ∧ (location_clean ≠ "" →
     geocode_location P location_name google_api_key
     = match first_result (attempts gs texts) with
       | Some result => Ok result
       | None => Raise (ValueError (error_msg location_clean))
       end)
  ∧ (location_clean ≠ "" →
     geocode_location P location_name google_api_key
     = match first_found (text ← variants; answers text) with
       | Some result => Ok result
       | None => Raise (ValueError (error_msg location_clean))
       end).
Proof.
  intros location_clean gs texts answers variants.
  assert (∀ text, (λ g : Geocoder, g.2 text) <$> gs = answers text) as Hanswers.
  { intros text. unfold gs, geocoders, answers.
    destruct google_api_key as [key|]; [|done].
    simpl. by destruct (str_truthy key). }
  assert (texts = variants) as Hvariants.
  { unfold texts, variants, location_clean. rewrite try_with_variations_eq.
    by destruct (contains_comma (strip location_name)). }
  split; [|split; [|split; [|split; [|split; [|split]]]]].
  - unfold gs, geocoders. destruct google_api_key as [key|]; [|done].
    simpl. by destruct (str_truthy key).
  - done.
  - apply try_with_variations_eq.
  - done.
  - done.
  - apply geocode_location_first.
  - intros Hclean.
    rewrite (geocode_location_first P location_name google_api_key Hclean).
    change (_try_with_variations (strip location_name)) with texts.
    change (geocoders P google_api_key) with gs.
    rewrite first_result_found, attempts_answers, Hvariants.
    assert ((text ← variants; (λ g : Geocoder, g.2 text) <$> gs)
            = (text ← variants; answers text)) as ->; [|done].
    clear Hvariants. induction variants as [|text rest IH]; [done|].
    csimpl. by rewrite Hanswers, IH.
Qed.

Lemma geocode_attempt_order_witness :
  geocode_location GeocodeSample.providers "Springfield" None
  = Ok GeocodeSample.springfield_first
  ∧ geocode_location GeocodeSample.providers "Springfield, USA" None
    = Ok GeocodeSample.springfield_usa.
Proof.
  destruct (geocode_attempt_order GeocodeSample.providers "Springfield" None)
    as (_ & _ & _ & _ & _ & _ & Hbare).
  destruct (geocode_attempt_order GeocodeSample.providers "Springfield, USA" None)
    as (_ & _ & _ & _ & _ & _ & Hcomma).
  split.
  - rewrite Hbare; [|vm_compute; discriminate]. vm_compute. reflexivity.
  - rewrite Hcomma; [|vm_compute; discriminate]. vm_compute. reflexivity.
Defined.

End geocode_claims.

(** * Facts about services/reverse_geocode.py (C8) *)

Section format_facts.

Lemma digit_is_digit n : is_digit (digit n).
Proof.
  exists (n `mod` 10). split; [|done]. by apply Z.mod_pos_bound.
Qed.

Lemma format_4f_four_decimals x : finite x → four_decimals (format_4f x).
Proof.
  unfold finite, format_4f, exact_scaled.
  destruct (Prim2SF x) as [s|s| |s m e]; try done; intros _.
  - exists ((if s then "-" else "") ++ decimal_of_Z (0 `div` 10000))%string.
    eexists _, _, _, _. rewrite append_assoc.
    split; [reflexivity|]. repeat split; apply digit_is_digit.
  - destruct (0 <=? e);
      (eexists (_ ++ _)%string, _, _, _, _; rewrite append_assoc;
       split; [reflexivity|]; repeat split; apply digit_is_digit).
Qed.

(** A float between two finite bounds is finite. *)
Lemma bounded_finite (lo hi x : float) :
  PrimFloat.leb lo x = true → PrimFloat.leb x hi = true →
  finite lo → finite hi → finite x.
Proof.
  rewrite !leb_spec. unfold finite.
  destruct (Prim2SF x) as [s|[]| |s m e]; try done.
  - intros H _. destruct (Prim2SF lo) as [?|[]| |[] ? ?]; done.
  - intros _ H. destruct (Prim2SF hi) as [?|[]| |[] ? ?]; done.
Qed.

Lemma round_half_even_nearest (n d : Z) :
  0 < d →
  Z.abs (2 * n - 2 * round_half_even n d * d) ≤ d
  ∧ (Z.abs (2 * n - 2 * round_half_even n d * d) = d →
     Z.even (round_half_even n d) = true).
Proof.
  intros Hd. unfold round_half_even.
  pose proof (Z.div_mod n d ltac:(lia)) as Hdiv.
  pose proof (Z.mod_pos_bound n d Hd) as Hmod.
  set (q := n `div` d) in *. set (r := n `mod` d) in *.
  destruct (Z.ltb_spec (2 * r) d).
  - split; [nia|]. intros Habs. nia.
  - destruct (Z.ltb_spec d (2 * r)).
    + split; [nia|]. intros Habs. nia.
    + destruct (Z.even q) eqn:Hq.
      * split; [nia|]. done.
      * split; [nia|]. intros _. rewrite Z.even_add, Hq. done.
Qed.

Lemma exact_scaled_rounds x k s n :
  exact_scaled x k = Some (s, n) → rounds_to x k s n ∧ (0 ≤ k → 0 ≤ n).
Proof.
  unfold exact_scaled, rounds_to.
  destruct (Prim2SF x) as [s'|s'| |s' m e]; try done.
  - intros [= <- <-]. split; [done|lia].
  - destruct (Z.leb_spec 0 e).
    + intros [= <- <-]. split; [done|]. intros Hk.
      pose proof (Z.pow_nonneg 10 k). pose proof (Z.pow_nonneg 2 e). nia.
    + intros [= <- <-].
      assert (0 < 2 ^ (- e)) as Hpos by (apply Z.pow_pos_nonneg; lia).
      destruct (round_half_even_nearest (Z.pos m * 10 ^ k) (2 ^ (- e)) Hpos)
        as [Hnear Htie].
      split; [split; [done|]; split|].
      * exact Hnear.
      * exact Htie.
      * intros Hk. unfold round_half_even.
        pose proof (Z.pow_nonneg 10 k ltac:(lia)).
        pose proof (Z.div_pos (Z.pos m * 10 ^ k) (2 ^ (- e)) ltac:(nia) Hpos).
        repeat case_match; lia.
Qed.

Lemma digit_value_digit k : digit_value (digit k) = Some (k `mod` 10).
Proof.
  unfold digit. pose proof (Z.mod_pos_bound k 10 ltac:(lia)) as Hk.
  assert (k `mod` 10 = 0 ∨ k `mod` 10 = 1 ∨ k `mod` 10 = 2 ∨ k `mod` 10 = 3
          ∨ k `mod` 10 = 4 ∨ k `mod` 10 = 5 ∨ k `mod` 10 = 6 ∨ k `mod` 10 = 7
          ∨ k `mod` 10 = 8 ∨ k `mod` 10 = 9) as Hcases by lia.
  repeat (destruct Hcases as [->|Hcases]; [done|]). by rewrite Hcases.
Qed.

Lemma digit_value_char c d :
  digit_value c = Some d → Ascii.eqb c "." = false ∧ Ascii.eqb c "-" = false.
Proof.
  intros H. split.
  - destruct (Ascii.eqb_spec c ".") as [->|]; [done|done].
  - destruct (Ascii.eqb_spec c "-") as [->|]; [done|done].
Qed.

Lemma read_uint_acc (d : Decimal.uint) (acc : positive) :
  read_digits (Z.pos acc) (NilEmpty.string_of_uint d)
  = Some (Z.pos (Pos.of_uint_acc d acc)).
Proof.
  revert acc. induction d as [|d IH|d IH|d IH|d IH|d IH|d IH|d IH|d IH|d IH|d IH];
    intros acc; [done|..]; cbn [NilEmpty.string_of_uint read_digits Pos.of_uint_acc];
    (match goal with
     | |- context [digit_value ?c] => change (digit_value c) with (Some (Z.of_N (N_of_ascii c) - 48))
     end);
    cbv iota; rewrite <- IH; f_equal; vm_compute N_of_ascii; lia.
Qed.

Lemma read_uint (d : Decimal.uint) :
  read_digits 0 (NilEmpty.string_of_uint d) = Some (Z.of_N (Pos.of_uint d)).
Proof.
  induction d as [|d IH|d IH|d IH|d IH|d IH|d IH|d IH|d IH|d IH|d IH];
    [done|exact IH|..];
    cbn [NilEmpty.string_of_uint read_digits Pos.of_uint];
    (match goal with
     | |- context [digit_value ?c] => change (digit_value c) with (Some (Z.of_N (N_of_ascii c) - 48))
     end);
    cbv iota; apply (read_uint_acc d).
Qed.

Lemma read_decimal_of_Z q : 0 ≤ q → read_digits 0 (decimal_of_Z q) = Some q.
Proof.
  intros Hq. unfold decimal_of_Z, NilZero.string_of_uint.
  pose proof (DecimalN.Unsigned.of_to (Z.to_N q)) as Hof. unfold N.of_uint in Hof.
  destruct (N.to_uint (Z.to_N q)) as [|d|d|d|d|d|d|d|d|d|d] eqn:Hd;
    [simpl in Hof; simpl; f_equal; lia|..];
    rewrite read_uint, Hof; f_equal; lia.
Qed.

Lemma split_point_digits whole fraction acc v :
  read_digits acc whole = Some v →
  split_point (whole ++ String "." fraction) = Some (whole, fraction).
Proof.
  revert acc. induction whole as [|c whole IH]; intros acc; simpl; [done|].
  destruct (digit_value c) as [d|] eqn:Hc; [|done].
  intros Hrest. destruct (digit_value_char c d Hc) as [-> _].
  by rewrite (IH _ Hrest).
Qed.

Lemma unsigned_digits whole fraction acc v :
  read_digits acc whole = Some v →
  split_sign (whole ++ String "." fraction)
  = (false, (whole ++ String "." fraction)%string).
Proof.
  destruct whole as [|c whole]; [done|]. simpl.
  destruct (digit_value c) as [d|] eqn:Hc; [|done]. intros _.
  destruct (digit_value_char c d Hc) as [_ Hminus].
  destruct (Ascii.eqb_spec c "-") as [->|Hne]; [done|].
  destruct c as [[] [] [] [] [] [] [] []]; done.
Qed.

Lemma four_digits_value n :
  0 ≤ n →
  (n `div` 10000) * 10000
  + (10 * (10 * (10 * (10 * 0 + (n `div` 1000) `mod` 10) + (n `div` 100) `mod` 10)
           + (n `div` 10) `mod` 10) + n `mod` 10) = n.
Proof. intros Hn. Z.to_euclidean_division_equations. lia. Qed.

(** A finite float is rendered as the decimal, with four digits after the
    point, of a nearest ten-thousandth. *)
Lemma format_4f_reads x :
  finite x →
  ∃ s n, rounds_to x 4 s n ∧ read_fixed4 (format_4f x) = Some (s, n).
Proof.
  intros Hfin.
  assert (∃ s n, exact_scaled x 4 = Some (s, n)
                 ∧ format_4f x
                   = ((if s then "-" else "") ++ decimal_of_Z (n `div` 10000)
                      ++ String "."
                           (String (digit (n `div` 1000))
                              (String (digit (n `div` 100))
                                 (String (digit (n `div` 10))
                                    (String (digit n) EmptyString)))))%string)
    as (s & n & Hscaled & ->).
  { unfold finite in Hfin. unfold format_4f, exact_scaled.
    destruct (Prim2SF x) as [s|s| |s m e]; try done.
    - by exists s, 0.
    - destruct (0 <=? e); by eexists s, _. }
  destruct (exact_scaled_rounds _ _ _ _ Hscaled) as [Hround Hn].
  specialize (Hn ltac:(lia)).
  exists s, n. split; [done|].
  pose proof (read_decimal_of_Z (n `div` 10000) ltac:(by apply Z.div_pos)) as Hwhole.
  unfold read_fixed4.
  assert (split_sign
            ((if s then "-" else "") ++ decimal_of_Z (n `div` 10000)
             ++ String "."
                  (String (digit (n `div` 1000))
                     (String (digit (n `div` 100))
                        (String (digit (n `div` 10))
                           (String (digit n) EmptyString)))))
          = (s, (decimal_of_Z (n `div` 10000)
                 ++ String "."
                      (String (digit (n `div` 1000))
                         (String (digit (n `div` 100))
                            (String (digit (n `div` 10))
                               (String (digit n) EmptyString)))))%string)) as ->.
  { destruct s; [done|]. simpl. by eapply unsigned_digits. }
  rewrite (split_point_digits _ _ _ _ Hwhole). cbn [String.length Nat.eqb].
  rewrite Hwhole. cbn [read_digits]. rewrite !digit_value_digit.
  do 2 f_equal. by apply four_digits_value.
Qed.

(** At most one number is the rounding of a float. *)
Lemma rounds_to_unique x k s n s' n' :
  rounds_to x k s n → rounds_to x k s' n' → s = s' ∧ n = n'.
Proof.
  unfold rounds_to. destruct (Prim2SF x) as [b|b| |b m e]; try done.
  - intros [-> ->] [-> ->]. done.
  - intros [-> Hn] [-> Hn']. split; [done|].
    destruct (0 <=? e) eqn:He; [congruence|].
    apply Z.leb_gt in He.
    assert (0 < 2 ^ (- e)) as Hd by (apply Z.pow_pos_nonneg; lia).
    destruct Hn as [Hnear Htie], Hn' as [Hnear' Htie'].
    set (d := 2 ^ (- e)) in *. set (N := Z.pos m * 10 ^ k) in *.
    assert (n = n' ∨ n = n' + 1 ∨ n' = n + 1) as [?|[->| ->]] by nia; [done|..].
    + assert (Z.even (n' + 1) = true) as H1 by (apply Htie; nia).
      assert (Z.even n' = true) as H2 by (apply Htie'; nia).
      rewrite Z.even_add, H2 in H1. done.
    + assert (Z.even n = true) as H1 by (apply Htie; nia).
      assert (Z.even (n + 1) = true) as H2 by (apply Htie'; nia).
      rewrite Z.even_add, H1 in H2. done.
Qed.

End format_facts.

Section reverse_claims.
Import ReverseGeocode.

Lemma reverse_try_None gs :
  Forall (λ g : Geocoder, ∀ r, g.2 () ≠ Ok (Some r)) gs → try_geocoders gs = None.
Proof.
  induction 1 as [|[n f] gs Hf _ IH]; simpl; [done|].
  simpl in Hf. destruct (f ()) as [[r|]|]; [|done..]. by destruct (Hf r).
Qed.

(** C8: [reverse_geocode] never raises.  When every provider it asks
    raises or returns nothing, it returns normally the place whose name and
    display name are the latitude and the longitude, each formatted with four
    decimal places and joined by ", ", with the coordinates it was given; for
    coordinates within the real-world bounds both renderings are decimals
    with exactly four digits after the point, and the number each of them
    denotes is the given coordinate rounded to the nearest ten-thousandth
    (to the even one of two equally near), with the coordinate's sign. *)
Theorem reverse_geocode_total (P : Providers) (lat lon : float)
    (google_api_key : option string) :
  (∃ place, reverse_geocode P lat lon google_api_key = Ok place)
  ∧ (Forall (λ g : Geocoder, ∀ r, g.2 () ≠ Ok (Some r))
       (geocoders P lat lon google_api_key) →
     reverse_geocode P lat lon google_api_key
     = Ok {| name := (format_4f lat ++ ", " ++ format_4f lon)%string;
             display_name := (format_4f lat ++ ", " ++ format_4f lon)%string;
             country := None;
             city := None;
             latitude := lat;
             longitude := lon |})
  ∧ (PrimFloat.leb (-90) lat = true → PrimFloat.leb lat 90 = true →
     PrimFloat.leb (-180) lon = true → PrimFloat.leb lon 180 = true →
     (four_decimals (format_4f lat) ∧ four_decimals (format_4f lon))
     ∧ (∃ s n, rounds_to lat 4 s n ∧ read_fixed4 (format_4f lat) = Some (s, n)
               ∧ ∀ s' n', rounds_to lat 4 s' n' → s' = s ∧ n' = n)
     ∧ (∃ s n, rounds_to lon 4 s n ∧ read_fixed4 (format_4f lon) = Some (s, n)
               ∧ ∀ s' n', rounds_to lon 4 s' n' → s' = s ∧ n' = n)).
Proof.
  split; [|split].
  - unfold reverse_geocode. destruct (try_geocoders _); by eexists.
  - intros Hfail. unfold reverse_geocode. by rewrite reverse_try_None.
  - intros H1 H2 H3 H4.
    assert (finite lat) as Hlat by (eapply bounded_finite; try eassumption; exact I).
    assert (finite lon) as Hlon by (eapply bounded_finite; try eassumption; exact I).
    split; [split; by apply format_4f_four_decimals|].
    split.
    + destruct (format_4f_reads lat Hlat) as (s & n & Hround & Hread).
      exists s, n. split; [done|]. split; [done|].
      intros s' n' Hround'. by eapply rounds_to_unique.
    + destruct (format_4f_reads lon Hlon) as (s & n & Hround & Hread).
      exists s, n. split; [done|]. split; [done|].
      intros s' n' Hround'. by eapply rounds_to_unique.
Qed.

Lemma reverse_geocode_total_witness :
  reverse_geocode ReverseSample.nowhere 18.52045678 (-73.85674) None
  = Ok {| name := "18.5205, -73.8567";
          display_name := "18.5205, -73.8567";
          country := None;
          city := None;
          latitude := 18.52045678;
          longitude := (-73.85674) |}.
Proof.
  apply (proj1 (proj2 (reverse_geocode_total ReverseSample.nowhere
                         18.52045678 (-73.85674) None))).
  repeat constructor; simpl; discriminate.
Defined.

End reverse_claims.

(** * Facts about services/geocode_autocomplete.py (C9) *)

Section autocomplete_facts.
Import Autocomplete.

Lemma seen_of_snoc unique seen s k :
  seen_of unique seen → keyed s = Some k → seen_of (unique ++ [s]) (k :: seen).
Proof.
  intros Hseen Hk k'. unfold key_in in *. simpl.
  rewrite existsb_app, <- Hseen. simpl. unfold in_cell at 1. rewrite Hk.
  rewrite orb_false_r. apply orb_comm.
Qed.

Lemma distinct_cells_snoc unique s :
  distinct_cells unique → Forall (λ a, same_cell s a = false) unique →
  distinct_cells (unique ++ [s]).
Proof.
  intros Hd Hs pre x post Heq.
  destruct post as [|y post _] using rev_ind.
  - apply app_inj_tail in Heq as [-> ->]. done.
  - rewrite app_comm_cons, app_assoc in Heq.
    apply app_inj_tail in Heq as [-> _]. by eapply Hd.
Qed.

Lemma existsb_false_Forall {A} (f : A → bool) l :
  existsb f l = false → Forall (λ a, f a = false) l.
Proof.
  induction l as [|a l IH]; simpl; [by constructor|].
  intros [Ha Hl]%orb_false_iff. constructor; auto.
Qed.


Lemma rounded_eqb_trans a b c :
  rounded_eqb a b = true → rounded_eqb b c = true → rounded_eqb a c = true.
Proof.
  destruct a as [n|s|], b as [m|s'|], c as [p|s''|]; simpl; try done.
  - rewrite !Z.eqb_eq. congruence.
  - by destruct s, s', s''.
Qed.


Lemma key_eqb_trans a b c :
  key_eqb a b = true → key_eqb b c = true → key_eqb a c = true.
Proof.
  unfold key_eqb. rewrite !andb_true_iff. intros [? ?] [? ?].
  split; eapply rounded_eqb_trans; eauto.
Qed.

(** A candidate in the cell of [s] is in every cell that holds [s]'s key. *)
Lemma same_cell_in_cell x s k u :
  same_cell x s = true → keyed s = Some k → in_cell k u = true →
  same_cell x u = true.
Proof.
  unfold same_cell, in_cell. destruct (keyed x) as [kx|]; [|done].
  intros Hxs Hs. rewrite Hs in Hxs. destruct (keyed u) as [ku|]; [|done].
  intros Hku. by eapply key_eqb_trans.
Qed.

Lemma same_cell_no_key x s : keyed s = None → same_cell x s = false.
Proof.
  unfold same_cell, in_cell. intros ->. by destruct (keyed x).
Qed.

Lemma keyed_Some s lat lon :
  latitude s = Some lat → longitude s = Some lon → keyed s = Some (coord_key lat lon).
Proof. unfold keyed. by intros -> ->. Qed.

Lemma keyed_None s : latitude s = None ∨ longitude s = None → keyed s = None.
Proof. unfold keyed. intros [-> | ->]; [done|]. by destruct (latitude s). Qed.

(** An element added after [unique] differs in cell from all of [unique]. *)
Lemma distinct_cells_added unique pre x post :
  distinct_cells (unique ++ pre ++ x :: post) →
  Forall (λ a, same_cell x a = false) unique.
Proof.
  intros Hd. specialize (Hd (unique ++ pre)%list x post).
  rewrite <- app_assoc in Hd. specialize (Hd eq_refl).
  by apply Forall_app in Hd as [? _].
Qed.

(** What the loop returns, from any point of its run. *)
Lemma dedup_loop_spec limit all unique seen :
  seen_of unique seen → distinct_cells unique →
  Forall (λ s, is_Some (keyed s)) unique →
  ∃ added,
    dedup_loop limit all unique seen = (unique ++ added)%list
    ∧ sublist added all
    ∧ distinct_cells (unique ++ added)
    ∧ Forall (λ s, is_Some (keyed s)) (unique ++ added)
    ∧ (Z.of_nat (length unique) < limit →
       Z.of_nat (length (unique ++ added)) ≤ limit)
    ∧ (∀ pre s post, added = (pre ++ s :: post)%list →
       ∃ before after,
         all = (before ++ s :: after)%list
         ∧ Forall (λ a, same_cell s a = false) before).
Proof.
  revert unique seen. induction all as [|s all IH]; intros unique seen Hseen Hd Hk.
  { exists []. rewrite app_nil_r. split; [done|]. split; [constructor|].
    split; [done|]. split; [done|]. split; [lia|].
    intros pre s post Heq. by destruct pre. }
  (* a candidate that is passed over *)
  assert ((keyed s = None ∨
           ∃ k_in, keyed s = Some k_in ∧ key_in k_in seen = true) →
    ∃ added,
      dedup_loop limit all unique seen = (unique ++ added)%list
      ∧ sublist added (s :: all)
      ∧ distinct_cells (unique ++ added)
      ∧ Forall (λ s, is_Some (keyed s)) (unique ++ added)
      ∧ (Z.of_nat (length unique) < limit →
         Z.of_nat (length (unique ++ added)) ≤ limit)
      ∧ (∀ pre x post, added = (pre ++ x :: post)%list →
         ∃ before after,
           (s :: all) = (before ++ x :: after)%list
           ∧ Forall (λ a, same_cell x a = false) before)) as Hskip.
  { intros Hwhy.
    destruct (IH unique seen Hseen Hd Hk)
      as (added & Heq & Hsub & Hd' & Hk' & Hlen & Hfirst).
    exists added. split; [done|]. split; [by apply sublist_cons|].
    split; [done|]. split; [done|]. split; [done|].
    intros pre x post Hx.
    destruct (Hfirst pre x post Hx) as (before & after & -> & Hbefore).
    exists (s :: before), after. split; [done|]. constructor; [|done].
    destruct Hwhy as [Hnone|(k_in & Hsome & Hin)]; [by apply same_cell_no_key|].
    rewrite Hseen in Hin. apply existsb_exists in Hin as (u & Hu & Hcell).
    destruct (same_cell x s) eqn:Hxs; [|done].
    pose proof (same_cell_in_cell _ _ _ _ Hxs Hsome Hcell) as Hxu.
    subst added. apply distinct_cells_added in Hd'.
    rewrite Forall_forall in Hd'. apply list_elem_of_In in Hu.
    rewrite (Hd' _ Hu) in Hxu. done. }
  simpl.
  destruct (latitude s) as [lat|] eqn:Hlat;
    [destruct (longitude s) as [lon|] eqn:Hlon|].
  2: { apply Hskip. left. apply keyed_None. by right. }
  2: { apply Hskip. left. apply keyed_None. by left. }
  pose proof (keyed_Some _ _ _ Hlat Hlon) as Hkey.
  destruct (key_in (coord_key lat lon) seen) eqn:Hin.
  { apply Hskip. right. by exists (coord_key lat lon). }
  (* a new cell: the candidate is kept *)
  assert (Forall (λ a, same_cell s a = false) unique) as Hnew.
  { rewrite Hseen in Hin. apply existsb_false_Forall in Hin.
    eapply Forall_impl; [exact Hin|]. intros a Ha. unfold same_cell.
    by rewrite Hkey. }
  assert (distinct_cells (unique ++ [s])) as Hd1 by by apply distinct_cells_snoc.
  assert (Forall (λ s, is_Some (keyed s)) (unique ++ [s])) as Hk1.
  { apply Forall_app. split; [done|]. constructor; [by rewrite Hkey|done]. }
  destruct (limit <=? Z.of_nat (length (unique ++ [s]))) eqn:Hlim.
  - exists [s]. split; [done|]. split; [apply sublist_skip, sublist_nil_l|].
    split; [done|]. split; [done|]. split.
    + intros Hlt. rewrite length_app in *. simpl. lia.
    + intros pre x post Hx. destruct pre as [|? [|? ?]]; [|done..].
      injection Hx as -> <-. exists [], all. done.
  - apply Z.leb_gt in Hlim.
    destruct (IH (unique ++ [s])%list (coord_key lat lon :: seen))
      as (added & Heq & Hsub & Hd' & Hk' & Hlen & Hfirst);
      [by apply seen_of_snoc|done|done|].
    exists (s :: added). rewrite Heq, <- app_assoc. simpl.
    rewrite <- app_assoc in Hd', Hk'. simpl in Hd', Hk'.
    split; [done|]. split; [by apply sublist_skip|].
    split; [done|]. split; [done|]. split.
    + intros _. rewrite <- app_assoc in Hlen. simpl in Hlen. by apply Hlen.
    + intros pre x post Hx. destruct pre as [|y pre].
      * injection Hx as <- <-. exists [], all. done.
      * injection Hx as <- ->.
        destruct (Hfirst pre x post eq_refl) as (before & after & -> & Hbefore).
        exists (s :: before), after. split; [done|]. constructor; [|done].
        specialize (Hd' (unique ++ s :: pre)%list x post).
        rewrite <- app_assoc in Hd'. specialize (Hd' eq_refl).
        apply Forall_app in Hd' as [_ Hd']. by apply Forall_cons in Hd' as [? _].
Qed.

End autocomplete_facts.

Section autocomplete_more.
Import Autocomplete.









End autocomplete_more.

Section autocomplete_claims.
Import Autocomplete.





End autocomplete_claims.

(** * Facts about services/weather.py *)

Section weather_facts.
Import Weather.

#[local] Instance row_le_transitive : Transitive row_le.
Proof. intros a b c. unfold row_le, time_le. lia. Qed.

#[local] Instance row_le_total : Total row_le.
Proof. intros a b. unfold row_le, time_le. lia. Qed.

#[local] Instance aware_inj : Inj (=) (=) aware.
Proof. by intros i j [= ->]. Qed.

Lemma to_datetime_Ok cells stamps :
  to_datetime cells = Ok stamps → omap id stamps = aware <$> omap time_instant cells.
Proof.
  unfold to_datetime. revert stamps.
  induction cells as [|c cells IH]; intros stamps; csimpl.
  - by intros [= <-].
  - destruct c as [i| |]; csimpl; [| |done];
      destruct (mapM _ cells) as [rest|]; csimpl; try done;
      intros [= <-]; csimpl; by rewrite (IH rest).
Qed.

Lemma times_rows h (stamps : list (option Timestamp)) (start : nat) :
  times (omap (λ p, make_row h p.1 <$> p.2) (zip (seq start (length stamps)) stamps))
  = omap id stamps.
Proof.
  unfold times. revert start.
  induction stamps as [|[t|] stamps IH]; intros start; csimpl; [done| |].
  - by rewrite IH.
  - by rewrite IH.
Qed.

Lemma build_frame_times h df :
  build_frame h = Ok df → times df = aware <$> instants h.
Proof.
  unfold build_frame. destruct (to_datetime (h_time h)) as [stamps|] eqn:Hs; [|done].
  csimpl.
  match goal with |- context [if ?b then _ else _] => destruct b end; [|done].
  intros [= <-].
  rewrite times_rows. by apply to_datetime_Ok.
Qed.

Lemma insert_row_Permutation r df : insert_row r df ≡ₚ r :: df.
Proof.
  induction df as [|x df IH]; simpl; [done|].
  case_decide; [done|]. by rewrite IH, Permutation_swap.
Qed.

Lemma sort_values_Permutation df : sort_values df ≡ₚ df.
Proof.
  unfold sort_values. induction df as [|r df IH]; simpl; [done|].
  by rewrite insert_row_Permutation, IH.
Qed.

Lemma insert_row_sorted r df :
  StronglySorted row_le df → StronglySorted row_le (insert_row r df).
Proof.
  induction 1 as [|x df Hdf IH Hx]; simpl; [by repeat constructor|].
  case_decide as Hr.
  - constructor; [by constructor|]. constructor; [done|].
    eapply Forall_impl; [exact Hx|]. intros y Hy. by transitivity x.
  - constructor; [done|]. rewrite insert_row_Permutation.
    constructor; [|done]. destruct (total row_le r x); [done|done].
Qed.

Lemma sort_values_row_sorted df : StronglySorted row_le (sort_values df).
Proof.
  unfold sort_values. induction df as [|r df IH]; simpl; [constructor|].
  by apply insert_row_sorted.
Qed.

Lemma times_sort_values df : times (sort_values df) ≡ₚ times df.
Proof. unfold times. by rewrite sort_values_Permutation. Qed.

Lemma sort_values_sorted df : StronglySorted time_le (times (sort_values df)).
Proof.
  unfold times.
  eapply StronglySorted_fmap; [|apply sort_values_row_sorted].
  by intros a b.
Qed.

(** A body that is accepted gives a frame sorted by time whose times are
    those of the upstream array. *)
Lemma process_body_accepts body df :
  process_body body = Some df →
  StronglySorted time_le (times df)
  ∧ df ≠ []
  ∧ ∃ data h, body = Some data ∧ hourly data = Some h
              ∧ times df ≡ₚ aware <$> instants h.
Proof.
  unfold process_body. destruct body as [data|]; [|done].
  destruct (has_error data || has_reason data); [done|].
  destruct (hourly data) as [h|] eqn:Hh; [|done].
  destruct (h_time h) eqn:Ht; [done|].
  destruct (build_frame h) as [[|r df0]|] eqn:Hb; [done| |done].
  intros Hdf. assert (df = sort_values (r :: df0)) as -> by congruence.
  split; [apply sort_values_sorted|]. split.
  - intros Hnil. apply (f_equal length) in Hnil.
    rewrite sort_values_Permutation in Hnil. done.
  - exists data, h. split; [done|]. split; [done|].
    rewrite times_sort_values. by rewrite (build_frame_times _ _ Hb).
Qed.

Lemma first_Some_cases {A} (d : A) (l : list (option A)) :
  let r := default d (list_find is_Some l ≫= snd) in
  r = d ∨ Some r ∈ l.
Proof.
  simpl. destruct (list_find is_Some l) as [[i o]|] eqn:Hf; [|by left].
  apply list_find_Some in Hf as (Hi & [a ->] & _). simpl. right.
  by eapply list_elem_of_lookup_2.
Qed.

(** What either fetcher returns: nothing, or the frame of a body that one
    of its requests received. *)
Lemma fetch_historical_cases api lat lon days df :
  fetch_historical api lat lon days = Ok df →
  df = [] ∨ ∃ params body,
              archive_get api params = Http 200 body ∧ process_body body = Some df.
Proof.
  unfold fetch_historical.
  destruct (date_sub (today api) 3) as [end_date|]; [|done].
  cbn [mbind result_bind].
  destruct (date_sub end_date days) as [start_date|]; [|done].
  cbn [mbind result_bind].
  match goal with |- context [list_find is_Some ?l] =>
    destruct (first_Some_cases empty_frame l) as [H|H]; revert H;
    generalize (default empty_frame (list_find is_Some l ≫= snd)) end;
    intros df' H Hdf; assert (df' = df) as -> by congruence.
  - by left.
  - right. apply list_elem_of_fmap in H as (variables & H & _).
    match type of H with Some _ = match archive_get api ?p with _ => _ end =>
      exists p; destruct (archive_get api p) as [e|status body] eqn:Hget end;
      [done|].
    destruct status as [|status|status]; try done.
    repeat (destruct status as [status|status|]; try done). by exists body.
Qed.

Lemma fetch_forecast_cases api lat lon days :
  let df := fetch_forecast api lat lon days in
  df = [] ∨ ∃ params status_code body,
              forecast_get api params = Http status_code body
              ∧ process_body body = Some df.
Proof.
  intros df. unfold df, fetch_forecast.
  match goal with |- context [list_find is_Some ?l] =>
    destruct (first_Some_cases empty_frame l) as [H|H] end.
  - by left.
  - right. apply list_elem_of_fmap in H as (variables & H & _).
    match type of H with Some _ = match forecast_get api ?p with _ => _ end =>
      exists p; destruct (forecast_get api p) as [e|status body] eqn:Hget end;
      [done|].
    exists status, body. destruct ((400 <=? status) && (status <? 600)); done.
Qed.

Lemma accepted_unique {Params} (get : Params → Response) params status_code body df :
  unique_payloads get → get params = Http status_code body →
  process_body body = Some df → NoDup (times df).
Proof.
  intros Hu Hget Hp.
  destruct (process_body_accepts _ _ Hp) as (_ & _ & data & h & -> & Hh & Hperm).
  rewrite Hperm. apply NoDup_fmap_2; [apply _|]. by eapply Hu.
Qed.

Lemma fetch_historical_sorted api lat lon days df :
  fetch_historical api lat lon days = Ok df → StronglySorted time_le (times df).
Proof.
  intros [->|(p & body & _ & H)]%fetch_historical_cases.
  - constructor.
  - by apply process_body_accepts in H as [? _].
Qed.

Lemma fetch_forecast_sorted api lat lon days :
  StronglySorted time_le (times (fetch_forecast api lat lon days)).
Proof.
  destruct (fetch_forecast_cases api lat lon days) as [->|(p & s & body & _ & H)].
  - constructor.
  - by apply process_body_accepts in H as [? _].
Qed.

Lemma fetch_historical_unique api lat lon days df :
  unique_payloads (archive_get api) →
  fetch_historical api lat lon days = Ok df → NoDup (times df).
Proof.
  intros Hu [->|(p & body & Hget & H)]%fetch_historical_cases.
  - constructor.
  - by eapply accepted_unique.
Qed.

Lemma fetch_forecast_unique api lat lon days :
  unique_payloads (forecast_get api) →
  NoDup (times (fetch_forecast api lat lon days)).
Proof.
  intros Hu.
  destruct (fetch_forecast_cases api lat lon days) as [->|(p & s & body & Hget & H)].
  - constructor.
  - by eapply accepted_unique.
Qed.

End weather_facts.

(** * Facts about main.py *)

Section frame_facts.

Lemma times_assign v vals df df' :
  assign_column v vals df = Ok df' → times df' = times df ∧ length df' = length df.
Proof.
  unfold assign_column. case_decide as Hlen; [|done]. intros [= <-].
  unfold times. revert vals Hlen.
  induction df as [|r df IH]; intros [|x vals]; csimpl; try done.
  intros [= Hlen]. destruct (IH vals Hlen) as [H1 H2]. by rewrite H1, H2.
Qed.

Lemma column_assign v w vals df df' :
  assign_column v vals df = Ok df' →
  column w df' = if decide (w = v) then vals else column w df.
Proof.
  unfold assign_column. case_decide as Hlen; [|done]. intros [= <-].
  unfold column. revert vals Hlen.
  induction df as [|r df IH]; intros [|x vals]; csimpl; try done.
  - by destruct (decide (w = v)).
  - intros [= Hlen]. rewrite (IH vals Hlen).
    destruct (decide (w = v)) as [->|Hne]; f_equal.
    + destruct v; simpl; done.
    + destruct v, w; simpl; done.
Qed.

Lemma assign_column_Ok v vals df :
  length vals = length df → ∃ df', assign_column v vals df = Ok df'.
Proof. intros Hlen. unfold assign_column. rewrite decide_True by done. by eexists. Qed.

Lemma values_select v df : Ml.values (select v df) = column v df.
Proof. unfold Ml.values, select, column. by rewrite <- list_fmap_compose. Qed.

Lemma index_select v df : Ml.index (select v df) = times df.
Proof. unfold Ml.index, select, times. by rewrite <- list_fmap_compose. Qed.

Lemma times_timeseries df :
  Schemas.time <$> Main.dataframe_to_timeseries df = times df.
Proof. unfold Main.dataframe_to_timeseries, times. by rewrite <- list_fmap_compose. Qed.

End frame_facts.

Section handler_facts.
Import Main.
Context (S : Services).

Lemma create_ml_forecast_df_empty forecast_df target_column :
  create_ml_forecast_df S [] forecast_df target_column = [].
Proof. done. Qed.

(** The short-circuit of [create_ml_forecast_df]. *)
Lemma create_ml_forecast_df_short historical_df forecast_df target_column :
  historical_df ≠ [] →
  (length (Ml.dropna (select target_column historical_df)) < 48)%nat →
  create_ml_forecast_df S historical_df forecast_df target_column
  = select target_column forecast_df.
Proof.
  intros Hne Hshort. unfold create_ml_forecast_df.
  destruct historical_df as [|h hist]; [done|].
  destruct forecast_df as [|f fc]; [done|].
  by rewrite (proj2 (Nat.ltb_lt _ _) Hshort).
Qed.

(** The frame it returns is empty or has one row per forecast row. *)
Lemma create_ml_forecast_df_length historical_df forecast_df target_column :
  let ml := create_ml_forecast_df S historical_df forecast_df target_column in
  ml = [] ∨ length ml = length forecast_df.
Proof.
  simpl. unfold create_ml_forecast_df.
  destruct historical_df as [|h hist]; [by left|].
  destruct forecast_df as [|f fc]; [by left|]. right.
  assert (length (select target_column (f :: fc)) = length (f :: fc)) as Hsel.
  { unfold select. by rewrite length_fmap. }
  destruct (_ <? 48)%nat; [done|].
  destruct (train_local_model S _ 24%nat) as [[model lags]|]; [|done]. csimpl.
  destruct (forecast_with_model S _ _ _ _) as [predictions|]; [|done]. csimpl.
  unfold two_columns. case_decide as Hlen; [|done].
  rewrite length_zip, <- Hlen, Nat.min_id. unfold times. csimpl.
  by rewrite !length_fmap.
Qed.

Lemma blend_step_times forecast_df ml_forecasts blended_df var :
  times (blend_step S forecast_df ml_forecasts blended_df var) = times blended_df.
Proof.
  unfold blend_step. destruct (ml_forecasts var) as [|p ml]; [done|].
  destruct (blend_ml_and_api S _ _ _) as [blended|]; [|done]. csimpl.
  destruct (assign_column _ _ _) as [df|] eqn:Ha; [|done].
  by apply times_assign in Ha as [? _].
Qed.

Lemma blended_times forecast_df ml_forecasts df vars :
  times (foldl (blend_step S forecast_df ml_forecasts) df vars) = times df.
Proof.
  induction vars as [|v vars IH] using rev_ind; [done|].
  by rewrite foldl_snoc, blend_step_times.
Qed.

(** Step 7 on frames as [create_ml_forecast_df] makes them: it succeeds,
    keeps the times, and changes a column only to the model's values. *)
Lemma combine_steps historical_df forecast_df vars :
  let ml_forecasts := create_ml_forecast_df S historical_df forecast_df in
  ∃ combined,
    foldl (combine_step ml_forecasts) (Ok forecast_df) vars = Ok combined
    ∧ times combined = times forecast_df
    ∧ length combined = length forecast_df
    ∧ ∀ v, (ml_forecasts v = [] ∨ Ml.values (ml_forecasts v) = column v forecast_df) →
           column v combined = column v forecast_df.
Proof.
  intros ml_forecasts.
  induction vars as [|w vars IH] using rev_ind; [by exists forecast_df|].
  destruct IH as (df & Hfold & Htimes & Hlen & Hcol).
  rewrite foldl_snoc, Hfold. unfold combine_step at 1. csimpl.
  destruct (ml_forecasts w) as [|p ml] eqn:Hw; [by exists df|].
  destruct (create_ml_forecast_df_length historical_df forecast_df w) as [Hnil|Hl].
  { fold ml_forecasts in Hnil. by rewrite Hw in Hnil. }
  fold ml_forecasts in Hl. rewrite Hw in Hl.
  destruct (assign_column_Ok w (Ml.values (p :: ml)) df) as [df' Hdf'].
  { unfold Ml.values. rewrite length_fmap. lia. }
  exists df'. split; [done|].
  destruct (times_assign _ _ _ _ Hdf') as [Ht' Hl'].
  split; [congruence|]. split; [congruence|].
  intros v Hv. rewrite (column_assign _ v _ _ _ Hdf').
  destruct (decide (v = w)) as [->|Hne]; [|by apply Hcol].
  destruct Hv as [Hv|Hv]; [by rewrite Hw in Hv|]. by rewrite Hw in Hv.
Qed.

(** What a successful run of the handler body is made of. *)
Lemma handler_body_Ok request response :
  handler_body S request = Ok response →
  ∃ geo_data forecast_df combined,
    let lat := latitude geo_data in
    let lon := longitude geo_data in
    let historical_df :=
      match fetch_historical S lat lon (Schemas.historical_days request) with
      | Ok df => df
      | Raise _ => []
      end in
    let ml_forecasts := create_ml_forecast_df S historical_df forecast_df in
    resolve S request = Ok geo_data
    ∧ fetch_forecast S lat lon (Schemas.forecast_days request) = Ok forecast_df
    ∧ forecast_df ≠ []
    ∧ foldl (combine_step ml_forecasts) (Ok forecast_df) target_variables = Ok combined
    ∧ Schemas.historical response = dataframe_to_timeseries historical_df
    ∧ Schemas.api_forecast response = dataframe_to_timeseries forecast_df
    ∧ Schemas.ml_forecast response = dataframe_to_timeseries combined
    ∧ Schemas.blended_forecast response
      = dataframe_to_timeseries
          (foldl (blend_step S forecast_df ml_forecasts) forecast_df target_variables)
    ∧ Schemas.lm_latitude (Schemas.response_location response) = lat
    ∧ Schemas.lm_longitude (Schemas.response_location response) = lon
    ∧ Schemas.resolved_name (Schemas.response_location response) = name geo_data.
Proof.
  unfold handler_body. destruct (resolve S request) as [geo_data|] eqn:Hgeo; [|done].
  cbn [mbind result_bind].
  destruct (fetch_forecast S _ _ _) as [[|f fc]|] eqn:Hfc; [done| |done].
  cbn [mbind result_bind].
  destruct (extract_current_from_forecast S _) as [current|]; [|done].
  cbn [mbind result_bind].
  destruct (foldl (combine_step _) _ _) as [combined|] eqn:Hc; [|done].
  cbn [mbind result_bind]. intros [= <-]. exists geo_data, (f :: fc), combined.
  cbn zeta. rewrite Hfc. done.
Qed.

Lemma get_weather_data_Ok request response :
  get_weather_data S request = Ok response → handler_body S request = Ok response.
Proof.
  unfold get_weather_data. destruct (handler_body S request) as [r|[m|c d|m]]; congruence.
Qed.

End handler_facts.

(** ** Degradation (C2) *)

Section degradation.
Import Main.

Lemma point_field_timeseries v df :
  point_field v <$> dataframe_to_timeseries df = not_na <$> column v df.
Proof.
  unfold dataframe_to_timeseries, column. rewrite <- !list_fmap_compose.
  apply list_fmap_ext. intros i r _. by destruct v.
Qed.

Lemma length_filter_fmap {A B} (f : A → B) (P : B → Prop) (Q : A → Prop)
    `{∀ x, Decision (P x)} `{∀ x, Decision (Q x)} (l : list A) :
  (∀ x, P (f x) ↔ Q x) → length (filter P (f <$> l)) = length (filter Q l).
Proof.
  intros Hiff. induction l as [|x l IH]; csimpl; [done|].
  rewrite !filter_cons. destruct (decide (P (f x))) as [HP|HP], (decide (Q x)) as [HQ|HQ];
    simpl; rewrite ?IH; try done; by apply Hiff in HP || (apply Hiff in HQ).
Qed.

(** The clean points of a variable in the historical frame are the points
    of the response's historical series that carry that variable. *)
Lemma clean_points v df :
  length (filter (λ p, is_Some (point_field v p)) (dataframe_to_timeseries df))
  = length (Ml.dropna (select v df)).
Proof.
  unfold Ml.dropna, select, dataframe_to_timeseries.
  rewrite (length_filter_fmap _ _ (λ r, notna (cell v r) = true)).
  - symmetry. by apply length_filter_fmap.
  - intros r. unfold not_na. destruct v; simpl; destruct (notna _);
      split; intros H; try done; by destruct H.
Qed.

(** C2, as stated, fails: with no historical rows at all (no clean point
    for any variable) and one forecast row, [create_ml_forecast_df] returns
    the empty frame, not the forecast. *)
Lemma empty_history_returns_nothing :
  let S := MainSample.answering MainSample.regular in
  let forecast_df := [MainSample.row 0 20.5] in
  (length (Ml.dropna (select temperature_2m [])) < 48)%nat
  ∧ create_ml_forecast_df S [] forecast_df temperature_2m = []
  ∧ create_ml_forecast_df S [] forecast_df temperature_2m
    ≠ select temperature_2m forecast_df.
Proof. split; [simpl; lia|]. split; [done|]. vm_compute. discriminate. Qed.

(** C2 (amended): on a historical frame that has rows but fewer than 48
    clean points for the variable, [create_ml_forecast_df] returns the time
    and value columns of the API forecast exactly, whatever the training and
    forecasting services would do; on a historical frame without rows it
    returns the empty frame.  In both cases the model forecast of the
    response carries, point for point, the API forecast's values of that
    variable. *)
Theorem short_history_degrades (S : Services) :
  (∀ historical_df forecast_df var,
     historical_df ≠ [] →
     (length (Ml.dropna (select var historical_df)) < 48)%nat →
     create_ml_forecast_df S historical_df forecast_df var = select var forecast_df)
  ∧ (∀ forecast_df var, create_ml_forecast_df S [] forecast_df var = [])
  ∧ (∀ request response var,
       get_weather_data S request = Ok response →
       (length (filter (λ p, is_Some (point_field var p)) (Schemas.historical response))
        < 48)%nat →
       point_field var <$> Schemas.ml_forecast response
       = point_field var <$> Schemas.api_forecast response).
Proof.
  split; [apply create_ml_forecast_df_short|]. split; [done|].
  intros request response var Hok Hshort.
  apply get_weather_data_Ok, handler_body_Ok in Hok
    as (geo & fc & combined & _ & _ & _ & Hfold & Hhist & Hapi & Hml & _).
  rewrite Hhist, clean_points in Hshort. rewrite Hml, Hapi, !point_field_timeseries.
  f_equal.
  match type of Hfold with foldl (combine_step (create_ml_forecast_df S ?h _)) _ _ = _ =>
    remember h as historical_df eqn:Hh end.
  destruct (combine_steps S historical_df fc target_variables)
    as (combined' & Hfold' & _ & _ & Hcol).
  rewrite Hfold in Hfold'. injection Hfold' as <-. apply Hcol.
  destruct historical_df as [|r rest]; [by left|]. right.
  rewrite create_ml_forecast_df_short by done. apply values_select.
Qed.

Lemma short_history_degrades_witness :
  create_ml_forecast_df (MainSample.answering MainSample.regular)
    [MainSample.row 0 19.5] [MainSample.row 1 20.5; MainSample.row 2 21.5] temperature_2m
  = select temperature_2m [MainSample.row 1 20.5; MainSample.row 2 21.5].
Proof.
  apply (proj1 (short_history_degrades (MainSample.answering MainSample.regular))).
  - discriminate.
  - vm_compute. lia.
Defined.

End degradation.

(** ** Timestamps of the emitted series (C4) *)

Section timestamps.
Import Main.

(** C4, as stated, fails: the forecast endpoint answers with the hours
    1, 0, 1; the body is accepted and the API forecast of the response has
    the hours 0, 1, 1, a timestamp twice. *)
Lemma repeated_timestamp_emitted :
  ∃ response,
    get_weather_data (MainSample.answering MainSample.repeated_hour)
      MainSample.by_coordinates = Ok response
    ∧ stamps (Schemas.api_forecast response)
      = [Sample.stamp 0; Sample.stamp 1; Sample.stamp 1]
    ∧ ¬ NoDup (stamps (Schemas.api_forecast response)).
Proof.
  eexists. split; [vm_compute; reflexivity|]. split; [vm_compute; reflexivity|].
  apply (bool_decide_eq_false_1 _). vm_compute. reflexivity.
Qed.

(** C4 (amended): in every response the historical series and the API
    forecast are in ascending (non-decreasing) order of timestamp, and the
    model forecast and the blended forecast have the timestamps of the API
    forecast, point for point.  A series is free of duplicate timestamps
    whenever no accepted upstream body repeats an instant in its time array;
    the fetchers do not remove duplicates. *)
Theorem output_series_sorted (E : Environment) (request : Schemas.LocationRequest)
    (response : Schemas.DataResponse) :
  get_weather_data (implementation E) request = Ok response →
  StronglySorted time_le (stamps (Schemas.historical response))
  ∧ StronglySorted time_le (stamps (Schemas.api_forecast response))
  ∧ stamps (Schemas.ml_forecast response) = stamps (Schemas.api_forecast response)
  ∧ stamps (Schemas.blended_forecast response)
    = stamps (Schemas.api_forecast response)
  ∧ (unique_payloads (Weather.archive_get (weather_api E)) →
     NoDup (stamps (Schemas.historical response)))
  ∧ (unique_payloads (Weather.forecast_get (weather_api E)) →
     NoDup (stamps (Schemas.api_forecast response))
     ∧ NoDup (stamps (Schemas.ml_forecast response))
     ∧ NoDup (stamps (Schemas.blended_forecast response))).
Proof.
  intros Hok.
  apply get_weather_data_Ok, handler_body_Ok in Hok
    as (geo & fc & combined & _ & Hfc & _ & Hfold & Hhist & Hapi & Hml & Hbl & _).
  cbn [implementation fetch_forecast fetch_historical] in Hfc, Hhist, Hfold, Hbl.
  injection Hfc as <-.
  unfold stamps. rewrite Hhist, Hapi, Hml, Hbl, !times_timeseries.
  rewrite blended_times.
  match type of Hfold with foldl (combine_step (create_ml_forecast_df _ ?h ?f)) _ _ = _ =>
    destruct (combine_steps (implementation E) h f target_variables)
      as (combined' & Hfold' & Htimes & _) end.
  rewrite Hfold in Hfold'. injection Hfold' as <-. rewrite Htimes.
  assert (StronglySorted time_le
            (times match Weather.fetch_historical (weather_api E) (latitude geo)
                           (longitude geo) (Schemas.historical_days request) with
                   | Ok df => df
                   | Raise _ => []
                   end)
          ∧ (unique_payloads (Weather.archive_get (weather_api E)) →
             NoDup (times match Weather.fetch_historical (weather_api E)
                                  (latitude geo) (longitude geo)
                                  (Schemas.historical_days request) with
                          | Ok df => df
                          | Raise _ => []
                          end))) as [Hsorted Hunique].
  { destruct (Weather.fetch_historical _ _ _ _) as [hist|] eqn:Hh.
    - split; [by eapply fetch_historical_sorted|].
      intros Hu. by eapply fetch_historical_unique.
    - split; [constructor|]. intros _. constructor. }
  split; [done|]. split; [apply fetch_forecast_sorted|].
  split; [done|]. split; [done|]. split; [done|].
  intros Hu. pose proof (fetch_forecast_unique _ (latitude geo) (longitude geo)
                           (Schemas.forecast_days request) Hu). done.
Qed.

Lemma output_series_sorted_witness :
  ∃ response,
    get_weather_data (MainSample.answering MainSample.repeated_hour)
      MainSample.by_coordinates = Ok response
    ∧ StronglySorted time_le (stamps (Schemas.api_forecast response)).
Proof.
  destruct (get_weather_data (MainSample.answering MainSample.repeated_hour)
              MainSample.by_coordinates) as [response|e] eqn:Hrun.
  - exists response. split; [reflexivity|].
    exact (proj1 (proj2 (output_series_sorted _ _ _ Hrun))).
  - exfalso. vm_compute in Hrun. discriminate.
Defined.

End timestamps.

(** ** Inbound validation and error mapping (C5) *)

Section validation.
Import Main.

(** C5, as stated, fails: a request with both a location text and a
    coordinate pair does not contain exactly one of them, yet it passes the
    constructor and is served, from the coordinates; and a forecast service
    that is down is not answered with 500 but with the client-error 400. *)
Lemma both_inputs_accepted :
  Schemas.spec_exactly_one MainSample.both = false
  ∧ Schemas.validate MainSample.both = Ok MainSample.both
  ∧ (∃ response,
       endpoint (MainSample.answering MainSample.regular) MainSample.both = Ok response
       ∧ Schemas.resolved_name (Schemas.response_location response)
         = "18.5204, 73.8567")
  ∧ get_weather_data MainSample.forecast_down MainSample.by_coordinates
    = Raise (HTTPException 400 "Failed to fetch forecast data. Please try again later.").
Proof.
  split; [reflexivity|]. split; [reflexivity|]. split.
  - eexists. split; vm_compute; reflexivity.
  - vm_compute. reflexivity.
Qed.

Lemma resolve_neither S request :
  neither request → resolve S request = Raise (ValueError Schemas.missing_msg).
Proof.
  intros [Hloc Hcoord]. unfold resolve.
  assert (match Schemas.location request with
          | Some text =>
              if str_truthy text
              then
                geo_data ← geocode_location S text (GOOGLE_MAPS_API_KEY S);
                Ok {| name := Geocode.name geo_data;
                      country := Geocode.country geo_data;
                      latitude := Geocode.latitude geo_data;
                      longitude := Geocode.longitude geo_data;
                      elevation := Geocode.elevation geo_data |}
              else Raise (ValueError Schemas.missing_msg)
          | None => Raise (ValueError Schemas.missing_msg)
          end = Raise (ValueError Schemas.missing_msg)) as ->.
  { destruct (Schemas.location request) as [text|]; [|done].
    simpl in Hloc. by rewrite Hloc. }
  destruct Hcoord as [-> | ->]; [done|]. by destruct (Schemas.latitude request).
Qed.

Lemma resolve_coordinates S request lat lon geo_data :
  Schemas.latitude request = Some lat → Schemas.longitude request = Some lon →
  resolve S request = Ok geo_data →
  latitude geo_data = lat ∧ longitude geo_data = lon.
Proof.
  intros Hlat Hlon. unfold resolve. rewrite Hlat, Hlon.
  destruct (reverse_geocode S lat lon _) as [place|]; simpl; by intros [= <-].
Qed.

(** C5 (amended): the constructor accepts a request exactly when it has a
    non-empty location text or both coordinates, so at least one of the two,
    not exactly one; when both are present the coordinates are used.  A
    request with neither is refused by the constructor with a [ValueError],
    and by the handler with status 400.  Every [ValueError] raised while
    serving, which includes an unresolvable location and a forecast that
    could not be fetched, is answered with status 400 and its message; an
    [HTTPException] passes unchanged; every other exception is answered with
    status 500 and the detail "Internal server error: " followed by its
    message.  The handler raises nothing but [HTTPException]. *)
Theorem inbound_validation (S : Services) (request : Schemas.LocationRequest) :
  (Schemas.validate request = Ok request
   ↔ opt_str_truthy (Schemas.location request) = true
     ∨ is_Some (Schemas.latitude request) ∧ is_Some (Schemas.longitude request))
  ∧ (neither request →
     Schemas.validate request = Raise (ValueError Schemas.missing_msg)
     ∧ get_weather_data S request = Raise (HTTPException 400 Schemas.missing_msg))
  ∧ (∀ lat lon response,
       Schemas.latitude request = Some lat → Schemas.longitude request = Some lon →
       get_weather_data S request = Ok response →
       Schemas.lm_latitude (Schemas.response_location response) = lat
       ∧ Schemas.lm_longitude (Schemas.response_location response) = lon)
  ∧ (∀ msg, handler_body S request = Raise (ValueError msg) →
            get_weather_data S request = Raise (HTTPException 400 msg))
  ∧ (∀ status_code detail,
       handler_body S request = Raise (HTTPException status_code detail) →
       get_weather_data S request = Raise (HTTPException status_code detail))
  ∧ (∀ msg, handler_body S request = Raise (OtherError msg) →
            get_weather_data S request
            = Raise (HTTPException 500 ("Internal server error: " ++ msg)))
  ∧ (∀ e, get_weather_data S request = Raise e →
          ∃ status_code detail, e = HTTPException status_code detail)
  ∧ (∀ geo_data,
       resolve S request = Ok geo_data →
       let forecast :=
         fetch_forecast S (latitude geo_data) (longitude geo_data)
           (Schemas.forecast_days request) in
       (forecast = Ok [] →
        get_weather_data S request
        = Raise (HTTPException 400
                   "Failed to fetch forecast data. Please try again later."))
       ∧ (∀ msg, forecast = Raise (OtherError msg) →
                 get_weather_data S request
                 = Raise (HTTPException 500 ("Internal server error: " ++ msg)))).
Proof.
  split; [|split; [|split; [|split; [|split; [|split; [|split]]]]]].
  - unfold Schemas.validate.
    destruct (opt_str_truthy _), (Schemas.latitude request), (Schemas.longitude request);
      simpl; split; intros H; try done; auto;
      destruct H as [H|[[? H1] [? H2]]]; done.
  - intros Hn. split.
    + destruct Hn as [Hloc Hcoord]. unfold Schemas.validate. rewrite Hloc.
      destruct Hcoord as [-> | ->]; simpl; [done|].
      by destruct (Schemas.latitude request).
    + unfold get_weather_data, handler_body. by rewrite resolve_neither.
  - intros lat lon response Hlat Hlon Hok.
    apply get_weather_data_Ok, handler_body_Ok in Hok
      as (geo & fc & combined & Hgeo & _ & _ & _ & _ & _ & _ & _ & -> & -> & _).
    by eapply resolve_coordinates.
  - intros msg H. unfold get_weather_data. by rewrite H.
  - intros c d H. unfold get_weather_data. by rewrite H.
  - intros msg H. unfold get_weather_data. by rewrite H.
  - intros e. unfold get_weather_data.
    destruct (handler_body S request) as [r|[m|c d|m]]; intros [= <-]; by eexists _, _.
  - intros geo_data Hgeo forecast. split.
    + intros Hf. unfold get_weather_data, handler_body. rewrite Hgeo.
      cbn [mbind result_bind]. fold forecast. by rewrite Hf.
    + intros msg Hf. unfold get_weather_data, handler_body. rewrite Hgeo.
      cbn [mbind result_bind]. fold forecast. by rewrite Hf.
Qed.

Lemma inbound_validation_witness :
  Schemas.validate MainSample.neither = Raise (ValueError Schemas.missing_msg)
  ∧ get_weather_data (MainSample.answering MainSample.regular) MainSample.neither
    = Raise (HTTPException 400 Schemas.missing_msg).
Proof.
  apply (inbound_validation (MainSample.answering MainSample.regular) MainSample.neither).
  split; [reflexivity|]. right. reflexivity.
Defined.

End validation.

(** * Further facts: feature windows, training fall-back, forecasting *)

Section more_ml_facts.
Import Ml Forecasting.

(** X1.  [create_simple_features]: every training example is a run of
    consecutive clean observations, the [k] lag inputs followed by their
    target, where [k] is the lag count actually used; inputs and targets
    have the same number of entries, the targets are the clean series
    after its first [k] points, and no missing value enters either. *)
Theorem simple_features_windows (series : Series) (lags : nat) :
  let clean := values (dropna series) in
  let k := simple_lags (length clean) lags in
  let X := (create_simple_features series lags).1 in
  let y := (create_simple_features series lags).2 in
  ncols X = k
  ∧ y = drop k clean
  ∧ length (rows X) = length y
  ∧ (∀ i row, rows X !! i = Some row →
       ∃ target, y !! i = Some target ∧ length row = k
                 ∧ (row ++ [target])%list = take (S k) (drop i clean))
  ∧ Forall (Forall (λ x, notna x = true)) (rows X)
  ∧ Forall (λ x, notna x = true) y.
Proof.
  intros clean k X y. subst X y. rewrite create_simple_features_eq.
  fold clean. fold k. cbn [fst snd ncols rows].
  split; [done|]. split; [done|].
  split; [rewrite length_fmap, length_seq, length_drop; done|].
  split; [|split].
  - intros i row H. apply list_lookup_fmap_Some in H as (j & -> & Hj).
    apply lookup_seq in Hj as [-> Hi]. simpl in *.
    destruct (lookup_lt_is_Some_2 clean (i + k)) as [target Ht]; [lia|].
    exists target. split; [|split].
    + rewrite lookup_drop. by rewrite Nat.add_comm.
    + rewrite length_take, length_drop. lia.
    + symmetry. apply take_S_r. by rewrite lookup_drop.
  - apply Forall_fmap, Forall_forall. intros i _. simpl.
    apply Forall_take, Forall_drop, dropna_clean.
  - apply Forall_drop, dropna_clean.
Qed.

Lemma simple_features_windows_witness :
  ∃ target,
    (create_simple_features (Sample.constant_series 3) 24).2 !! 0%nat = Some target
    ∧ length [20%float]
      = simple_lags (length (values (dropna (Sample.constant_series 3)))) 24
    ∧ ([20%float] ++ [target])%list
      = take (S (simple_lags (length (values (dropna (Sample.constant_series 3)))) 24))
          (drop 0 (values (dropna (Sample.constant_series 3)))).
Proof.
  destruct (simple_features_windows (Sample.constant_series 3) 24)
    as (_ & _ & _ & Hrows & _).
  apply (Hrows 0%nat [20%float]). vm_compute. reflexivity.
Defined.

(** X2.  [create_simple_features]: two clean observations are enough for
    at least one training example, whatever lag count is requested,
    because the lag count is cut down to below the length of the clean
    series. *)
Theorem simple_features_nonempty (series : Series) (lags : nat) :
  (2 ≤ length (dropna series))%nat →
  (ncols (create_simple_features series lags).1 < length (dropna series))%nat
  ∧ (0 < length (rows (create_simple_features series lags).1))%nat
  ∧ (0 < length (create_simple_features series lags).2)%nat.
Proof.
  intros H. rewrite create_simple_features_eq. cbn [fst snd ncols rows].
  unfold values. rewrite !length_fmap, length_seq, length_drop, length_fmap.
  pose proof (simple_lags_below (length (dropna series)) lags H). lia.
Qed.

Lemma simple_features_nonempty_witness :
  (ncols (create_simple_features (Sample.constant_series 3) 24).1 < 3)%nat
  ∧ (0 < length (rows (create_simple_features (Sample.constant_series 3) 24).1))%nat
  ∧ (0 < length (create_simple_features (Sample.constant_series 3) 24).2)%nat.
Proof.
  apply (simple_features_nonempty (Sample.constant_series 3) 24).
  vm_compute. lia.
Defined.

(** X3.  [train_ensemble_model]: on a history of at most 100 clean points
    that yields fewer than ten training examples, the result is the
    single random forest of the [except] branch, fitted to the simple lag
    features, with no gradient boosting model and the weights (1.0, 0.0);
    the two ensemble fits are not attempted. *)
Theorem small_history_single_model (sk : Sklearn) (series : Series) (lags : nat) :
  (length (dropna series) ≤ 100)%nat →
  (length (create_simple_features series lags).2 < 10)%nat →
  train_ensemble_model sk series lags
  = (model ← rf_fallback_fit sk (create_simple_features series lags).1
               (create_simple_features series lags).2;
     Ok ({| rf := model; gb := None; weights := (1%float, 0%float) |},
         simple_lags (length (dropna series)) lags)).
Proof.
  intros Hsmall Hfew. unfold train_ensemble_model, train_ensemble_try.
  destruct (Nat.ltb_spec 100 (length (dropna series))); [lia|].
  revert Hfew. rewrite create_simple_features_eq. cbn [fst snd ncols rows].
  set (clean := values (dropna series)).
  assert (length clean = length (dropna series)) as Hlen
    by (unfold clean, values; by rewrite length_fmap).
  rewrite <- Hlen. set (k := simple_lags (length clean) lags).
  intros Hfew. rewrite length_drop in Hfew.
  unfold fit_ensemble. cbn [rows].
  rewrite length_fmap, length_seq.
  destruct (Nat.ltb_spec (length clean - k) 10); [|lia].
  cbn [ncols]. rewrite create_simple_features_eq. fold clean. fold k.
  replace (simple_lags (length clean) k) with k
    by (symmetry; apply simple_lags_idemp).
  done.
Qed.

Lemma small_history_single_model_witness :
  train_ensemble_model (Sample.sklearn_scoring 0.5 0.5) (Sample.constant_series 30) 24
  = (model ← rf_fallback_fit (Sample.sklearn_scoring 0.5 0.5)
               (create_simple_features (Sample.constant_series 30) 24).1
               (create_simple_features (Sample.constant_series 30) 24).2;
     Ok ({| rf := model; gb := None; weights := (1%float, 0%float) |},
         simple_lags (length (dropna (Sample.constant_series 30))) 24)).
Proof.
  apply (small_history_single_model (Sample.sklearn_scoring 0.5 0.5)
           (Sample.constant_series 30) 24);
    vm_compute; lia.
Defined.

(** X4.  [train_ensemble_model]: whenever the history has more clean
    points than the requested lag count, the lag count handed back with
    the models is the requested one, on the ensemble path and on the
    fall-back path alike. *)
Theorem training_keeps_lags (sk : Sklearn) (series : Series) (lags lags' : nat)
    (models : Models sk) :
  (lags + 1 ≤ length (dropna series))%nat →
  train_ensemble_model sk series lags = Ok (models, lags') →
  lags' = lags.
Proof.
  intros Hn. unfold train_ensemble_model, train_ensemble_try.
  assert (ncols (create_simple_features series lags).1 = lags) as Hk.
  { rewrite create_simple_features_eq. cbn [fst ncols]. apply simple_lags_enough.
    unfold values. by rewrite length_fmap. }
  assert (∀ (r : result (Models sk * nat)),
            r = Ok (models, lags') → (match r with Ok (_, l) => l | Raise _ => lags' end) = lags')
    as Hproj by (by intros r ->).
  assert (∀ X' y',
            create_simple_features series lags = (X', y') →
            (model ← rf_fallback_fit sk X' y';
             Ok ({| rf := model; gb := None; weights := (lit_1_0, lit_0_0) |},
                 ncols X')) = Ok (models, lags') →
            lags' = lags) as Hfallback.
  { intros X' y' HX. rewrite HX in Hk. simpl in Hk.
    destruct (rf_fallback_fit sk X' y');
      [intros H%Hproj; simpl in H; congruence|intros H; cbn in H; discriminate]. }
  destruct (100 <? length (dropna series))%nat.
  - destruct (create_advanced_features sk series lags) as [[X y]|e].
    + destruct (fit_ensemble sk X y) as [m|e].
      * intros H%Hproj. simpl in H. congruence.
      * destruct (create_simple_features series lags) as [X' y'] eqn:HX.
        by apply Hfallback.
    + destruct (create_simple_features series lags) as [X' y'] eqn:HX.
      by apply Hfallback.
  - destruct (create_simple_features series lags) as [X y] eqn:HX. simpl in Hk.
    destruct (fit_ensemble sk X y) as [m|e].
    + intros H%Hproj. simpl in H. congruence.
    + rewrite Hk, HX. by apply Hfallback.
Qed.

Lemma training_keeps_lags_witness : 24%nat = 24%nat.
Proof.
  apply (training_keeps_lags (Sample.sklearn_scoring 0.5 0.5)
           (Sample.constant_series 48) 24 24 ForecastSample.models).
  - vm_compute. lia.
  - vm_compute. reflexivity.
Defined.

(** ** The forecasting loop *)

Lemma mapM_Ok {A B} (f : A → result B) (g : A → B) (l : list A) :
  (∀ x, x ∈ l → f x = Ok (g x)) → mapM f l = Ok (g <$> l).
Proof.
  induction l as [|x l IH]; intros H; [done|].
  change (mapM f (x :: l)) with (y ← f x; k ← mapM f l; mret (y :: k)).
  rewrite H by apply list_elem_of_here.
  rewrite IH; [done|]. intros y Hy. apply H. by apply list_elem_of_further.
Qed.

Lemma next_hour_ne t : t ≠ next_hour t.
Proof. intros H. apply (f_equal ns) in H. simpl in H. unfold hour_ns in H. lia. Qed.

Lemma length_iloc_tail {A} (k : nat) (l : list A) :
  (k ≤ length l)%nat →
  length (iloc_tail k l) = match k with O => length l | _ => k end.
Proof. intros H. destruct k; [done|]. simpl. rewrite length_drop. lia. Qed.

Lemma last_iloc_tail {A} (k : nat) (l : list A) :
  (k ≤ length l)%nat → l ≠ [] → last (iloc_tail k l) = last l.
Proof.
  intros H Hne. destruct k; [done|]. unfold iloc_tail.
  rewrite !last_lookup, lookup_drop, length_drop. f_equal.
  destruct l; [done|]. simpl in *. lia.
Qed.

Lemma set_loc_nonempty w t v : w ≠ [] → set_loc w t v ≠ [].
Proof.
  intros H. unfold set_loc. destruct (bool_decide _).
  - destruct w; [done|]. by csimpl.
  - destruct w; [done|]. by csimpl.
Qed.

Lemma set_loc_length w t v :
  (length w ≤ length (set_loc w t v) ≤ S (length w))%nat.
Proof.
  unfold set_loc. destruct (bool_decide _).
  - rewrite length_fmap. lia.
  - rewrite length_app. simpl. lia.
Qed.

(** Writing the last value at a label other than the last one leaves the
    last value in place. *)
Lemma set_loc_last w t t0 L :
  last (index w) = Some t0 → last (values w) = Some L → t0 ≠ t →
  last (values (set_loc w t L)) = Some L.
Proof.
  unfold index, values, set_loc. rewrite !fmap_last.
  destruct (last w) as [[t1 L1]|] eqn:Hlast; [|done]. simpl.
  intros Ht HL Hne.
  assert (t1 = t0) as -> by congruence.
  destruct (bool_decide _).
  - rewrite !fmap_last, Hlast. simpl. by destruct (decide (t0 = t)).
  - by rewrite last_snoc.
Qed.

Lemma window_last w : w ≠ [] → ∃ t0 L, last (index w) = Some t0 ∧ last (values w) = Some L.
Proof.
  intros H. apply last_is_Some in H as [[t0 L] H].
  exists t0, L. unfold index, values. by rewrite !fmap_last, H.
Qed.

Section more_forecast_facts.
Context {sk : Sklearn} (predictor : Predictor sk) (models : Models sk) (lags : nat).

Lemma step_fallback_Ok st t0 L :
  last (index (window st)) = Some t0 → last (values (window st)) = Some L →
  step_fallback st
  = Ok {| window := set_loc (window st) (next_hour t0) L;
          predictions_rf := (predictions_rf st ++ [L])%list;
          predictions_gb := (predictions_gb st ++ [L])%list |}.
Proof. intros Ht HL. unfold step_fallback. by rewrite Ht, HL. Qed.

Lemma forecast_step_Ok st :
  window st ≠ [] →
  ∃ st', forecast_step predictor models lags st = Ok st'
         ∧ window st' ≠ []
         ∧ (S (length (predictions_rf st)) ≤ length (predictions_rf st'))%nat
         ∧ (S (length (predictions_gb st)) ≤ length (predictions_gb st'))%nat.
Proof.
  intros Hne. destruct (window_last _ Hne) as (t0 & L & Ht & HL).
  assert (∀ st2,
            window st2 = window st →
            ∃ st',
              step_fallback st2 = Ok st'
              ∧ window st' ≠ []
              ∧ length (predictions_rf st') = S (length (predictions_rf st2))
              ∧ length (predictions_gb st') = S (length (predictions_gb st2))) as Hfb.
  { intros st2 Hw. eexists. split; [apply (step_fallback_Ok _ t0 L); by rewrite Hw|].
    simpl. split; [rewrite Hw; by apply set_loc_nonempty|].
    rewrite !length_app. simpl. lia. }
  unfold forecast_step.
  destruct (step_features (sk:=sk) lags (window st)) as [X|e].
  2:{ destruct (Hfb st eq_refl) as (st' & -> & ? & Hr & Hg).
      exists st'. repeat split; [done|lia..]. }
  destruct (predict predictor (rf models) X) as [pred_rf|e].
  2:{ destruct (Hfb st eq_refl) as (st' & -> & ? & Hr & Hg).
      exists st'. repeat split; [done|lia..]. }
  destruct (match gb models with
            | Some gb_model => predict predictor gb_model X
            | None => Ok pred_rf
            end) as [pred_gb|e].
  - rewrite Ht. eexists. split; [done|]. simpl.
    split; [by apply set_loc_nonempty|]. rewrite !length_app. simpl. lia.
  - destruct (Hfb {| window := window st;
                     predictions_rf := (predictions_rf st ++ [pred_rf])%list;
                     predictions_gb := predictions_gb st |} eq_refl)
      as (st' & -> & ? & Hr & Hg).
    exists st'. simpl in Hr, Hg. rewrite length_app in Hr. simpl in Hr.
    repeat split; [done|lia..].
Qed.

Lemma forecast_loop_Ok steps st :
  window st ≠ [] →
  ∃ st', forecast_loop predictor models lags steps st = Ok st'
         ∧ (steps + length (predictions_rf st) ≤ length (predictions_rf st'))%nat
         ∧ (steps + length (predictions_gb st) ≤ length (predictions_gb st'))%nat.
Proof.
  revert st. induction steps as [|n IH]; intros st Hne.
  - exists st. simpl. repeat split; lia.
  - destruct (forecast_step_Ok st Hne) as (st1 & Hstep & Hne1 & Hrf & Hgb).
    destruct (IH st1 Hne1) as (st' & Hloop & Hrf' & Hgb').
    exists st'. simpl. rewrite Hstep. csimpl. split; [done|]. lia.
Qed.

(** The combination at the end, when both lists are long enough. *)
Lemma final_predictions_Ok steps st :
  (steps ≤ length (predictions_rf st))%nat →
  (steps ≤ length (predictions_gb st))%nat →
  final_predictions models steps st
  = Ok ((λ i, (default 0 (predictions_rf st !! i) * (weights models).1
               + default 0 (predictions_gb st !! i) * (weights models).2)%float)
          <$> seq 0 steps).
Proof.
  intros Hrf Hgb. unfold final_predictions. apply mapM_Ok.
  intros i [_ Hi]%elem_of_seq. simpl in Hi.
  destruct (lookup_lt_is_Some_2 (predictions_rf st) i) as [r ->]; [lia|].
  by destruct (lookup_lt_is_Some_2 (predictions_gb st) i) as [g ->]; [lia|].
Qed.

Lemma forecast_step_failing st :
  (∀ X, ∃ e, predict predictor (rf models) X = Raise e) →
  forecast_step predictor models lags st = step_fallback st.
Proof.
  intros Hfail. unfold forecast_step.
  destruct (step_features (sk:=sk) lags (window st)) as [X|e]; [|done].
  by destruct (Hfail X) as [e ->].
Qed.

Lemma forecast_loop_failing steps st k L :
  (∀ X, ∃ e, predict predictor (rf models) X = Raise e) →
  last (values (window st)) = Some L →
  predictions_rf st = replicate k L → predictions_gb st = replicate k L →
  ∃ st', forecast_loop predictor models lags steps st = Ok st'
         ∧ predictions_rf st' = replicate (steps + k) L
         ∧ predictions_gb st' = replicate (steps + k) L.
Proof.
  intros Hfail. revert st k. induction steps as [|n IH]; intros st k HL Hrf Hgb.
  - by exists st.
  - assert (window st ≠ []) as Hne by (intros Hw; by rewrite Hw in HL).
    destruct (window_last _ Hne) as (t0 & L' & Ht & HL').
    assert (L' = L) as -> by congruence.
    simpl. rewrite forecast_step_failing, (step_fallback_Ok _ t0 L) by done.
    csimpl.
    destruct (IH {| window := set_loc (window st) (next_hour t0) L;
                    predictions_rf := (predictions_rf st ++ [L])%list;
                    predictions_gb := (predictions_gb st ++ [L])%list |} (S k))
      as (st' & -> & Hrf' & Hgb').
    + simpl. apply (set_loc_last _ _ t0); [done..|apply next_hour_ne].
    + simpl. by rewrite Hrf, <- replicate_S_end.
    + simpl. by rewrite Hgb, <- replicate_S_end.
    + exists st'. split; [done|].
      rewrite Hrf', Hgb'.
      change (L :: replicate (n + k) L) with (replicate (S (n + k)) L).
      by replace (n + S k)%nat with (S (n + k)) by lia.
Qed.

Lemma step_features_Ok w :
  (0 < lags ≤ length w)%nat →
  (length w ≤ 48)%nat
  ∨ (∀ w' k, ∃ r, create_advanced_features sk w' k = Ok r) →
  ∃ X, step_features (sk:=sk) lags w = Ok X.
Proof.
  intros Hlags Hfeatures.
  assert (∃ X, lag_row lags (values w) = Ok X) as Hrow.
  { unfold lag_row.
    rewrite decide_True; [by eexists|]. rewrite length_iloc_tail.
    - by destruct lags; [lia|].
    - unfold values. rewrite length_fmap. lia. }
  unfold step_features. destruct (Nat.ltb_spec 48 (length w)); [|done].
  destruct Hfeatures as [?|Hfeatures]; [lia|].
  destruct (Hfeatures w (Nat.min lags (length w))) as [[X y] ->].
  cbn [mbind result_bind]. destruct (last (rows X)); [by eexists|done].
Qed.

Lemma forecast_loop_half_failing steps st k p L g :
  gb models = Some g →
  (∀ X, predict predictor (rf models) X = Ok p) →
  (∀ X, ∃ e, predict predictor g X = Raise e) →
  (0 < lags)%nat →
  (lags + k + steps ≤ 49)%nat
  ∨ (∀ w' k', ∃ r, create_advanced_features sk w' k' = Ok r) →
  (lags ≤ length (window st) ≤ lags + k)%nat →
  last (values (window st)) = Some L →
  predictions_rf st = concat (replicate k [p; L]) →
  predictions_gb st = replicate k L →
  ∃ st', forecast_loop predictor models lags steps st = Ok st'
         ∧ predictions_rf st' = concat (replicate (steps + k) [p; L])
         ∧ predictions_gb st' = replicate (steps + k) L.
Proof.
  intros Hg Hrf_ok Hgb_fail Hlags. revert st k.
  induction steps as [|n IH]; intros st k Hbound Hlen HL Hrf Hgb.
  - by exists st.
  - assert (window st ≠ []) as Hne by (intros Hw; by rewrite Hw in HL).
    destruct (window_last _ Hne) as (t0 & L' & Ht & HL').
    assert (L' = L) as -> by congruence.
    simpl. unfold forecast_step.
    destruct (step_features_Ok (window st)) as [X ->]; [lia| |].
    { destruct Hbound as [?|?]; [left; lia|by right]. }
    rewrite Hrf_ok, Hg.
    destruct (Hgb_fail X) as [e ->].
    rewrite (step_fallback_Ok _ t0 L) by done. csimpl.
    pose proof (set_loc_length (window st) (next_hour t0) L).
    destruct (IH {| window := set_loc (window st) (next_hour t0) L;
                    predictions_rf := ((predictions_rf st ++ [p]) ++ [L])%list;
                    predictions_gb := (predictions_gb st ++ [L])%list |} (S k))
      as (st' & -> & Hrf' & Hgb').
    + destruct Hbound as [?|?]; [left; lia|by right].
    + simpl. lia.
    + simpl. apply (set_loc_last _ _ t0); [done..|apply next_hour_ne].
    + cbn [predictions_rf]. rewrite Hrf, replicate_S_end, concat_app. simpl.
      by rewrite <- (assoc_L (++)).
    + simpl. by rewrite Hgb, <- replicate_S_end.
    + exists st'. split; [done|]. rewrite Hrf', Hgb'.
      by replace (n + S k)%nat with (S n + k)%nat by lia.
Qed.

Lemma forecast_loop_constant steps st k p q :
  (∀ X, predict predictor (rf models) X = Ok p) →
  (∀ g X, gb models = Some g → predict predictor g X = Ok q) →
  (gb models = None → q = p) →
  (0 < lags)%nat →
  (lags + k + steps ≤ 49)%nat
  ∨ (∀ w' k', ∃ r, create_advanced_features sk w' k' = Ok r) →
  (lags ≤ length (window st) ≤ lags + k)%nat →
  predictions_rf st = replicate k p →
  predictions_gb st = replicate k q →
  ∃ st', forecast_loop predictor models lags steps st = Ok st'
         ∧ predictions_rf st' = replicate (steps + k) p
         ∧ predictions_gb st' = replicate (steps + k) q.
Proof.
  intros Hrf_ok Hgb_ok Hnone Hlags. revert st k.
  induction steps as [|n IH]; intros st k Hbound Hlen Hrf Hgb.
  - by exists st.
  - assert (window st ≠ []) as Hne
      by (intros Hw; rewrite Hw in Hlen; simpl in Hlen; lia).
    destruct (window_last _ Hne) as (t0 & L & Ht & HL).
    simpl. unfold forecast_step.
    destruct (step_features_Ok (window st)) as [X ->]; [lia| |].
    { destruct Hbound as [?|?]; [left; lia|by right]. }
    rewrite Hrf_ok.
    assert (match gb models with
            | Some gb_model => predict predictor gb_model X
            | None => Ok p
            end = Ok q) as ->.
    { destruct (gb models) as [g|] eqn:Hg; [by apply Hgb_ok|by rewrite Hnone]. }
    rewrite Ht. cbn [mbind result_bind window predictions_rf predictions_gb].
    pose proof (set_loc_length (window st) (next_hour t0)
                  (p * (weights models).1 + q * (weights models).2)%float).
    destruct (IH {| window :=
                      set_loc (window st) (next_hour t0)
                        (p * (weights models).1 + q * (weights models).2)%float;
                    predictions_rf := (predictions_rf st ++ [p])%list;
                    predictions_gb := (predictions_gb st ++ [q])%list |} (S k))
      as (st' & -> & Hrf' & Hgb').
    + destruct Hbound as [?|?]; [left; lia|by right].
    + simpl. lia.
    + simpl. by rewrite Hrf, <- replicate_S_end.
    + simpl. by rewrite Hgb, <- replicate_S_end.
    + exists st'. split; [done|]. rewrite Hrf', Hgb'.
      by replace (n + S k)%nat with (S n + k)%nat by lia.
Qed.

End more_forecast_facts.

Lemma lookup_alternating (p L : float) k i :
  (i < 2 * k)%nat →
  concat (replicate k [p; L]) !! i = Some (if Nat.even i then p else L).
Proof.
  revert i. induction k as [|k IH]; intros i Hi; [lia|].
  destruct i as [|[|i]]; [done..|].
  change (concat (replicate (S k) [p; L]) !! S (S i))
    with (concat (replicate k [p; L]) !! i).
  rewrite IH by lia. done.
Qed.

Lemma Ok_inj {A} (x y : A) : Ok x = Ok y → x = y.
Proof.
  intros H.
  by apply (f_equal (λ r, match r with Ok a => a | Raise _ => x end)) in H.
Qed.

Lemma legacy_loop_Ok f lags n w preds :
  legacy_loop f lags n w = Ok preds →
  length preds = n
  ∧ ∀ k p, preds !! k = Some p →
           ∃ X, lag_row lags (w ++ take k preds) = Ok X ∧ f X = Ok p.
Proof.
  revert w preds. induction n as [|n IH]; intros w preds; simpl.
  - intros <-%Ok_inj. split; [done|]. by intros k p.
  - destruct (lag_row lags w) as [X|] eqn:HX; [|done]. csimpl.
    destruct (f X) as [pred|] eqn:Hf; [|done]. csimpl.
    destruct (legacy_loop f lags n (w ++ [pred])) as [rest|] eqn:Hrest; [|done].
    csimpl. intros <-%Ok_inj. destruct (IH _ _ Hrest) as [Hlen Hfeed].
    split; [simpl; by rewrite Hlen|].
    intros [|k] q Hq; simpl in Hq.
    + apply (inj Some) in Hq as <-. exists X. by rewrite take_0, app_nil_r.
    + destruct (Hfeed k q Hq) as (X' & HX' & Hf'). exists X'.
      rewrite <- (assoc_L (++)) in HX'. done.
Qed.

Lemma legacy_loop_returns f lags n w :
  (0 < lags ≤ length w)%nat → (∀ X, ∃ p, f X = Ok p) →
  ∃ preds, legacy_loop f lags n w = Ok preds.
Proof.
  intros Hlags Hf. revert w Hlags. induction n as [|n IH]; intros w Hlags; simpl.
  - by eexists.
  - unfold lag_row.
    destruct (decide (length (iloc_tail lags w) = lags)) as [_|Hbad].
    2:{ exfalso. apply Hbad. rewrite length_iloc_tail by lia.
        by destruct lags; [lia|]. }
    csimpl.
    destruct (Hf {| ncols := lags; rows := [iloc_tail lags w] |}) as [p ->].
    csimpl. destruct (IH (w ++ [p])%list) as [rest ->].
    + rewrite length_app. simpl. lia.
    + by eexists.
Qed.

(** X5.  [forecast_with_ensemble]: when the random forest predicts [p] and
    the gradient boosting model raises at every step, each step leaves
    two entries in [predictions_rf] ([p], appended before the exception,
    and the fall-back value [L]) but one in [predictions_gb]; the final
    combination pairs the lists by position, so the forecast alternates
    between [p * w_rf + L * w_gb] and the flat fall-back, as long as the
    feature construction does not raise: the window stays within 48
    entries, or [create_advanced_features] returns. *)
Theorem failed_second_model_misaligns {sk : Sklearn} (predictor : Predictor sk)
    (models : Models sk) (lags : nat) (series : Series) (steps : nat)
    (p L : float) (g : Regressor sk) :
  gb models = Some g →
  (∀ X, predict predictor (rf models) X = Ok p) →
  (∀ X, ∃ e, predict predictor g X = Raise e) →
  (0 < lags ≤ length (dropna series))%nat →
  (lags + steps ≤ 49)%nat
  ∨ (∀ w k, ∃ r, create_advanced_features sk w k = Ok r) →
  last (values (dropna series)) = Some L →
  forecast_with_ensemble predictor models lags series steps
  = Ok ((λ i, ((if Nat.even i then p else L) * (weights models).1
               + L * (weights models).2)%float) <$> seq 0 steps).
Proof.
  intros Hg Hrf_ok Hgb_fail Hlags Hsteps HL. unfold forecast_with_ensemble.
  destruct (Nat.ltb_spec (length (dropna series)) lags); [lia|].
  assert (dropna series ≠ []) as Hne by (intros Hw; by rewrite Hw in HL).
  destruct (forecast_loop_half_failing predictor models lags steps
              {| window := iloc_tail lags (dropna series);
                 predictions_rf := []; predictions_gb := [] |} 0 p L g)
    as (st' & -> & Hrf & Hgb); try done.
  - lia.
  - destruct Hsteps as [?|?]; [left; lia|by right].
  - simpl. rewrite length_iloc_tail by lia. destruct lags; lia.
  - simpl. unfold values. rewrite fmap_last, last_iloc_tail by (done || lia).
    by rewrite <- fmap_last.
  - csimpl. rewrite Nat.add_0_r in Hrf, Hgb.
    rewrite final_predictions_Ok.
    + f_equal. apply list_fmap_ext. intros j i [-> Hi]%lookup_seq. simpl.
      rewrite Hrf, Hgb, lookup_alternating, lookup_replicate_2 by lia. done.
    + rewrite Hrf. clear. induction steps; simpl; lia.
    + rewrite Hgb, length_replicate. lia.
Qed.

Lemma failed_second_model_misaligns_witness :
  forecast_with_ensemble ForecastSample.half_failing ForecastSample.models 24
    (Sample.constant_series 30) 4
  = Ok ((λ i, ((if Nat.even i then 30 else 20) * (weights ForecastSample.models).1
               + 20 * (weights ForecastSample.models).2)%float) <$> seq 0 4).
Proof.
  apply (failed_second_model_misaligns ForecastSample.half_failing
           ForecastSample.models 24 (Sample.constant_series 30) 4 30%float 20%float
           false).
  - reflexivity.
  - intros X. reflexivity.
  - intros X. eexists. reflexivity.
  - vm_compute. lia.
  - left. lia.
  - vm_compute. reflexivity.
Defined.

(** X6.  [forecast_with_model], old model format: with a positive lag
    count not above the number of clean observations and a regressor that
    does not raise, the function returns one prediction per step, and the
    prediction of step [k] is the regressor applied to the last lags of
    the clean observations followed by the [k] earlier predictions: each
    prediction is fed back into the window. *)
Theorem legacy_forecast_feeds_back {sk : Sklearn} (predictor : Predictor sk)
    (f : Features → result float) (series : Series) (steps lags : nat) :
  (0 < lags ≤ length (dropna series))%nat →
  (∀ X, ∃ p, f X = Ok p) →
  ∃ preds,
    forecast_with_model predictor (inr f) series steps lags = Ok preds
    ∧ length preds = steps
    ∧ ∀ k p, preds !! k = Some p →
        ∃ X, lag_row lags (iloc_tail lags (values (dropna series)) ++ take k preds)
             = Ok X
             ∧ f X = Ok p.
Proof.
  intros Hlags Hf. unfold forecast_with_model.
  destruct (Nat.ltb_spec (length (dropna series)) lags); [lia|].
  destruct (legacy_loop_returns f lags steps
              (iloc_tail lags (values (dropna series)))) as [preds Hpreds];
    [|done|].
  - rewrite length_iloc_tail by (unfold values; rewrite length_fmap; lia).
    destruct lags; lia.
  - exists preds. split; [done|]. by apply legacy_loop_Ok.
Qed.

Lemma legacy_forecast_feeds_back_witness :
  ∃ preds,
    forecast_with_model ForecastSample.failing (inr ForecastSample.last_plus_one)
      (Sample.constant_series 30) 3 24 = Ok preds
    ∧ length preds = 3%nat
    ∧ ∀ k p, preds !! k = Some p →
        ∃ X, lag_row 24
               (iloc_tail 24 (values (dropna (Sample.constant_series 30)))
                ++ take k preds) = Ok X
             ∧ ForecastSample.last_plus_one X = Ok p.
Proof.
  apply (legacy_forecast_feeds_back ForecastSample.failing
           ForecastSample.last_plus_one (Sample.constant_series 30) 3 24).
  - vm_compute. lia.
  - intros X. eexists. reflexivity.
Defined.

(** X7.  [forecast_with_ensemble]: when the random forest predicts [p]
    and the second model predicts [q] at every step ([q] is [p] when there
    is no second model), every prediction is [p * w_rf + q * w_gb], as long
    as the feature construction does not raise: the window stays within
    48 entries, or [create_advanced_features] returns. *)
Theorem constant_models_forecast {sk : Sklearn} (predictor : Predictor sk)
    (models : Models sk) (lags : nat) (series : Series) (steps : nat) (p q : float) :
  (∀ X, predict predictor (rf models) X = Ok p) →
  (∀ g X, gb models = Some g → predict predictor g X = Ok q) →
  (gb models = None → q = p) →
  (0 < lags ≤ length (dropna series))%nat →
  (lags + steps ≤ 49)%nat
  ∨ (∀ w k, ∃ r, create_advanced_features sk w k = Ok r) →
  forecast_with_ensemble predictor models lags series steps
  = Ok (replicate steps (p * (weights models).1 + q * (weights models).2)%float).
Proof.
  intros Hrf_ok Hgb_ok Hnone Hlags Hfeatures. unfold forecast_with_ensemble.
  destruct (Nat.ltb_spec (length (dropna series)) lags); [lia|].
  destruct (forecast_loop_constant predictor models lags steps
              {| window := iloc_tail lags (dropna series);
                 predictions_rf := []; predictions_gb := [] |} 0 p q)
    as (st' & -> & Hrf & Hgb); try done.
  - lia.
  - destruct Hfeatures as [?|?]; [left; lia|by right].
  - simpl. rewrite length_iloc_tail by lia. destruct lags; lia.
  - cbn [mbind result_bind]. rewrite Nat.add_0_r in Hrf, Hgb.
    rewrite final_predictions_Ok by (rewrite ?Hrf, ?Hgb, length_replicate; lia).
    f_equal. rewrite Hrf, Hgb.
    apply list_eq. intros i. rewrite list_lookup_fmap.
    destruct (decide (i < steps)%nat) as [Hi|Hi].
    + rewrite lookup_seq_lt by done. simpl.
      by rewrite !lookup_replicate_2 by done.
    + rewrite lookup_seq_ge by lia. simpl. symmetry.
      apply lookup_replicate_None. lia.
Qed.

Lemma constant_models_forecast_witness :
  forecast_with_ensemble (ForecastSample.steady 30 10) ForecastSample.models 24
    (Sample.constant_series 30) 5
  = Ok (replicate 5 (30 * (weights ForecastSample.models).1
                     + 10 * (weights ForecastSample.models).2)%float).
Proof.
  apply (constant_models_forecast (ForecastSample.steady 30 10)
           ForecastSample.models 24 (Sample.constant_series 30) 5 30%float 10%float).
  - intros X. reflexivity.
  - intros g X Hg. apply (f_equal (λ o, default true o)) in Hg. simpl in Hg.
    by subst g.
  - intros Hg. discriminate Hg.
  - vm_compute. lia.
  - left. lia.
Defined.

Lemma forecast_from_window {sk : Sklearn} (predictor : Predictor sk)
    (models : Models sk) (lags steps : nat) (w : Series) :
  w ≠ [] →
  ∃ preds,
    (st ← forecast_loop predictor models lags steps
            {| window := w; predictions_rf := []; predictions_gb := [] |};
     final_predictions models steps st) = Ok preds
    ∧ length preds = steps.
Proof.
  intros Hne.
  destruct (forecast_loop_Ok predictor models lags steps
              {| window := w; predictions_rf := []; predictions_gb := [] |} Hne)
    as (st' & -> & Hrf & Hgb).
  cbn [mbind result_bind]. simpl in Hrf, Hgb.
  rewrite final_predictions_Ok by lia.
  eexists. split; [done|]. by rewrite length_fmap, length_seq.
Qed.

Lemma iloc_tail_nonempty {A} (k : nat) (l : list A) :
  (k ≤ length l)%nat → l ≠ [] → iloc_tail k l ≠ [].
Proof.
  intros Hk Hne Hnil. apply (f_equal length) in Hnil.
  rewrite length_iloc_tail in Hnil by done.
  destruct l; [done|]. destruct k; simpl in *; lia.
Qed.

(** X8.  [forecast_with_ensemble]: with a positive lag count, or with at
    least one clean observation, the function returns without raising and
    gives exactly one prediction for each requested step, whatever the
    models and the feature construction do at each step. *)
Theorem forecast_returns_every_step {sk : Sklearn} (predictor : Predictor sk)
    (models : Models sk) (lags : nat) (series : Series) (steps : nat) :
  (0 < lags)%nat ∨ dropna series ≠ [] →
  ∃ preds,
    forecast_with_ensemble predictor models lags series steps = Ok preds
    ∧ length preds = steps.
Proof.
  intros H. unfold forecast_with_ensemble.
  destruct (Nat.ltb_spec (length (dropna series)) lags) as [Hshort|Hlong].
  - eexists. split; [done|]. by rewrite length_replicate.
  - apply forecast_from_window, iloc_tail_nonempty; [done|].
    destruct H as [H|H]; [|done]. intros Hnil. rewrite Hnil in Hlong.
    simpl in Hlong. lia.
Qed.

Lemma forecast_returns_every_step_witness :
  ∃ preds,
    forecast_with_ensemble ForecastSample.half_failing ForecastSample.models 24
      (Sample.constant_series 30) 5 = Ok preds
    ∧ length preds = 5%nat.
Proof.
  apply (forecast_returns_every_step ForecastSample.half_failing
           ForecastSample.models 24 (Sample.constant_series 30) 5).
  left. lia.
Defined.

(** X9.  [forecast_with_ensemble]: when the random forest raises at every
    step, every prediction is the last clean observation [L] combined
    with itself under the two weights, [L * w_rf + L * w_gb]; a series
    with fewer clean points than lags gives [L] itself at every step. *)
Theorem failing_model_flat_forecast {sk : Sklearn} (predictor : Predictor sk)
    (models : Models sk) (lags : nat) (series : Series) (steps : nat) (L : float) :
  (∀ X, ∃ e, predict predictor (rf models) X = Raise e) →
  last (values (dropna series)) = Some L →
  forecast_with_ensemble predictor models lags series steps
  = Ok (replicate steps
          (if (length (dropna series) <? lags)%nat then L
           else (L * (weights models).1 + L * (weights models).2)%float)).
Proof.
  intros Hfail HL. unfold forecast_with_ensemble.
  destruct (Nat.ltb_spec (length (dropna series)) lags) as [Hshort|Hlong].
  - by rewrite HL.
  - assert (dropna series ≠ []) as Hne by (intros Hw; by rewrite Hw in HL).
    destruct (forecast_loop_failing predictor models lags steps
                {| window := iloc_tail lags (dropna series);
                   predictions_rf := []; predictions_gb := [] |} 0 L Hfail)
      as (st' & -> & Hrf & Hgb); [|done..|].
    + simpl. unfold values. rewrite fmap_last, last_iloc_tail by done.
      by rewrite <- fmap_last.
    + csimpl. rewrite Nat.add_0_r in Hrf, Hgb.
      rewrite final_predictions_Ok
        by (rewrite ?Hrf, ?Hgb, length_replicate; lia).
      f_equal. rewrite Hrf, Hgb.
      apply list_eq. intros i. rewrite list_lookup_fmap.
      destruct (decide (i < steps)%nat) as [Hi|Hi].
      * rewrite lookup_seq_lt by done. simpl.
        by rewrite !lookup_replicate_2 by done.
      * rewrite lookup_seq_ge by lia. simpl. symmetry.
        apply lookup_replicate_None. lia.
Qed.

Lemma failing_model_flat_forecast_witness :
  forecast_with_ensemble ForecastSample.failing ForecastSample.models 24
    (Sample.constant_series 30) 3
  = Ok (replicate 3
          (if (length (dropna (Sample.constant_series 30)) <? 24)%nat then 20%float
           else (20 * (weights ForecastSample.models).1
                 + 20 * (weights ForecastSample.models).2)%float)).
Proof.
  apply (failing_model_flat_forecast ForecastSample.failing ForecastSample.models
           24 (Sample.constant_series 30) 3 20%float).
  - intros X. eexists. reflexivity.
  - vm_compute. reflexivity.
Defined.

(** ** Blending on differing indexes *)

#[local] Instance time_le_transitive : Transitive time_le.
Proof. intros a b c. unfold time_le. lia. Qed.

#[local] Instance time_le_total : Total time_le.
Proof. intros a b. unfold time_le. lia. Qed.

Lemma common_times_sorted (a b : list Timestamp) :
  StronglySorted time_le (common_times a b).
Proof. unfold common_times. apply StronglySorted_merge_sort; apply _. Qed.

Lemma common_times_NoDup (a b : list Timestamp) : NoDup (common_times a b).
Proof.
  unfold common_times. rewrite merge_sort_Permutation. apply NoDup_remove_dups.
Qed.

(** X10.  [blend_ml_and_api]: when the two indexes differ and blending
    succeeds, the result is indexed by exactly the timestamps the two
    series share, in ascending order and each once, whatever the order of
    the inputs. *)
Theorem blend_on_common_times (ml api : Series) (alpha : float) (res : Series) :
  index ml ≠ index api →
  blend_ml_and_api ml api alpha = Ok res →
  index res = common_times (index ml) (index api)
  ∧ StronglySorted time_le (index res)
  ∧ NoDup (index res)
  ∧ (∀ t, t ∈ index res ↔ t ∈ index ml ∧ t ∈ index api).
Proof.
  intros Hne Hres.
  assert (NoDup (index ml) ∧ NoDup (index api)) as [Hml Hapi].
  { revert Hres. unfold blend_ml_and_api.
    destruct (index_mismatch (index ml) (index api)) eqn:E;
      [|by apply index_mismatch_false in E].
    unfold reindex.
    destruct (decide (NoDup (index ml))); [|done].
    by destruct (decide (NoDup (index api))). }
  rewrite (blend_aligned ml api alpha Hne Hml Hapi) in Hres.
  apply Ok_inj in Hres as <-.
  assert (index ((λ t, (t, blend_value alpha (at_label ml t) (at_label api t)))
                   <$> common_times (index ml) (index api))
          = common_times (index ml) (index api)) as ->.
  { unfold index. rewrite <- list_fmap_compose. apply list_fmap_id. }
  split; [done|]. split; [apply common_times_sorted|].
  split; [apply common_times_NoDup|]. intros t. apply common_times_elem.
Qed.

Lemma blend_on_common_times_witness :
  let ml := Sample.constant_series 3 in
  let api := Sample.constant_series 2 in
  let res := [(Sample.stamp 0, blend_value 0.6%float 20%float 20%float);
              (Sample.stamp 1, blend_value 0.6%float 20%float 20%float)] in
  index res = common_times (index ml) (index api)
  ∧ StronglySorted time_le (index res)
  ∧ NoDup (index res)
  ∧ (∀ t, t ∈ index res ↔ t ∈ index ml ∧ t ∈ index api).
Proof.
  intros ml api res.
  apply (blend_on_common_times ml api 0.6%float res).
  - vm_compute. intros H. discriminate H.
  - vm_compute. reflexivity.
Defined.

(** X11.  [blend_ml_and_api]: when the two indexes differ and one of them
    repeats a timestamp, the re-indexing raises [ValueError] and no blended
    series is produced. *)
Theorem blend_rejects_duplicates (ml api : Series) (alpha : float) :
  index ml ≠ index api →
  ¬ (NoDup (index ml) ∧ NoDup (index api)) →
  ∃ msg, blend_ml_and_api ml api alpha = Raise (ValueError msg).
Proof.
  intros Hne Hdup. unfold blend_ml_and_api.
  destruct (index_mismatch (index ml) (index api)) eqn:E;
    [|by apply index_mismatch_false in E].
  unfold reindex.
  destruct (decide (NoDup (index ml))); csimpl; [|by eexists].
  destruct (decide (NoDup (index api))); csimpl; [tauto|by eexists].
Qed.

Lemma blend_rejects_duplicates_witness :
  ∃ msg,
    blend_ml_and_api ForecastSample.repeated_label (Sample.constant_series 1)
      0.6%float
    = Raise (ValueError msg).
Proof.
  apply (blend_rejects_duplicates ForecastSample.repeated_label
           (Sample.constant_series 1) 0.6%float).
  - vm_compute. intros H. discriminate H.
  - intros [H _]. vm_compute in H. apply NoDup_cons in H as [H _].
    apply H. apply list_elem_of_here.
Defined.

End more_ml_facts.

(** * Further facts: weather frames and current conditions *)

Section more_weather_facts.
Import Weather.

Lemma first_Some_at {A B} (f : A → option B) (d : B) pre x post y :
  Forall (λ a, f a = None) pre → f x = Some y →
  default d (list_find is_Some (f <$> (pre ++ x :: post)%list) ≫= snd) = y.
Proof.
  intros Hpre Hx. induction Hpre as [|a pre Ha _ IH]; csimpl.
  - rewrite Hx. by rewrite decide_True by done.
  - rewrite Ha. rewrite decide_False by (by intros [? ?]).
    destruct (list_find is_Some (f <$> (pre ++ x :: post)%list)) as [[i o]|];
      by csimpl in *.
Qed.

Lemma first_Some_none {A B} (f : A → option B) (d : B) l :
  Forall (λ a, f a = None) l →
  default d (list_find is_Some (f <$> l) ≫= snd) = d.
Proof.
  intros Hl. induction Hl as [|a l Ha _ IH]; csimpl; [done|].
  rewrite Ha. rewrite decide_False by (by intros [? ?]).
  destruct (list_find is_Some (f <$> l)) as [[i o]|]; by csimpl in *.
Qed.

Lemma archive_answer (r : Response) :
  match r with
  | Http 200 body => process_body body
  | Http _ _ => None
  | RequestFailed _ => None
  end = answer (λ s, s =? 200) r.
Proof.
  destruct r as [e|s body]; [done|]. simpl.
  destruct (Z.eqb_spec s 200) as [->|Hne]; [done|].
  destruct s as [|p|p]; try done.
  repeat (destruct p as [p|p|]; try done).
Qed.

Lemma forecast_answer (r : Response) :
  match r with
  | Http status body =>
      if (400 <=? status) && (status <? 600) then None else process_body body
  | RequestFailed _ => None
  end = answer (λ s, negb ((400 <=? s) && (s <? 600))) r.
Proof. destruct r as [e|s body]; [done|]. simpl. by destruct (_ && _). Qed.

Lemma fetch_forecast_find api lat lon days :
  fetch_forecast api lat lon days
  = default [] (list_find is_Some
                  ((λ variables,
                      answer (λ s, negb ((400 <=? s) && (s <? 600)))
                        (forecast_get api
                           {| f_latitude := lat; f_longitude := lon;
                              f_hourly_variables := variables;
                              forecast_days := Z.min days 14 |}))
                     <$> variable_sets) ≫= snd).
Proof.
  unfold fetch_forecast. do 3 f_equal.
  apply list_fmap_ext. intros _ variables _. by rewrite forecast_answer.
Qed.

Lemma date_sub_cases d n :
  date_sub d n
  = if (Z.abs n <=? 999999999) && (date_min <=? d - n) && (d - n <=? date_max)
    then Ok (d - n)
    else Raise (OtherError (if Z.abs n <=? 999999999
                            then "date value out of range"
                            else "days out of range for timedelta")).
Proof.
  unfold date_sub. destruct (Z.abs n <=? 999999999); [|done].
  simpl. by destruct (_ && _).
Qed.

Lemma fetch_historical_find api lat lon days :
  (date_min <=? today api - 3) && (today api - 3 <=? date_max)
  && (Z.abs days <=? 999999999)
  && (date_min <=? today api - 3 - days) && (today api - 3 - days <=? date_max)
  = true →
  fetch_historical api lat lon days
  = Ok (default [] (list_find is_Some
                      ((λ variables,
                          answer (λ s, s =? 200)
                            (archive_get api
                               {| latitude := lat; longitude := lon;
                                  start_date := Z.max min_date (today api - 3 - days);
                                  end_date := today api - 3;
                                  hourly_variables := variables |}))
                         <$> variable_sets) ≫= snd)).
Proof.
  intros Hdates. unfold fetch_historical. rewrite !date_sub_cases.
  change (Z.abs 3 <=? 999999999) with true.
  repeat (apply andb_prop in Hdates as [Hdates ?]).
  cbn [andb]. rewrite Hdates, H2. cbn [andb mbind result_bind].
  rewrite date_sub_cases, H1, H0, H. cbn [andb mbind result_bind].
  do 4 f_equal.
  apply list_fmap_ext. intros _ variables _. rewrite archive_answer.
  do 3 f_equal.
  destruct (Z.ltb_spec (today api - 3 - days) min_date); lia.
Qed.

Lemma fetch_historical_overflow api lat lon days :
  (date_min <=? today api - 3) && (today api - 3 <=? date_max)
  && (Z.abs days <=? 999999999)
  && (date_min <=? today api - 3 - days) && (today api - 3 - days <=? date_max)
  = false →
  ∃ message, fetch_historical api lat lon days = Raise (OtherError message).
Proof.
  intros Hdates. unfold fetch_historical. rewrite !date_sub_cases.
  change (Z.abs 3 <=? 999999999) with true. cbn [andb].
  destruct (date_min <=? today api - 3); [|by eexists].
  destruct (today api - 3 <=? date_max); [|by eexists].
  cbn [andb mbind result_bind] in *. rewrite date_sub_cases.
  destruct (Z.abs days <=? 999999999); [|by eexists].
  cbn [andb] in *. rewrite Hdates. by eexists.
Qed.

(** X12.  [fetch_forecast] and [fetch_historical]: the frame returned is
    the one of the first variable list, in the order of [variable_sets],
    whose response is accepted; the lists after it play no part, and when
    no list is accepted the result is the empty frame.  The forecast
    fetcher accepts every status but 400 to 599, the archive fetcher only
    200, and the archive is asked for the days from
    [max(2020-01-01, today - 3 - days)] to [today - 3].  The archive
    fetcher returns when [today - 3] and [today - 3 - days] are dates (of
    the years 1 to 9999) and [days] is within the range of [timedelta];
    otherwise the date arithmetic before the loop raises. *)
Theorem fetch_fallback_order (api : Api) (lat lon : float) (days : Z) :
  let forecast variables :=
    answer (λ s, negb ((400 <=? s) && (s <? 600)))
      (forecast_get api {| f_latitude := lat; f_longitude := lon;
                           f_hourly_variables := variables;
                           forecast_days := Z.min days 14 |}) in
  let archive variables :=
    answer (λ s, s =? 200)
      (archive_get api {| latitude := lat; longitude := lon;
                          start_date := Z.max min_date (today api - 3 - days);
                          end_date := today api - 3;
                          hourly_variables := variables |}) in
  let dates_valid :=
    (date_min <=? today api - 3) && (today api - 3 <=? date_max)
    && (Z.abs days <=? 999999999)
    && (date_min <=? today api - 3 - days) && (today api - 3 - days <=? date_max) in
  (∀ pre variables post df,
     variable_sets = (pre ++ variables :: post)%list →
     Forall (λ v, forecast v = None) pre → forecast variables = Some df →
     fetch_forecast api lat lon days = df)
  ∧ (Forall (λ v, forecast v = None) variable_sets →
     fetch_forecast api lat lon days = [])
  ∧ (dates_valid = true →
     ∀ pre variables post df,
       variable_sets = (pre ++ variables :: post)%list →
       Forall (λ v, archive v = None) pre → archive variables = Some df →
       fetch_historical api lat lon days = Ok df)
  ∧ (dates_valid = true →
     Forall (λ v, archive v = None) variable_sets →
     fetch_historical api lat lon days = Ok [])
  ∧ (dates_valid = false →
     ∃ message, fetch_historical api lat lon days = Raise (OtherError message)).
Proof.
  intros forecast archive dates_valid.
  rewrite fetch_forecast_find. fold forecast.
  split; [|split; [|split; [|split]]].
  - intros pre variables post df -> Hpre Hv. by apply first_Some_at.
  - apply first_Some_none.
  - intros Hdates pre variables post df Hsets Hpre Hv.
    rewrite fetch_historical_find by done. fold archive.
    rewrite Hsets. f_equal. by apply first_Some_at.
  - intros Hdates Hnone. rewrite fetch_historical_find by done. fold archive.
    f_equal. by apply first_Some_none.
  - apply fetch_historical_overflow.
Qed.

Lemma fetch_fallback_order_witness :
  fetch_forecast WeatherSample.degraded 18.5204%float 73.8567%float 7
  = sort_values [MainSample.row 0 20.5; MainSample.row 1 21.5; MainSample.row 2 22.5]
  ∧ fetch_forecast WeatherSample.refused 18.5204%float 73.8567%float 7 = []
  ∧ fetch_historical WeatherSample.archived 18.5204%float 73.8567%float 60
    = Ok (sort_values [MainSample.row 0 20.5; MainSample.row 1 21.5;
                       MainSample.row 2 22.5])
  ∧ fetch_historical WeatherSample.degraded 18.5204%float 73.8567%float 60 = Ok []
  ∧ ∃ message,
      fetch_historical WeatherSample.degraded 18.5204%float 73.8567%float
        1000000000
      = Raise (OtherError message).
Proof.
  destruct (fetch_fallback_order WeatherSample.degraded 18.5204%float
              73.8567%float 7) as (Hfirst & _ & _ & _ & _).
  destruct (fetch_fallback_order WeatherSample.refused 18.5204%float
              73.8567%float 7) as (_ & Hrefused & _ & _ & _).
  destruct (fetch_fallback_order WeatherSample.archived 18.5204%float
              73.8567%float 60) as (_ & _ & Harchived & _ & _).
  destruct (fetch_fallback_order WeatherSample.degraded 18.5204%float
              73.8567%float 60) as (_ & _ & _ & Hnone & _).
  destruct (fetch_fallback_order WeatherSample.degraded 18.5204%float
              73.8567%float 1000000000) as (_ & _ & _ & _ & Hraise).
  split; [|split; [|split; [|split]]].
  - apply (Hfirst (take 3 variable_sets) "temperature_2m,relativehumidity_2m" []).
    + reflexivity.
    + repeat constructor.
    + vm_compute. reflexivity.
  - apply Hrefused. repeat constructor.
  - apply (Harchived eq_refl (take 2 variable_sets)
             "temperature_2m,relativehumidity_2m,shortwave_radiation,cloudcover"
             (drop 3 variable_sets)).
    + reflexivity.
    + repeat constructor.
    + vm_compute. reflexivity.
  - apply Hnone; [reflexivity|]. repeat constructor.
  - apply Hraise. reflexivity.
Defined.

Lemma to_datetime_stamps cells stamps :
  to_datetime cells = Ok stamps →
  stamps = (λ c, aware <$> time_instant c) <$> cells.
Proof.
  unfold to_datetime. revert stamps.
  induction cells as [|c cells IH]; intros stamps; csimpl.
  - by intros [= <-].
  - destruct c as [i| |]; csimpl; [| |done];
      destruct (mapM _ cells) as [rest|]; csimpl; try done;
      intros [= <-]; csimpl; by rewrite (IH rest).
Qed.

Lemma elem_of_zip_seq {A} (l : list A) i x :
  (i, x) ∈ zip (seq 0 (length l)) l ↔ l !! i = Some x.
Proof.
  rewrite list_elem_of_lookup. split.
  - intros [j Hj]. apply lookup_zip_with_Some in Hj as (i' & x' & [= -> ->] & Hi & Hx).
    apply lookup_seq in Hi as [-> _]. done.
  - intros Hx. exists i. apply lookup_zip_with_Some. exists i, x.
    split; [done|]. split; [|done]. apply lookup_seq. split; [done|].
    by apply lookup_lt_Some in Hx.
Qed.

Lemma cell_make_row h i t v : cell v (make_row h i t) = payload_value h v i.
Proof.
  transitivity (default nan (df_column h v !! i)); [by destruct v|].
  unfold df_column, payload_value. destruct (h_column h v) as [xs|]; [done|].
  destruct (replicate (length (h_time h)) nan !! i) as [x|] eqn:Hx; [|done].
  by apply lookup_replicate in Hx as [-> _].
Qed.

Lemma build_frame_rows h df :
  build_frame h = Ok df →
  (∀ r, r ∈ df ↔ ∃ i instant,
                   h_time h !! i = Some (TimeStr instant)
                   ∧ r = make_row h i (aware instant))
  ∧ (∀ v xs, h_column h v = Some xs → length xs = length (h_time h)).
Proof.
  unfold build_frame.
  destruct (to_datetime (h_time h)) as [stamps|] eqn:Hs; [|done].
  cbn [mbind result_bind].
  apply to_datetime_stamps in Hs.
  match goal with
  | |- context [if ?b then _ else _] => destruct b eqn:Hlen
  end; [|done].
  intros <-%Ok_inj. split.
  - intros r. rewrite list_elem_of_omap. split.
    + intros ([i ot] & Hin & Hrow). apply elem_of_zip_seq in Hin.
      rewrite Hs, list_lookup_fmap in Hin. simpl in Hrow.
      destruct (h_time h !! i) as [c|] eqn:Hc; [|done]. simpl in Hin.
      apply (inj Some) in Hin as <-.
      destruct c as [instant| |]; [|done..]. simpl in Hrow.
      apply (inj Some) in Hrow as <-. by exists i, instant.
    + intros (i & instant & Hc & ->). exists (i, Some (aware instant)).
      split; [|done]. apply elem_of_zip_seq.
      by rewrite Hs, list_lookup_fmap, Hc.
  - intros v xs Hv. rewrite forallb_forall in Hlen.
    assert (In v all_columns) as Hin by (destruct v; simpl; tauto).
    apply Hlen in Hin. apply bool_decide_eq_true in Hin.
    unfold df_column in Hin. rewrite Hv in Hin.
    by rewrite Hin, Hs, length_fmap.
Qed.

Lemma process_body_frame body df :
  process_body body = Some df →
  ∃ data h df0,
    body = Some data ∧ hourly data = Some h
    ∧ build_frame h = Ok df0 ∧ df = sort_values df0.
Proof.
  unfold process_body. destruct body as [data|]; [|done].
  destruct (has_error data || has_reason data); [done|].
  destruct (hourly data) as [h|] eqn:Hh; [|done].
  destruct (h_time h) eqn:Ht; [done|].
  destruct (build_frame h) as [[|r df0]|] eqn:Hb; [done| |done].
  intros [= <-]. by exists data, h, (r :: df0).
Qed.

(** X13.  [fetch_historical] and [fetch_forecast], the frame made of an
    accepted body: its rows are exactly the positions of the time array
    that are not null, each row carrying the values the payload holds at
    its own position, so sorting by time never detaches a value from its
    timestamp; a variable the payload lacks is missing in every row, and a
    variable whose array is shorter or longer than the time array makes
    the body rejected. *)
Theorem accepted_frame_rows (body : option Body) (df : DataFrame) :
  process_body body = Some df →
  ∃ data h,
    body = Some data ∧ hourly data = Some h
    ∧ (∀ r, r ∈ df →
         ∃ i instant,
           h_time h !! i = Some (TimeStr instant) ∧ time r = aware instant
           ∧ ∀ v, cell v r = payload_value h v i)
    ∧ (∀ i instant,
         h_time h !! i = Some (TimeStr instant) →
         ∃ r, r ∈ df ∧ time r = aware instant ∧ ∀ v, cell v r = payload_value h v i)
    ∧ length df = length (instants h)
    ∧ (∀ v xs, h_column h v = Some xs → length xs = length (h_time h)).
Proof.
  intros Hdf.
  destruct (process_body_accepts _ _ Hdf) as (_ & _ & data' & h' & Hb' & Hh' & Hperm).
  destruct (process_body_frame _ _ Hdf) as (data & h & df0 & -> & Hh & Hb & ->).
  apply (inj Some) in Hb' as <-. rewrite Hh in Hh'. apply (inj Some) in Hh' as <-.
  destruct (build_frame_rows _ _ Hb) as [Hrows Hlen].
  exists data, h. split; [done|]. split; [done|].
  split; [|split; [|split]].
  - intros r Hr. rewrite sort_values_Permutation in Hr.
    apply Hrows in Hr as (i & instant & Hc & ->).
    exists i, instant. split; [done|]. split; [done|].
    intros v. apply cell_make_row.
  - intros i instant Hc. exists (make_row h i (aware instant)).
    split; [|split; [done|intros v; apply cell_make_row]].
    rewrite sort_values_Permutation. apply Hrows. by exists i, instant.
  - apply Permutation_length in Hperm. unfold times in Hperm.
    by rewrite !length_fmap in Hperm.
  - done.
Qed.

Lemma accepted_frame_rows_witness :
  ∃ data h,
    MainSample.body_of MainSample.regular = Some data ∧ hourly data = Some h
    ∧ (∀ r, r ∈ sort_values [MainSample.row 0 20.5; MainSample.row 1 21.5;
                              MainSample.row 2 22.5] →
         ∃ i instant,
           h_time h !! i = Some (TimeStr instant) ∧ time r = aware instant
           ∧ ∀ v, cell v r = payload_value h v i)
    ∧ (∀ i instant,
         h_time h !! i = Some (TimeStr instant) →
         ∃ r, r ∈ sort_values [MainSample.row 0 20.5; MainSample.row 1 21.5;
                               MainSample.row 2 22.5]
              ∧ time r = aware instant ∧ ∀ v, cell v r = payload_value h v i)
    ∧ length (sort_values [MainSample.row 0 20.5; MainSample.row 1 21.5;
                           MainSample.row 2 22.5]) = length (instants h)
    ∧ (∀ v xs, h_column h v = Some xs → length xs = length (h_time h)).
Proof.
  apply (accepted_frame_rows (MainSample.body_of MainSample.regular)).
  vm_compute. reflexivity.
Defined.

Lemma closest_row_fold now (seen : list Row) (b : Row) (l : list Row) :
  first_nearest now seen b →
  ∃ r,
    foldl (λ best r,
             match best with
             | None => Some r
             | Some b => if time_diff now r <? time_diff now b then Some r else Some b
             end) (Some b) l = Some r
    ∧ first_nearest now (seen ++ l)%list r.
Proof.
  revert seen b. induction l as [|x l IH]; intros seen b Hb.
  - exists b. by rewrite app_nil_r.
  - simpl. destruct Hb as (pre & post & -> & Hpre & Hpost).
    destruct (Z.ltb_spec (time_diff now x) (time_diff now b)) as [Hlt|Hge].
    + destruct (IH ((pre ++ b :: post) ++ [x])%list x) as (r & Hr & Hnear).
      * exists (pre ++ b :: post)%list, []. split; [done|]. split; [|done].
        apply Forall_app. split; [|apply Forall_cons; split; [done|]].
        -- eapply Forall_impl; [exact Hpre|]. simpl. lia.
        -- eapply Forall_impl; [exact Hpost|]. simpl. lia.
      * exists r. split; [done|]. by rewrite <- (assoc_L (++)) in Hnear.
    + destruct (IH ((pre ++ b :: post) ++ [x])%list b) as (r & Hr & Hnear).
      * exists pre, (post ++ [x])%list.
        split; [by rewrite <- (assoc_L (++))|]. split; [done|].
        apply Forall_app. split; [done|]. by apply Forall_singleton.
      * exists r. split; [done|]. by rewrite <- (assoc_L (++)) in Hnear.
Qed.

Lemma closest_row_nearest now df :
  df ≠ [] → ∃ r, closest_row now df = Some r ∧ first_nearest now df r.
Proof.
  destruct df as [|x df]; [done|]. intros _. unfold closest_row. simpl.
  apply (closest_row_fold now [x] x df). by exists [], [].
Qed.

(** X14.  [extract_current_from_forecast]: on a frame with rows, the
    current conditions are read from one row, the row nearest to the clock
    and the earliest such row when two are equally near; the result holds
    each variable at most once, with the value of that row, and leaves out
    exactly the variables whose value is missing there. *)
Theorem current_conditions_nearest (now : Z) (df : DataFrame) :
  df ≠ [] →
  ∃ r,
    first_nearest now df r
    ∧ (∀ v x, (v, x) ∈ extract_current_from_forecast now df
              ↔ cell v r = x ∧ notna x = true)
    ∧ NoDup (extract_current_from_forecast now df).*1.
Proof.
  intros Hne. destruct (closest_row_nearest now df Hne) as (r & Hr & Hnear).
  exists r. split; [done|]. unfold extract_current_from_forecast. rewrite Hr.
  split.
  - intros v x. rewrite list_elem_of_filter, list_elem_of_fmap. simpl. split.
    + intros [Hx (v' & Heq & _)].
      pose proof (f_equal fst Heq) as Hv. pose proof (f_equal snd Heq) as Hc.
      simpl in Hv, Hc. subst v'. by rewrite <- Hc.
    + intros [<- Hx]. split; [done|]. exists v. split; [done|].
      destruct v; repeat constructor.
  - eapply sublist_NoDup; [|apply fmap_sublist, sublist_filter].
    rewrite <- list_fmap_compose.
    change (NoDup (id <$> all_columns)). rewrite list_fmap_id.
    by apply (bool_decide_unpack _).
Qed.

Lemma current_conditions_nearest_witness :
  ∃ r,
    first_nearest (ns (Sample.stamp 1))
      [MainSample.row 0 20.5; MainSample.row 1 21.5; MainSample.row 2 22.5] r
    ∧ (∀ v x,
         (v, x) ∈ extract_current_from_forecast (ns (Sample.stamp 1))
                    [MainSample.row 0 20.5; MainSample.row 1 21.5;
                     MainSample.row 2 22.5]
         ↔ cell v r = x ∧ notna x = true)
    ∧ NoDup (extract_current_from_forecast (ns (Sample.stamp 1))
               [MainSample.row 0 20.5; MainSample.row 1 21.5;
                MainSample.row 2 22.5]).*1.
Proof.
  apply (current_conditions_nearest (ns (Sample.stamp 1))
           [MainSample.row 0 20.5; MainSample.row 1 21.5; MainSample.row 2 22.5]).
  intros H. discriminate H.
Defined.

End more_weather_facts.

(** * Further facts: reverse geocoding and autocomplete *)

Section more_reverse_facts.
Import ReverseGeocode.

Lemma try_geocoders_skip name f rest :
  (∀ place, f () ≠ Ok (Some place)) →
  try_geocoders ((name, f) :: rest) = try_geocoders rest.
Proof.
  intros Hf. simpl. destruct (f ()) as [[place|]|]; [|done..]. by destruct (Hf place).
Qed.

(** X15.  [reverse_geocode]: the providers are consulted in the order
    Google Maps (only with a non-empty key), Nominatim, Open-Meteo, and
    the first place found is returned.  A place from Google Maps wins over
    the others; when Google Maps is not configured, or is asked and raises
    or finds nothing, a place from Nominatim is returned; when Nominatim
    too raises or finds nothing, a place from Open-Meteo is returned; and
    without a key the Google Maps provider has no influence on the
    result. *)
Theorem reverse_geocode_priority (P : Providers) (lat lon : float)
    (google_api_key : option string) :
  let google_finds_nothing :=
    opt_str_truthy google_api_key = false
    ∨ ∃ key, google_api_key = Some key
             ∧ ∀ place, reverse_geocode_google_maps P lat lon key ≠ Ok (Some place) in
  (∀ key place,
     google_api_key = Some key → str_truthy key = true →
     reverse_geocode_google_maps P lat lon key = Ok (Some place) →
     reverse_geocode P lat lon google_api_key = Ok place)
  ∧ (∀ place,
       google_finds_nothing →
       reverse_geocode_nominatim P lat lon = Ok (Some place) →
       reverse_geocode P lat lon google_api_key = Ok place)
  ∧ (∀ place,
       google_finds_nothing →
       (∀ other, reverse_geocode_nominatim P lat lon ≠ Ok (Some other)) →
       reverse_geocode_openmeteo P lat lon = Ok (Some place) →
       reverse_geocode P lat lon google_api_key = Ok place)
  ∧ (∀ P',
       opt_str_truthy google_api_key = false →
       reverse_geocode_nominatim P' = reverse_geocode_nominatim P →
       reverse_geocode_openmeteo P' = reverse_geocode_openmeteo P →
       reverse_geocode P' lat lon google_api_key
       = reverse_geocode P lat lon google_api_key).
Proof.
  intros google_finds_nothing.
  assert (google_finds_nothing →
          try_geocoders (geocoders P lat lon google_api_key)
          = try_geocoders
              [("Nominatim", λ _, reverse_geocode_nominatim P lat lon);
               ("Open-Meteo", λ _, reverse_geocode_openmeteo P lat lon)]) as Hskip.
  { unfold geocoders.
    intros [Hkey|(key & -> & Hnothing)].
    - unfold opt_str_truthy in Hkey.
      destruct google_api_key as [key|]; [rewrite Hkey|]; done.
    - destruct (str_truthy key); [|done].
      by apply (try_geocoders_skip "Google Maps"). }
  split; [|split; [|split]].
  - unfold reverse_geocode, geocoders.
    intros key place -> Hkey Hplace. rewrite Hkey. simpl. by rewrite Hplace.
  - intros place Hgoogle Hplace. unfold reverse_geocode.
    rewrite Hskip by done. simpl. by rewrite Hplace.
  - intros place Hgoogle Hnominatim Hplace. unfold reverse_geocode.
    rewrite Hskip, try_geocoders_skip by done. simpl. by rewrite Hplace.
  - unfold reverse_geocode, geocoders, opt_str_truthy. intros P' Hkey Hn Ho.
    destruct google_api_key as [key|]; [rewrite Hkey|]; simpl; by rewrite Hn, Ho.
Qed.

Lemma reverse_geocode_priority_witness :
  reverse_geocode EndpointSample.google_first 18.5204%float 73.8567%float
    (Some "key") = Ok ReverseSample.pune_place
  ∧ reverse_geocode ReverseSample.nominatim_only 18.5204%float 73.8567%float None
    = Ok ReverseSample.pune_place
  ∧ reverse_geocode ReverseSample.nominatim_only 18.5204%float 73.8567%float
      (Some "key") = Ok ReverseSample.pune_place
  ∧ reverse_geocode EndpointSample.google_down 18.5204%float 73.8567%float
      (Some "key") = Ok ReverseSample.pune_place
  ∧ reverse_geocode EndpointSample.google_down 18.5204%float 73.8567%float None
    = reverse_geocode EndpointSample.google_first 18.5204%float 73.8567%float None.
Proof.
  destruct (reverse_geocode_priority EndpointSample.google_first 18.5204%float
              73.8567%float (Some "key")) as (Hgoogle & _ & _ & _).
  destruct (reverse_geocode_priority ReverseSample.nominatim_only 18.5204%float
              73.8567%float None) as (_ & Hnominatim & _ & _).
  destruct (reverse_geocode_priority ReverseSample.nominatim_only 18.5204%float
              73.8567%float (Some "key")) as (_ & Hnominatim' & _ & _).
  destruct (reverse_geocode_priority EndpointSample.google_down 18.5204%float
              73.8567%float (Some "key")) as (_ & _ & Hopenmeteo & _).
  destruct (reverse_geocode_priority EndpointSample.google_first 18.5204%float
              73.8567%float None) as (_ & _ & _ & Hsame).
  split; [|split; [|split; [|split]]].
  - by apply (Hgoogle "key").
  - apply Hnominatim; [by left|done].
  - apply Hnominatim'; [|done]. right. exists "key". split; [done|].
    intros place Hplace. discriminate Hplace.
  - apply Hopenmeteo; [| |done].
    + right. exists "key". split; [done|]. intros place Hplace. discriminate Hplace.
    + intros other Hother. discriminate Hother.
  - by apply (Hsame EndpointSample.google_down).
Defined.

End more_reverse_facts.

Section more_autocomplete_facts.
Import Autocomplete.

Lemma convert_Malformed candidates :
  Malformed ∈ candidates → convert candidates = None.
Proof.
  induction candidates as [|c rest IH]; intros Hin; [by apply elem_of_nil in Hin|].
  apply elem_of_cons in Hin as [<-|Hin]; [done|].
  destruct c as [|s|]; simpl; [by apply IH| |done].
  by rewrite IH.
Qed.

Lemma convert_wellformed candidates :
  Malformed ∉ candidates →
  convert candidates
  = Some (omap (λ c, match c with Converts s => Some s | _ => None end) candidates).
Proof.
  induction candidates as [|c rest IH]; intros Hin; [done|].
  apply not_elem_of_cons in Hin as [Hc Hin].
  destruct c as [|s|]; simpl; [by apply IH| |done].
  by rewrite IH.
Qed.

(** X16.  The provider wrappers [autocomplete_openmeteo],
    [autocomplete_nominatim] and [autocomplete_google_maps]: one candidate
    among the first [limit] whose conversion raises makes the wrapper
    return the empty list, the candidates converted before it included;
    otherwise the wrapper returns the candidates that carry coordinates,
    in upstream order. *)
Theorem provider_failure_discards_all (limit : Z) (results : list Candidate) :
  (Malformed ∈ py_slice_to limit results → wrapper limit (Some results) = [])
  ∧ (Malformed ∉ py_slice_to limit results →
     wrapper limit (Some results)
     = omap (λ c, match c with Converts s => Some s | _ => None end)
         (py_slice_to limit results)).
Proof.
  unfold wrapper. split; intros H.
  - by rewrite convert_Malformed.
  - by rewrite convert_wellformed.
Qed.

Lemma provider_failure_discards_all_witness :
  wrapper 5 (Some [Converts AutocompleteSample.pune; Malformed]) = []
  ∧ wrapper 1 (Some [Converts AutocompleteSample.pune; Malformed])
    = omap (λ c, match c with Converts s => Some s | _ => None end)
        (py_slice_to 1 [Converts AutocompleteSample.pune; Malformed]).
Proof.
  destruct (provider_failure_discards_all 5
              [Converts AutocompleteSample.pune; Malformed]) as [Hall _].
  destruct (provider_failure_discards_all 1
              [Converts AutocompleteSample.pune; Malformed]) as [_ Hsome].
  split.
  - apply Hall. apply list_elem_of_further, list_elem_of_here.
  - apply Hsome. intros Hin. apply elem_of_cons in Hin as [Hin|Hin].
    + discriminate Hin.
    + by apply elem_of_nil in Hin.
Defined.

Lemma mapM_Raise {A B} (f : A → result B) (l : list A) x :
  x ∈ l → (∃ e, f x = Raise e) → ∃ e, mapM f l = Raise e.
Proof.
  intros Hin [e He]. induction l as [|a l IH]; [by apply elem_of_nil in Hin|].
  change (mapM f (a :: l)) with (y ← f a; k ← mapM f l; mret (y :: k)).
  apply elem_of_cons in Hin as [<-|Hin].
  - rewrite He. by eexists.
  - destruct (f a); [|by eexists]. destruct (IH Hin) as [e' ->]. by eexists.
Qed.

Lemma get_autocomplete_suggestions_keyed P query limit google_api_key :
  Forall (λ s, is_Some (keyed s))
    (get_autocomplete_suggestions P query limit google_api_key)
  ∧ (0 < limit →
     Z.of_nat (length (get_autocomplete_suggestions P query limit google_api_key))
     ≤ limit).
Proof.
  unfold get_autocomplete_suggestions.
  destruct (negb (str_truthy query) || (String.length (strip query) <? 2)%nat).
  { split; [done|]. simpl. lia. }
  destruct (dedup_loop_spec limit (collect P (strip query) limit google_api_key) [] [])
    as (added & -> & _ & _ & Hkeyed & Hlen & _).
  - by intros k.
  - intros pre s post H. by destruct pre.
  - done.
  - split; [done|]. intros Hlimit. by apply Hlen.
Qed.

(** X17.  [autocomplete_location] over [get_autocomplete_suggestions]:
    every suggestion of the service carries both coordinates.  When the
    display name and the name of each of them are strings, the endpoint
    returns the suggestions of the service for the query at limit 8, each
    converted to the response schema, at most eight of them; when one of
    them has a display name or a name that is not a string, the schema
    rejects it and the endpoint returns the empty answer. *)
Theorem autocomplete_endpoint_complete (P : Providers)
    (GOOGLE_MAPS_API_KEY : option string) (q : string) :
  let service query limit key := Ok (get_autocomplete_suggestions P query limit key) in
  let suggestions := get_autocomplete_suggestions P q 8 GOOGLE_MAPS_API_KEY in
  let out := Endpoints.autocomplete_location service GOOGLE_MAPS_API_KEY q in
  Forall (λ s, is_Some (latitude s) ∧ is_Some (longitude s)) suggestions
  ∧ (Forall (λ s, is_Some (display_name s) ∧ is_Some (name s)) suggestions →
     Forall2 (λ s a, Endpoints.to_schema s = Ok a) suggestions out
     ∧ (length out ≤ 8)%nat)
  ∧ (Exists (λ s, display_name s = None ∨ name s = None) suggestions →
     out = []).
Proof.
  intros service suggestions out.
  subst out service. unfold Endpoints.autocomplete_location.
  destruct (get_autocomplete_suggestions_keyed P q 8 GOOGLE_MAPS_API_KEY)
    as [Hkeyed Hlen]. fold suggestions in Hkeyed, Hlen.
  assert (get_autocomplete_suggestions P (strip q) 8 GOOGLE_MAPS_API_KEY
          = suggestions) as Hstrip.
  { unfold suggestions, get_autocomplete_suggestions. rewrite strip_idemp.
    destruct (str_truthy q) eqn:Hq; simpl.
    - destruct (String.length (strip q) <? 2)%nat eqn:Hshort;
        [by rewrite orb_true_r|].
      destruct (str_truthy (strip q)) eqn:Hs; [done|].
      apply str_truthy_false in Hs. by rewrite Hs in Hshort.
    - apply str_truthy_false in Hq as ->. by vm_compute. }
  split.
  { eapply Forall_impl; [exact Hkeyed|]. intros s [k Hk]. unfold keyed in Hk.
    by destruct (latitude s), (longitude s). }
  destruct (negb (str_truthy q) || (String.length (strip q) <? 2)%nat) eqn:Hguard.
  { assert (suggestions = []) as Hnone
      by (unfold suggestions, get_autocomplete_suggestions; by rewrite Hguard).
    rewrite Hnone. split; [split; [done|simpl; lia]|done]. }
  cbn [mbind result_bind]. rewrite Hstrip. split.
  - intros Hnamed.
    set (schema := λ s : Suggestion,
           {| Endpoints.display_name := default "" (display_name s);
              Endpoints.name := default "" (name s);
              Endpoints.country := country s;
              Endpoints.latitude := default 0%float (latitude s);
              Endpoints.longitude := default 0%float (longitude s);
              Endpoints.source := source s |}).
    assert (∀ s, s ∈ suggestions → Endpoints.to_schema s = Ok (schema s))
      as Hschema.
    { intros s Hs.
      destruct (proj1 (Forall_forall _ _) Hkeyed s Hs) as [k Hk].
      destruct (proj1 (Forall_forall _ _) Hnamed s Hs) as [[d Hd] [n Hn]].
      unfold keyed in Hk. unfold Endpoints.to_schema, schema. rewrite Hd, Hn.
      by destruct (latitude s), (longitude s). }
    rewrite (mapM_Ok _ schema) by done. split.
    + apply Forall2_fmap_r, Forall_Forall2_diag. by apply Forall_forall.
    + rewrite length_fmap. lia.
  - intros (s & Hs & Hbad)%Exists_exists.
    destruct (mapM_Raise Endpoints.to_schema suggestions s Hs) as [e ->]; [|done].
    unfold Endpoints.to_schema.
    destruct Hbad as [-> | ->]; [by eexists|].
    destruct (display_name s); by eexists.
Qed.

Lemma autocomplete_endpoint_complete_witness :
  Forall2 (λ s a, Endpoints.to_schema s = Ok a)
    (get_autocomplete_suggestions AutocompleteSample.providers "Pune" 8 None)
    (Endpoints.autocomplete_location
       (λ query limit key,
          Ok (get_autocomplete_suggestions AutocompleteSample.providers query limit key))
       None "Pune")
  ∧ Endpoints.autocomplete_location
      (λ query limit key,
         Ok (get_autocomplete_suggestions EndpointSample.unnamed query limit key))
      None "Pune" = [].
Proof.
  destruct (autocomplete_endpoint_complete AutocompleteSample.providers None "Pune")
    as (_ & Hall & _).
  destruct (autocomplete_endpoint_complete EndpointSample.unnamed None "Pune")
    as (_ & _ & Hnone).
  split.
  - apply Hall. vm_compute. repeat constructor; by eexists.
  - apply Hnone. vm_compute. apply Exists_cons_tl, Exists_cons_hd. by left.
Defined.

(** X18.  [autocomplete_location]: the endpoint never fails; a query of
    fewer than two characters after trimming, a suggestion service that
    raises, and a suggestion without a latitude or a longitude each give
    the empty answer — in the last case the well-formed suggestions of the
    same answer are dropped with it. *)
Theorem autocomplete_endpoint_degrades
    (service : string → Z → option string → result (list Suggestion))
    (GOOGLE_MAPS_API_KEY : option string) (q : string) :
  ((String.length (strip q) < 2)%nat →
   Endpoints.autocomplete_location service GOOGLE_MAPS_API_KEY q = [])
  ∧ (∀ e, service (strip q) 8 GOOGLE_MAPS_API_KEY = Raise e →
          Endpoints.autocomplete_location service GOOGLE_MAPS_API_KEY q = [])
  ∧ (∀ suggestions s,
       service (strip q) 8 GOOGLE_MAPS_API_KEY = Ok suggestions →
       s ∈ suggestions → latitude s = None ∨ longitude s = None →
       Endpoints.autocomplete_location service GOOGLE_MAPS_API_KEY q = []).
Proof.
  unfold Endpoints.autocomplete_location. split; [|split].
  - intros Hshort. destruct (Nat.ltb_spec (String.length (strip q)) 2); [|lia].
    by rewrite orb_true_r.
  - intros e ->. by destruct (_ || _).
  - intros suggestions s -> Hin Hnone. destruct (_ || _); [done|].
    cbn [mbind result_bind].
    destruct (mapM_Raise Endpoints.to_schema suggestions s Hin) as [e ->]; [|done].
    unfold Endpoints.to_schema.
    destruct (display_name s), (name s); try by eexists.
    destruct Hnone as [-> | ->]; [by eexists|].
    destruct (latitude s); by eexists.
Qed.

Lemma autocomplete_endpoint_degrades_witness :
  Endpoints.autocomplete_location EndpointSample.half_located None " p " = []
  ∧ Endpoints.autocomplete_location (λ _ _ _, Raise (OtherError "timed out")) None
      "Pune" = []
  ∧ Endpoints.autocomplete_location EndpointSample.half_located None "Pune" = [].
Proof.
  destruct (autocomplete_endpoint_degrades EndpointSample.half_located None " p ")
    as (Hshort & _ & _).
  destruct (autocomplete_endpoint_degrades (λ _ _ _, Raise (OtherError "timed out"))
              None "Pune") as (_ & Hraise & _).
  destruct (autocomplete_endpoint_degrades EndpointSample.half_located None "Pune")
    as (_ & _ & Hbad).
  split; [|split].
  - apply Hshort. vm_compute. lia.
  - by apply (Hraise (OtherError "timed out")).
  - eapply Hbad.
    + reflexivity.
    + apply list_elem_of_further, list_elem_of_here.
    + by left.
Defined.

End more_autocomplete_facts.

(** * Further facts: the forecast columns of the response *)

Section more_main_facts.
Import Main.

Lemma dropna_idemp (s : Ml.Series) : Ml.dropna (Ml.dropna s) = Ml.dropna s.
Proof.
  unfold Ml.dropna, Ml.Series in *.
  rewrite (list_filter_filter (λ p : Timestamp * float, notna p.2 = true)
             (λ p : Timestamp * float, notna p.2 = true) s).
  apply list_filter_iff. intros p. tauto.
Qed.

(** X19.  [dataframe_to_timeseries]: the response series has one point
    per row of the frame, in the order of the rows, and no point carries a
    NaN: a field is [None] exactly when the cell is missing, and otherwise
    holds the cell's value. *)
Theorem timeseries_never_nan (df : DataFrame) :
  length (dataframe_to_timeseries df) = length df
  ∧ ∀ i point v,
      dataframe_to_timeseries df !! i = Some point →
      ∃ row,
        df !! i = Some row ∧ Schemas.time point = time row
        ∧ point_field v point = (if notna (cell v row) then Some (cell v row) else None)
        ∧ ∀ x, point_field v point = Some x → notna x = true.
Proof.
  unfold dataframe_to_timeseries. split; [by rewrite length_fmap|].
  intros i point v Hpoint.
  apply list_lookup_fmap_Some in Hpoint as (row & -> & Hrow).
  exists row. split; [done|]. split; [done|].
  assert (∀ y x, not_na y = Some x → notna x = true) as Hclean.
  { intros y x. unfold not_na. destruct (notna y) eqn:Hy; [|done].
    intros Hx. apply (f_equal (default y)) in Hx. simpl in Hx. by subst x. }
  split.
  - by destruct v.
  - intros x. destruct v; apply Hclean.
Qed.

Lemma timeseries_never_nan_witness :
  length (dataframe_to_timeseries EndpointSample.three_hours)
  = length EndpointSample.three_hours
  ∧ ∀ i point v,
      dataframe_to_timeseries EndpointSample.three_hours !! i = Some point →
      ∃ row,
        EndpointSample.three_hours !! i = Some row
        ∧ Schemas.time point = time row
        ∧ point_field v point = (if notna (cell v row) then Some (cell v row) else None)
        ∧ ∀ x, point_field v point = Some x → notna x = true.
Proof. apply (timeseries_never_nan EndpointSample.three_hours). Defined.

Lemma create_ml_forecast_df_cases (S : Services) historical_df forecast_df target_column :
  let ml := create_ml_forecast_df S historical_df forecast_df target_column in
  ml = [] ∨ ml = select target_column forecast_df
  ∨ ∃ predictions,
      length predictions = length forecast_df
      ∧ ml = zip (naive <$> times forecast_df) predictions.
Proof.
  simpl. unfold create_ml_forecast_df.
  destruct historical_df as [|h hist]; [by left|].
  destruct forecast_df as [|f fc]; [by left|]. right.
  destruct (_ <? 48)%nat; [by left|].
  destruct (train_local_model S _ 24%nat) as [[model lags]|]; [|by left]. csimpl.
  destruct (forecast_with_model S _ _ _ _) as [predictions|]; [|by left]. csimpl.
  unfold two_columns. case_decide as Hlen; [|by left].
  right. exists predictions. split; [|done].
  rewrite <- Hlen. unfold times. csimpl. by rewrite !length_fmap.
Qed.

Lemma fetch_forecast_aware api lat lon days :
  Forall (λ t, utc t = true) (times (Weather.fetch_forecast api lat lon days)).
Proof.
  destruct (fetch_forecast_cases api lat lon days) as [->|(params & st & body & _ & Hb)];
    [done|].
  apply process_body_accepts in Hb as (_ & _ & data & h & _ & _ & Hperm).
  rewrite Hperm. apply Forall_fmap, Forall_forall. by intros i _.
Qed.

Section blending.
Context (E : Environment) (forecast_df : DataFrame).
Context (ml_forecasts : Var → Ml.Series).
Hypothesis Hrows : forecast_df ≠ [].
Hypothesis Haware : Forall (λ t, utc t = true) (times forecast_df).

(** A forecast frame built from [forecast_df["time"].values] shares no
    label with the API forecast, so the blending step changes nothing. *)
Lemma blend_step_naive blended_df var predictions :
  length blended_df = length forecast_df →
  length predictions = length forecast_df →
  ml_forecasts var = zip (naive <$> times forecast_df) predictions →
  blend_step (implementation E) forecast_df ml_forecasts blended_df var = blended_df.
Proof.
  intros Hdf Hlen Hml. unfold blend_step.
  destruct (ml_forecasts var) as [|p rest] eqn:Hzip; [done|].
  rewrite Hml. clear p rest Hzip Hml. cbn [implementation blend_ml_and_api].
  set (ml := zip (naive <$> times forecast_df) predictions).
  assert (Ml.index ml = naive <$> times forecast_df) as Hindex.
  { unfold Ml.index, ml. apply fst_zip. unfold times. rewrite !length_fmap. lia. }
  assert (Ml.index ml ≠ Ml.index (select var forecast_df)) as Hne.
  { rewrite Hindex, index_select. destruct forecast_df as [|r fc]; [done|].
    apply Forall_cons in Haware as [Hr _]. csimpl. intros H.
    apply (f_equal (λ l, utc <$> head l)) in H. simpl in H. congruence. }
  destruct (Ml.blend_ml_and_api ml (select var forecast_df) alpha) as [res|] eqn:Hb;
    [|done].
  cbn [mbind result_bind].
  assert (res = []) as ->.
  { destruct res as [|[t x] res]; [done|]. exfalso.
    destruct (blend_sound _ _ _ _ t x Hb) as (m & a & Hml' & Hapi & _);
      [apply list_elem_of_here|].
    assert (t ∈ Ml.index ml) as Ht
      by (apply list_elem_of_fmap; by exists (t, m)).
    assert (t ∈ times forecast_df) as Ht'
      by (rewrite <- (index_select var); apply list_elem_of_fmap; by exists (t, a)).
    rewrite Hindex in Ht. apply list_elem_of_fmap in Ht as (t' & -> & _).
    eapply Forall_forall in Haware; [|exact Ht']. done. }
  unfold assign_column. rewrite decide_False; [done|].
  simpl. rewrite Hdf. by destruct forecast_df.
Qed.

(** An ML frame that is the API forecast itself is blended with itself. *)
Lemma blend_step_same blended_df var :
  length blended_df = length forecast_df →
  ml_forecasts var = select var forecast_df →
  let df := blend_step (implementation E) forecast_df ml_forecasts blended_df var in
  length df = length forecast_df
  ∧ ∀ w, column w df
         = if decide (w = var)
           then (λ x, Ml.blend_value alpha x x) <$> column var forecast_df
           else column w blended_df.
Proof.
  intros Hdf Hml. simpl. unfold blend_step.
  destruct (ml_forecasts var) as [|p rest] eqn:Hsel.
  { rewrite Hml in Hsel. destruct forecast_df; done. }
  rewrite Hml. clear p rest Hsel Hml. cbn [implementation blend_ml_and_api].
  rewrite blend_same. cbn [mbind result_bind].
  assert (Ml.values ((λ p, (p.1, Ml.blend_value alpha p.2 p.2))
                       <$> select var forecast_df)
          = (λ x, Ml.blend_value alpha x x) <$> column var forecast_df) as ->.
  { unfold Ml.values, select, column. rewrite <- !list_fmap_compose. done. }
  destruct (assign_column_Ok var
              ((λ x, Ml.blend_value alpha x x) <$> column var forecast_df) blended_df)
    as [df Ha].
  { unfold column. rewrite !length_fmap. lia. }
  rewrite Ha. split.
  - apply times_assign in Ha as [_ ->]. done.
  - intros w. by apply column_assign.
Qed.

Lemma blend_steps_sources historical_df vars :
  ml_forecasts = create_ml_forecast_df (implementation E) historical_df forecast_df →
  let df := foldl (blend_step (implementation E) forecast_df ml_forecasts)
              forecast_df vars in
  length df = length forecast_df
  ∧ ∀ v, column v df = column v forecast_df
         ∨ (v ∈ vars
            ∧ column v df
              = (λ x, Ml.blend_value alpha x x) <$> column v forecast_df).
Proof.
  intros Hml. simpl.
  induction vars as [|var vars IH] using rev_ind; [split; [done|by left]|].
  rewrite foldl_app. simpl. destruct IH as [Hlen Hcols].
  set (df := foldl _ forecast_df vars) in *.
  pose proof (create_ml_forecast_df_cases (implementation E) historical_df
                forecast_df var) as Hcases.
  simpl in Hcases. rewrite <- Hml in Hcases.
  assert (∀ v, v ∈ vars → v ∈ (vars ++ [var])%list) as Hin
    by (intros v Hv; apply elem_of_app; by left).
  destruct Hcases as [Hnil|[Hsame|(predictions & Hp & Hnaive)]].
  - unfold blend_step. rewrite Hnil. split; [done|].
    intros v. destruct (Hcols v) as [?|[? ?]]; [by left|right; auto].
  - destruct (blend_step_same df var Hlen Hsame) as [Hlen' Hcols'].
    split; [done|]. intros v. rewrite Hcols'.
    destruct (decide (v = var)) as [->|Hne].
    + right. split; [|done]. apply elem_of_app. right. apply list_elem_of_here.
    + destruct (Hcols v) as [?|[? ?]]; [by left|right; auto].
  - rewrite (blend_step_naive df var predictions Hlen Hp Hnaive).
    split; [done|].
    intros v. destruct (Hcols v) as [?|[? ?]]; [by left|right; auto].
Qed.

End blending.

(** X20.  [get_weather_data]: every column of [blended_forecast] is the
    API forecast column, or, for a target variable, the API column blended
    with itself ([0.6 * x + 0.4 * x]).  A forecast made by the trained
    models never reaches the blended forecast: its timestamps come from
    [forecast_df["time"].values], which drops the time zone, so they share
    no label with the API forecast and the blended column is not
    assigned. *)
Theorem blended_forecast_sources (E : Environment)
    (request : Schemas.LocationRequest) (response : Schemas.DataResponse) :
  get_weather_data (implementation E) request = Ok response →
  ∃ forecast_df blended_df,
    Schemas.api_forecast response = dataframe_to_timeseries forecast_df
    ∧ Schemas.blended_forecast response = dataframe_to_timeseries blended_df
    ∧ length blended_df = length forecast_df
    ∧ ∀ v, column v blended_df = column v forecast_df
           ∨ (v ∈ target_variables
              ∧ column v blended_df
                = (λ x, Ml.blend_value alpha x x) <$> column v forecast_df).
Proof.
  intros Hok.
  apply get_weather_data_Ok, handler_body_Ok in Hok
    as (geo & fc & combined & _ & Hfc & Hne & _ & _ & Hapi & _ & Hbl & _).
  cbn [implementation fetch_forecast fetch_historical] in Hfc, Hbl.
  apply Ok_inj in Hfc.
  eexists fc, _. split; [done|]. split; [exact Hbl|].
  eapply blend_steps_sources; [done| |done].
  rewrite <- Hfc. apply fetch_forecast_aware.
Qed.

Lemma blended_forecast_sources_witness :
  ∃ forecast_df blended_df,
    Schemas.api_forecast
      (Schemas.Build_DataResponse
         (Schemas.Build_LocationMetadata "18.5204, 73.8567" None 18.5204%float
            73.8567%float None)
         (Weather.extract_current_from_forecast (ns (Sample.stamp 1))
            (Weather.sort_values
               [MainSample.row 0 20.5; MainSample.row 1 21.5; MainSample.row 2 22.5]))
         []
         (dataframe_to_timeseries
            [MainSample.row 0 20.5; MainSample.row 1 21.5; MainSample.row 2 22.5])
         (dataframe_to_timeseries
            [MainSample.row 0 20.5; MainSample.row 1 21.5; MainSample.row 2 22.5])
         (dataframe_to_timeseries
            [MainSample.row 0 20.5; MainSample.row 1 21.5; MainSample.row 2 22.5]))
    = dataframe_to_timeseries forecast_df
    ∧ dataframe_to_timeseries
        [MainSample.row 0 20.5; MainSample.row 1 21.5; MainSample.row 2 22.5]
      = dataframe_to_timeseries blended_df
    ∧ length blended_df = length forecast_df
    ∧ ∀ v, column v blended_df = column v forecast_df
           ∨ (v ∈ target_variables
              ∧ column v blended_df
                = (λ x, Ml.blend_value alpha x x) <$> column v forecast_df).
Proof.
  apply (blended_forecast_sources EndpointSample.regular_environment
           MainSample.by_coordinates).
  vm_compute. reflexivity.
Defined.

(** X21.  [create_ml_forecast_df] over [train_local_model] and
    [forecast_with_model]: with at least 48 clean historical points for
    the variable and a fall-back fit that does not raise on the simple lag
    features of these points, training returns models and a lag count,
    the forecast of these models over the clean points returns one
    prediction per forecast row, and the ML forecast is that forecast
    under the forecast times without their time zone, not the API
    fall-back; the blending step of [get_weather_data] then leaves the
    frame it is given unchanged for that variable. *)
Theorem trained_forecast_not_blended (E : Environment)
    (predictor : Forecasting.Predictor (sklearn E))
    (historical_df forecast_df : DataFrame) (var : Var) :
  let S := implementation (Endpoints.environment_with E predictor) in
  let series := Ml.dropna (select var historical_df) in
  forecast_df ≠ [] →
  (48 ≤ length series)%nat →
  (∃ model,
     Ml.rf_fallback_fit (sklearn E) (Ml.create_simple_features series 24).1
       (Ml.create_simple_features series 24).2 = Ok model) →
  ∃ models lags predictions,
    Ml.train_local_model (sklearn E) series 24 = Ok (models, lags)
    ∧ Forecasting.forecast_with_model predictor (inl models) series
        (length forecast_df) lags = Ok predictions
    ∧ length predictions = length forecast_df
    ∧ create_ml_forecast_df S historical_df forecast_df var
      = zip (naive <$> times forecast_df) predictions
    ∧ (Forall (λ t, utc t = true) (times forecast_df) →
       ∀ blended_df,
         length blended_df = length forecast_df →
         blend_step S forecast_df (create_ml_forecast_df S historical_df forecast_df)
           blended_df var = blended_df).
Proof.
  intros S series Hfc Hhist Hfit.
  assert (∃ models lags,
            Ml.train_local_model (sklearn E) series 24 = Ok (models, lags))
    as (models & lags & Htrain).
  { unfold Ml.train_local_model.
    destruct (train_ensemble_fallback (sklearn E) series 24) as [[models H]|H];
      [by eexists _, _|].
    rewrite H. destruct Hfit as [model ->]. by eexists _, _. }
  assert (∃ predictions,
            Forecasting.forecast_with_model predictor (inl models) series
              (length forecast_df) lags = Ok predictions
            ∧ length predictions = length forecast_df)
    as (predictions & Hforecast & Hlen).
  { unfold Forecasting.forecast_with_model, Forecasting.forecast_with_ensemble.
    set (clean := Ml.dropna series).
    assert (clean = series) as Hclean by apply dropna_idemp.
    destruct (length clean <? lags)%nat eqn:Hshort.
    + eexists. split; [done|]. by rewrite length_replicate.
    + destruct (forecast_from_window predictor models lags (length forecast_df)
                  (Forecasting.iloc_tail lags clean))
        as (predictions & -> & Hlen).
      { apply iloc_tail_nonempty; [by apply Nat.ltb_ge|].
        rewrite Hclean. intros Hnil. rewrite Hnil in Hhist. simpl in Hhist. lia. }
      by exists predictions. }
  assert (create_ml_forecast_df S historical_df forecast_df var
          = zip (naive <$> times forecast_df) predictions) as Hml.
  { unfold create_ml_forecast_df.
    destruct historical_df as [|h hist]; [simpl in Hhist; lia|].
    destruct forecast_df as [|f fc]; [done|].
    fold series.
    destruct (Nat.ltb_spec (length series) 48); [lia|].
    subst S. cbn [implementation Endpoints.environment_with train_local_model
                  forecast_with_model sklearn forecast_with_ensemble Model].
    rewrite Htrain. cbn [mbind result_bind]. rewrite Hforecast.
    cbn [mbind result_bind]. unfold two_columns.
    by rewrite decide_True
      by (unfold times; rewrite !length_fmap; by rewrite Hlen). }
  exists models, lags, predictions.
  split; [done|]. split; [done|]. split; [done|]. split; [done|].
  intros Haware blended_df Hdf.
  by apply (blend_step_naive _ forecast_df _ Hfc Haware blended_df var predictions).
Qed.

Lemma trained_forecast_not_blended_witness :
  let S :=
    implementation
      (Endpoints.environment_with EndpointSample.regular_environment
         (EndpointSample.constant_predictor _ 21%float)) in
  let series := Ml.dropna (select temperature_2m EndpointSample.two_days) in
  ∃ models lags predictions,
    Ml.train_local_model (sklearn EndpointSample.regular_environment) series 24
    = Ok (models, lags)
    ∧ Forecasting.forecast_with_model (EndpointSample.constant_predictor _ 21%float)
        (inl models) series (length EndpointSample.three_hours) lags
      = Ok predictions
    ∧ length predictions = length EndpointSample.three_hours
    ∧ create_ml_forecast_df S EndpointSample.two_days EndpointSample.three_hours
        temperature_2m
      = zip (naive <$> times EndpointSample.three_hours) predictions
    ∧ (Forall (λ t, utc t = true) (times EndpointSample.three_hours) →
       ∀ blended_df,
         length blended_df = length EndpointSample.three_hours →
         blend_step S EndpointSample.three_hours
           (create_ml_forecast_df S EndpointSample.two_days
              EndpointSample.three_hours)
           blended_df temperature_2m = blended_df).
Proof.
  apply (trained_forecast_not_blended EndpointSample.regular_environment
           (EndpointSample.constant_predictor _ 21%float)
           EndpointSample.two_days EndpointSample.three_hours temperature_2m).
  - intros H. discriminate H.
  - vm_compute. lia.
  - exists true. reflexivity.
Defined.

End more_main_facts.
